(** * A shallow embedding of [transformer.py]: the Vision Transformer encoder

    The classes of the source are PyTorch modules.  Every tensor of the
    source is modelled by its shape and its elements in contiguous row-major
    order; every PyTorch operation the source calls is given its index-level
    meaning on that representation, together with the shape check under which
    PyTorch raises.  Arithmetic on floats is idealised as arithmetic on the
    real numbers: no rounding, no overflow, no NaN.  Sizes and configuration
    integers are natural numbers.  A tensor may have a dimension of size 0,
    as in PyTorch; tensors without dimensions do not occur in the source. *)

From Stdlib Require Import List Arith PeanoNat ZArith Lia Bool Reals Lra
  Permutation.
Import ListNotations.

Set Implicit Arguments.

(** ** Errors raised by Python and PyTorch *)

Inductive error : Type :=
| ZeroDivisionError
    (* Python: [//], [%] or [/] with a zero divisor *)
| AssertionError
    (* Python: a failed [assert] *)
| DimOutOfRange (rank dim : nat)
    (* torch IndexError: dimension out of range *)
| InvalidShape (numel : nat)
    (* torch view: shape is invalid for input of size [numel] *)
| AmbiguousShape
    (* torch view: the unspecified dimension -1 can be any value *)
| SizeMismatch (a b : nat)
    (* torch broadcasting or expand: the sizes [a] and [b] of the two
       operands differ at a dimension where neither is 1 *)
| MatMismatch (a b : nat)
    (* torch linear or matmul: inner dimensions [a] and [b] differ *)
| NormMismatch (last d : nat)
    (* torch layer_norm: the last dimension is not the normalized shape *)
| UnfoldError (n size step : nat)
    (* torch unfold: [size] exceeds the dimension [n], or [step] is 0 *)
| TooManyInferred
    (* torch view: only one dimension can be inferred *)
| RankError (rank : nat).
    (* an operand with too few dimensions for the operation *)

Inductive result (A : Type) : Type :=
| Ok (a : A)
| Err (e : error).

Arguments Ok {A} a.
Arguments Err {A} e.

Definition bind {A B} (m : result A) (f : A -> result B) : result B :=
  match m with
  | Ok a => f a
  | Err e => Err e
  end.

Notation "x <- m ;; k" := (bind m (fun x => k))
  (at level 61, m at next level, right associativity).

Definition is_ok {A} (m : result A) : bool :=
  match m with Ok _ => true | Err _ => false end.

Definition rmap {A B} (f : A -> B) (m : result A) : result B :=
  match m with Ok a => Ok (f a) | Err e => Err e end.

(** ** Shapes, indices and the row-major layout *)

Fixpoint numel (s : list nat) : nat :=
  match s with
  | [] => 1
  | n :: s' => n * numel s'
  end.

(** Position of the element at multi-index [idx] in the contiguous data. *)
Fixpoint offset (s idx : list nat) : nat :=
  match s, idx with
  | _ :: s', i :: idx' => i * numel s' + offset s' idx'
  | _, _ => 0
  end.

(** All multi-indices of a shape, in row-major order. *)
Fixpoint indices (s : list nat) : list (list nat) :=
  match s with
  | [] => [[]]
  | n :: s' => flat_map (fun i => map (cons i) (indices s')) (seq 0 n)
  end.

Fixpoint in_bounds (s idx : list nat) : bool :=
  match s, idx with
  | [], [] => true
  | n :: s', i :: idx' => (i <? n) && in_bounds s' idx'
  | _, _ => false
  end.

Record tensor (A : Type) : Type := Tensor {
  shape : list nat;
  data : list A
}.

Arguments Tensor {A} shape data.

Definition wf {A} (t : tensor A) : Prop :=
  length (data t) = numel (shape t).

Definition tget {A} (d : A) (t : tensor A) (idx : list nat) : A :=
  nth (offset (shape t) idx) (data t) d.

Definition tbuild {A} (s : list nat) (f : list nat -> A) : tensor A :=
  Tensor s (map f (indices s)).

Definition rank {A} (t : tensor A) : nat := length (shape t).

(** ** Structural PyTorch operations

    These move elements without computing on them, so they are stated for
    any element type.  A dimension argument is an integer as in the source;
    a negative one counts from the end. *)

Definition wrap_dim (r : nat) (k : Z) : result nat :=
  if ((0 <=? k) && (k <? Z.of_nat r))%Z then Ok (Z.to_nat k)
  else if ((- Z.of_nat r <=? k) && (k <? 0))%Z then Ok (Z.to_nat (k + Z.of_nat r))
  else Err (DimOutOfRange r (Z.abs_nat k)).

(** The list [l] with the entries at positions [i] and [j] exchanged. *)
Definition swap_at (i j : nat) (l : list nat) : list nat :=
  map (fun k => nth (if k =? i then j else if k =? j then i else k) l 0)
      (seq 0 (length l)).

Fixpoint set_at (k v : nat) (l : list nat) : list nat :=
  match l, k with
  | [], _ => []
  | _ :: l', 0 => v :: l'
  | x :: l', S k' => x :: set_at k' v l'
  end.

(** [view]: the requested sizes, [None] standing for -1.  PyTorch accepts
    the request when the known sizes multiply to the number of elements,
    or, with one -1, when they divide it; it refuses a -1 when the known
    sizes multiply to 0, since any value would do. *)
Fixpoint known_size (spec : list (option nat)) : nat :=
  match spec with
  | [] => 1
  | Some n :: r => n * known_size r
  | None :: r => known_size r
  end.

Fixpoint count_inferred (spec : list (option nat)) : nat :=
  match spec with
  | [] => 0
  | Some _ :: r => count_inferred r
  | None :: r => S (count_inferred r)
  end.

Definition fill (v : nat) (spec : list (option nat)) : list nat :=
  map (fun o => match o with Some n => n | None => v end) spec.

Definition view_shape (n : nat) (spec : list (option nat)) : result (list nat) :=
  let k := known_size spec in
  match count_inferred spec with
  | 0 => if n =? k then Ok (fill 0 spec) else Err (InvalidShape n)
  | 1 =>
      if n =? k then
        if k =? 0 then Err AmbiguousShape else Ok (fill (n / k) spec)
      else if (0 <? k) && (n mod k =? 0) then Ok (fill (n / k) spec)
      else Err (InvalidShape n)
  | _ => Err TooManyInferred
  end.

Section Structural.
Context {A : Type} (d : A).

(** [t.size(k)] and [t.shape[k]] *)
Definition size (t : tensor A) (k : Z) : result nat :=
  i <- wrap_dim (rank t) k ;; Ok (nth i (shape t) 0).

(** [t.contiguous()]: the elements are always kept in row-major order
    here, so only the layout changes in PyTorch. *)
Definition contiguous (t : tensor A) : tensor A := t.

(** [t.view(spec)] of a contiguous tensor *)
Definition view (t : tensor A) (spec : list (option nat)) : result (tensor A) :=
  s <- view_shape (numel (shape t)) spec ;; Ok (Tensor s (data t)).

(** [t.transpose(d0, d1)] *)
Definition transpose_out (i j : nat) (t : tensor A) : tensor A :=
  tbuild (swap_at i j (shape t)) (fun idx => tget d t (swap_at i j idx)).

Definition transpose (t : tensor A) (d0 d1 : Z) : result (tensor A) :=
  i <- wrap_dim (rank t) d0 ;;
  j <- wrap_dim (rank t) d1 ;;
  Ok (transpose_out i j t).

(** [t.unfold(dim, size, step)]: windows of [size] entries every [step]
    along [dim]; the window position replaces the dimension and the
    offset inside the window becomes a new last dimension. *)
Definition unfold_out (k sz step : nat) (t : tensor A) : tensor A :=
  tbuild (set_at k ((nth k (shape t) 0 - sz) / step + 1) (shape t) ++ [sz])
         (fun idx =>
            tget d t (set_at k (nth k idx 0 * step + last idx 0)
                             (removelast idx))).

Definition unfold (t : tensor A) (dim : Z) (sz step : nat) : result (tensor A) :=
  k <- wrap_dim (rank t) dim ;;
  let n := nth k (shape t) 0 in
  if (step =? 0) || (n <? sz) then Err (UnfoldError n sz step)
  else Ok (unfold_out k sz step t).

(** [TransformerEncoder.patchify], as a function of the two attributes
    of [self] it reads. *)
Definition patchify_with (patch_size patch_dim : nat) (images : tensor A)
  : result (tensor A) :=
  batch_size <- size images 0 ;;
  rows <- unfold images 2 patch_size patch_size ;;
  patches <- unfold rows 3 patch_size patch_size ;;
  view (contiguous patches) [Some batch_size; None; Some patch_dim].

End Structural.

(** ** Numeric PyTorch operations, over the reals *)

Definition rtensor : Type := tensor R.

Definition rget (t : rtensor) (idx : list nat) : R := tget 0%R t idx.

Definition Rsum (l : list R) : R := fold_right Rplus 0%R l.

(** The sum of [f c] for [c] in [0, n). *)
Definition sum_over (n : nat) (f : nat -> R) : R := Rsum (map f (seq 0 n)).

Definition tmap (f : R -> R) (t : rtensor) : rtensor :=
  Tensor (shape t) (map f (data t)).

Definition zeros (s : list nat) : rtensor := tbuild s (fun _ => 0%R).
Definition ones (s : list nat) : rtensor := tbuild s (fun _ => 1%R).

(** [torch.arange(0, stop, step).float()] for a positive [step] *)
Definition arange (stop step : nat) : rtensor :=
  tbuild [(stop + step - 1) / step] (fun idx => INR (nth 0 idx 0 * step)).

(** [t.unsqueeze(k)] *)
Definition unsqueeze {A} (t : tensor A) (k : nat) : tensor A :=
  Tensor (firstn k (shape t) ++ 1 :: skipn k (shape t)) (data t).

(** Broadcasting.  Shapes are aligned at their last dimension; two sizes
    are compatible when they are equal or one of them is 1, and the other
    one is then the size of the result. *)
Fixpoint broadcast_rev (r1 r2 : list nat) : result (list nat) :=
  match r1, r2 with
  | [], _ => Ok r2
  | _, [] => Ok r1
  | a :: r1', b :: r2' =>
      if a =? b then rmap (cons a) (broadcast_rev r1' r2')
      else if a =? 1 then rmap (cons b) (broadcast_rev r1' r2')
      else if b =? 1 then rmap (cons a) (broadcast_rev r1' r2')
      else Err (SizeMismatch a b)
  end.

Definition broadcast_shapes (s1 s2 : list nat) : result (list nat) :=
  rmap (@rev nat) (broadcast_rev (rev s1) (rev s2)).

(** The index into an operand of shape [s] that the index [idx] of the
    broadcast result reads. *)
Definition bcast_index (s idx : list nat) : list nat :=
  map (fun ni => if fst ni =? 1 then 0 else snd ni)
      (combine s (skipn (length idx - length s) idx)).

Definition broadcast2_out (op : R -> R -> R) (s : list nat) (x y : rtensor)
  : rtensor :=
  tbuild s (fun idx => op (rget x (bcast_index (shape x) idx))
                          (rget y (bcast_index (shape y) idx))).

Definition broadcast2 (op : R -> R -> R) (x y : rtensor) : result rtensor :=
  s <- broadcast_shapes (shape x) (shape y) ;;
  Ok (broadcast2_out op s x y).

Definition add : rtensor -> rtensor -> result rtensor := broadcast2 Rplus.
Definition mul : rtensor -> rtensor -> result rtensor := broadcast2 Rmult.

(** [src.expand(target)]: a size of [src] is kept or, when it is 1,
    stretched to the target size, whatever that is (0 included). *)
Fixpoint expand_rev (r target : list nat) : result unit :=
  match r, target with
  | [], _ => Ok tt
  | a :: _, [] => Err (RankError (length r))
  | a :: r', b :: t' =>
      if (a =? b) || (a =? 1) then expand_rev r' t' else Err (SizeMismatch b a)
  end.

Definition expand_out (src : rtensor) (target : list nat) : rtensor :=
  tbuild target (fun idx => rget src (bcast_index (shape src) idx)).

Definition expand (src : rtensor) (target : list nat) : result rtensor :=
  _ <- expand_rev (rev (shape src)) (rev target) ;;
  Ok (expand_out src target).

(** [t[:, start::step] = src] on a matrix [t]: [src] is expanded to the
    shape of the selected columns and copied into them. *)
Definition selected_cols (cols start step : nat) : nat :=
  (cols - start + step - 1) / step.

Definition setitem_cols_out (t : rtensor) (start step : nat) (src : rtensor)
  : rtensor :=
  tbuild (shape t)
    (fun idx =>
       let r := nth 0 idx 0 in
       let c := nth 1 idx 0 in
       if (start <=? c) && ((c - start) mod step =? 0)
       then rget src [r; (c - start) / step]
       else rget t idx).

Definition setitem_cols (t : rtensor) (start step : nat) (src : rtensor)
  : result rtensor :=
  let rows := nth 0 (shape t) 0 in
  let cols := nth 1 (shape t) 0 in
  src' <- expand src [rows; selected_cols cols start step] ;;
  Ok (setitem_cols_out t start step src').

(** [t[:, :stop, :]]: Python slicing clamps [stop] to the size. *)
Definition slice_upto (t : rtensor) (k stop : nat) : rtensor :=
  tbuild (set_at k (Nat.min stop (nth k (shape t) 0)) (shape t)) (rget t).

(** [F.linear(x, W, b)]: [x] is [.., in], [W] is [out, in], [b] is [out]. *)
Definition linear_out (x W b : rtensor) : rtensor :=
  tbuild (removelast (shape x) ++ [nth 0 (shape W) 0])
    (fun idx =>
       (sum_over (nth 1 (shape W) 0%nat)
                 (fun c => rget x (removelast idx ++ [c])
                           * rget W [last idx 0%nat; c])
        + rget b [last idx 0%nat])%R).

Definition linear (x W b : rtensor) : result rtensor :=
  if rank x =? 0 then Err (RankError 0)
  else
    let k := last (shape x) 0 in
    let i := nth 1 (shape W) 0 in
    if k =? i then Ok (linear_out x W b) else Err (MatMismatch k i).

(** [F.layer_norm(x, (d,), gamma, beta, eps)]: mean and biased variance
    over the last dimension. *)
Definition row_mean (x : rtensor) (row : list nat) (n : nat) : R :=
  (sum_over n (fun c => rget x (row ++ [c])) / INR n)%R.

Definition row_var (x : rtensor) (row : list nat) (n : nat) : R :=
  (sum_over n (fun c => (rget x (row ++ [c]) - row_mean x row n) ^ 2) / INR n)%R.

Definition layer_norm_out (x : rtensor) (d : nat) (gamma beta : rtensor) (eps : R)
  : rtensor :=
  tbuild (shape x)
    (fun idx =>
       let row := removelast idx in
       ((rget x idx - row_mean x row d) / sqrt (row_var x row d + eps)
        * rget gamma [last idx 0%nat] + rget beta [last idx 0%nat])%R).

Definition layer_norm (x : rtensor) (d : nat) (gamma beta : rtensor) (eps : R)
  : result rtensor :=
  if rank x =? 0 then Err (RankError 0)
  else if last (shape x) 0 =? d then Ok (layer_norm_out x d gamma beta eps)
  else Err (NormMismatch (last (shape x) 0) d).

(** [torch.softmax(x, dim)] *)
Definition softmax_out (k : nat) (x : rtensor) : rtensor :=
  tbuild (shape x)
    (fun idx =>
       (exp (rget x idx)
        / sum_over (nth k (shape x) 0%nat)
                   (fun c => exp (rget x (set_at k c idx))))%R).

Definition softmax (x : rtensor) (dim : Z) : result rtensor :=
  k <- wrap_dim (rank x) dim ;; Ok (softmax_out k x).

(** [torch.matmul(a, b)] for operands of rank 2 or more: the last two
    dimensions are multiplied as matrices, the others broadcast.  The
    source multiplies tensors of rank 4 only; the special cases PyTorch has
    for vectors are left out and refused. *)
Definition batch_dims (s : list nat) : list nat := firstn (length s - 2) s.

Definition matmul_out (bs : list nat) (a b : rtensor) : rtensor :=
  tbuild (bs ++ [nth (rank a - 2) (shape a) 0; last (shape b) 0])
    (fun idx =>
       let bi := firstn (length bs) idx in
       let i := nth (length bs) idx 0 in
       let j := nth (S (length bs)) idx 0 in
       sum_over (last (shape a) 0)
         (fun c => (rget a (bcast_index (batch_dims (shape a)) bi ++ [i; c])
                    * rget b (bcast_index (batch_dims (shape b)) bi ++ [c; j]))%R)).

Definition matmul (a b : rtensor) : result rtensor :=
  if (rank a <? 2) || (rank b <? 2) then Err (RankError (Nat.min (rank a) (rank b)))
  else
    let m := last (shape a) 0 in
    let m' := nth (rank b - 2) (shape b) 0 in
    if m =? m' then
      bs <- broadcast_shapes (batch_dims (shape a)) (batch_dims (shape b)) ;;
      Ok (matmul_out bs a b)
    else Err (MatMismatch m m').

(** [x.mean(dim)] *)
Definition mean_out (k : nat) (x : rtensor) : rtensor :=
  tbuild (firstn k (shape x) ++ skipn (S k) (shape x))
    (fun idx =>
       (sum_over (nth k (shape x) 0%nat)
                 (fun c => rget x (firstn k idx ++ c :: skipn k idx))
        / INR (nth k (shape x) 0%nat))%R).

Definition mean (x : rtensor) (dim : Z) : result rtensor :=
  k <- wrap_dim (rank x) dim ;; Ok (mean_out k x).

Definition relu (x : rtensor) : rtensor := tmap (Rmax 0) x.

(** ** Construction

    [nn.Linear] draws its parameters at random.  The random source is a
    stream of reals [g]; constructing a module reads the stream from a
    position and returns the position after the draws, or raises. *)

Definition rng : Type := nat -> R.

Definition M (A : Type) : Type := nat -> result (A * nat).

Definition retM {A} (a : A) : M A := fun c => Ok (a, c).

Definition bindM {A B} (m : M A) (f : A -> M B) : M B :=
  fun c => match m c with
           | Ok (a, c') => f a c'
           | Err e => Err e
           end.

Definition liftM {A} (r : result A) : M A :=
  fun c => match r with
           | Ok a => Ok (a, c)
           | Err e => Err e
           end.

Notation "x <~ m ;; k" := (bindM m (fun x => k))
  (at level 61, m at next level, right associativity).

Definition draw (g : rng) (s : list nat) : M rtensor :=
  fun c => Ok (Tensor s (map g (seq c (numel s))), c + numel s).

(** [[m for _ in range(n)]] *)
Fixpoint replicateM {A} (n : nat) (m : M A) : M (list A) :=
  match n with
  | 0 => retM []
  | S n' => a <~ m ;; l <~ replicateM n' m ;; retM (a :: l)
  end.

(** Python's [a // b] and [a % b] on naturals. *)
Definition floordiv (a b : nat) : result nat :=
  if b =? 0 then Err ZeroDivisionError else Ok (a / b).

Definition pymod (a b : nat) : result nat :=
  if b =? 0 then Err ZeroDivisionError else Ok (a mod b).

Definition assert (b : bool) : result unit :=
  if b then Ok tt else Err AssertionError.

(** ** The modules of the source *)

Module Linear.
Record t : Type := Build {
  weight : rtensor;
  bias : rtensor
}.

(** [nn.Linear(in_features, out_features)] *)
Definition init (g : rng) (in_features out_features : nat) : M t :=
  w <~ draw g [out_features; in_features] ;;
  b <~ draw g [out_features] ;;
  retM (Build w b).

Definition forward (self : t) (x : rtensor) : result rtensor :=
  linear x (weight self) (bias self).
End Linear.

Module LayerNorm.
Record t : Type := Build {
  normalized_shape : nat;
  weight : rtensor;
  bias : rtensor;
  eps : R
}.

(** [nn.LayerNorm(d)]: scale 1, shift 0, eps 1e-5 *)
Definition init (d : nat) : t :=
  Build d (ones [d]) (zeros [d]) (1 / 100000)%R.

Definition forward (self : t) (x : rtensor) : result rtensor :=
  layer_norm x (normalized_shape self) (weight self) (bias self) (eps self).
End LayerNorm.

Module PositionalEncoding.
Record t : Type := Build {
  pe : rtensor
}.

Definition init (d_model max_len : nat) : result t :=
  let pe := zeros [max_len; d_model] in
  let position := unsqueeze (arange max_len 1) 1 in
  c <- (if d_model =? 0 then Err ZeroDivisionError
        else Ok (- ln 10000 / INR d_model)%R) ;;
  let div_term := tmap exp (tmap (fun v => v * c)%R (arange d_model 2)) in
  a <- mul position div_term ;;
  pe <- setitem_cols pe 0 2 (tmap sin a) ;;
  a <- mul position div_term ;;
  pe <- setitem_cols pe 1 2 (tmap cos a) ;;
  Ok (Build (unsqueeze pe 0)).

Definition forward (self : t) (x : rtensor) : result rtensor :=
  len <- size x 1 ;;
  add x (slice_upto (pe self) 1 len).
End PositionalEncoding.

Module MultiHeadAttention.
Record t : Type := Build {
  num_heads : nat;
  d_k : nat;
  q_linear : Linear.t;
  k_linear : Linear.t;
  v_linear : Linear.t;
  out_proj : Linear.t
}.

Definition init (g : rng) (d_model num_heads : nat) : M t :=
  r <~ liftM (pymod d_model num_heads) ;;
  _ <~ liftM (assert (r =? 0)) ;;
  d_k <~ liftM (floordiv d_model num_heads) ;;
  q <~ Linear.init g d_model d_model ;;
  k <~ Linear.init g d_model d_model ;;
  v <~ Linear.init g d_model d_model ;;
  o <~ Linear.init g d_model d_model ;;
  retM (Build num_heads d_k q k v o).

(** The attention weights: the value of [weights] in
    [scaled_dot_product_attention].  With [d_k = 0] the source divides
    by [math.sqrt(0) = 0.0] and every score is NaN, which the reals do
    not have: the real quotient is then 0.  What is proved of the weights
    is proved for a positive [d_k]. *)
Definition attention_weights (self : t) (Q K : rtensor) : result rtensor :=
  Kt <- transpose 0%R K (-2) (-1) ;;
  prod <- matmul Q Kt ;;
  let scores := tmap (fun v => v / sqrt (INR (d_k self)))%R prod in
  softmax scores (-1).

Definition scaled_dot_product_attention (self : t) (Q K V : rtensor)
  : result rtensor :=
  weights <- attention_weights self Q K ;;
  matmul weights V.

(** [linear(x).view(batch_size, -1, num_heads, d_k).transpose(1, 2)] *)
Definition split_heads (self : t) (batch_size : nat) (x : rtensor)
  : result rtensor :=
  v <- view x [Some batch_size; None; Some (num_heads self); Some (d_k self)] ;;
  transpose 0%R v 1 2.

(** [out.transpose(1, 2).contiguous().view(batch_size, -1, num_heads * d_k)] *)
Definition concat_heads (self : t) (batch_size : nat) (out : rtensor)
  : result rtensor :=
  o <- transpose 0%R out 1 2 ;;
  view (contiguous o) [Some batch_size; None; Some (num_heads self * d_k self)].

Definition forward (self : t) (Q K V : rtensor) : result rtensor :=
  batch_size <- size Q 0 ;;
  Q <- (q <- Linear.forward (q_linear self) Q ;; split_heads self batch_size q) ;;
  K <- (k <- Linear.forward (k_linear self) K ;; split_heads self batch_size k) ;;
  V <- (v <- Linear.forward (v_linear self) V ;; split_heads self batch_size v) ;;
  out <- scaled_dot_product_attention self Q K V ;;
  out <- concat_heads self batch_size out ;;
  Linear.forward (out_proj self) out.
End MultiHeadAttention.

Module PositionWiseFeedForward.
Record t : Type := Build {
  fc1 : Linear.t;
  fc2 : Linear.t
}.

Definition init (g : rng) (d_model d_ff : nat) : M t :=
  f1 <~ Linear.init g d_model d_ff ;;
  f2 <~ Linear.init g d_ff d_model ;;
  retM (Build f1 f2).

Definition forward (self : t) (x : rtensor) : result rtensor :=
  h <- Linear.forward (fc1 self) x ;;
  Linear.forward (fc2 self) (relu h).
End PositionWiseFeedForward.

Module EncoderLayer.
Record t : Type := Build {
  attention : MultiHeadAttention.t;
  norm1 : LayerNorm.t;
  ffn : PositionWiseFeedForward.t;
  norm2 : LayerNorm.t
}.

Definition init (g : rng) (d_model num_heads d_ff : nat) : M t :=
  a <~ MultiHeadAttention.init g d_model num_heads ;;
  let n1 := LayerNorm.init d_model in
  f <~ PositionWiseFeedForward.init g d_model d_ff ;;
  let n2 := LayerNorm.init d_model in
  retM (Build a n1 f n2).

Definition forward (self : t) (x : rtensor) : result rtensor :=
  attn_output <- MultiHeadAttention.forward (attention self) x x x ;;
  s <- add x attn_output ;;
  x <- LayerNorm.forward (norm1 self) s ;;
  ffn_output <- PositionWiseFeedForward.forward (ffn self) x ;;
  s <- add x ffn_output ;;
  LayerNorm.forward (norm2 self) s.
End EncoderLayer.

Module TransformerEncoder.
Record t : Type := Build {
  patch_size : nat;
  num_patches : nat;
  patch_dim : nat;
  patch_embedding : Linear.t;
  positional_encoding : PositionalEncoding.t;
  encoder_layers : list EncoderLayer.t;
  norm : LayerNorm.t;
  fc : Linear.t
}.

Definition init (g : rng)
  (img_size patch_size d_model num_heads num_layers d_ff num_classes : nat)
  : M t :=
  side <~ liftM (floordiv img_size patch_size) ;;
  let num_patches := side ^ 2 in
  let patch_dim := 3 * patch_size * patch_size in
  emb <~ Linear.init g patch_dim d_model ;;
  posenc <~ liftM (PositionalEncoding.init d_model num_patches) ;;
  layers <~ replicateM num_layers (EncoderLayer.init g d_model num_heads d_ff) ;;
  let norm := LayerNorm.init d_model in
  fc <~ Linear.init g d_model num_classes ;;
  retM (Build patch_size num_patches patch_dim emb posenc layers norm fc).

Definition patchify (self : t) (images : rtensor) : result rtensor :=
  patchify_with 0%R (patch_size self) (patch_dim self) images.

(** [for layer in self.encoder_layers: x = layer(x)] *)
Fixpoint run_layers (layers : list EncoderLayer.t) (x : rtensor)
  : result rtensor :=
  match layers with
  | [] => Ok x
  | layer :: rest => x' <- EncoderLayer.forward layer x ;; run_layers rest x'
  end.

Definition forward (self : t) (x : rtensor) : result rtensor :=
  x <- patchify self x ;;
  x <- Linear.forward (patch_embedding self) x ;;
  x <- PositionalEncoding.forward (positional_encoding self) x ;;
  x <- run_layers (encoder_layers self) x ;;
  x <- LayerNorm.forward (norm self) x ;;
  x <- mean x 1 ;;
  Linear.forward (fc self) x.
End TransformerEncoder.

(** ** The specification's words, as definitions

    These follow the sentences of the specification, not the source; the
    theorems below compare them with what the source computes. *)

Module Spec.

(** "extracts non-overlapping patch_size x patch_size tiles across H and
    W, flattens each tile's channel x height x width content into a
    vector, and arranges tiles in row-major scan order": patch [n] is the
    tile in row [n / (W/p)] and column [n mod (W/p)], and its entry [k]
    is the pixel of channel [k / p^2] at row [(k mod p^2) / p] and
    column [k mod p] of that tile. *)
Definition patchify {A} (d : A) (p : nat) (images : tensor A) : tensor A :=
  let B := nth 0 (shape images) 0 in
  let C := nth 1 (shape images) 0 in
  let H := nth 2 (shape images) 0 in
  let W := nth 3 (shape images) 0 in
  tbuild [B; (H / p) * (W / p); C * (p * p)]
    (fun idx =>
       let b := nth 0 idx 0 in
       let n := nth 1 idx 0 in
       let k := nth 2 idx 0 in
       tget d images [b; k / (p * p);
                      (n / (W / p)) * p + (k mod (p * p)) / p;
                      (n mod (W / p)) * p + k mod p]).

(** "pos / 10000^(2i/d_model)" *)
Definition angle (d_model pos i : nat) : R :=
  (INR pos / Rpower 10000 (2 * INR i / INR d_model))%R.

(** "x + pe[:, :L, :] broadcast over batch" *)
Definition add_positions (pe x : rtensor) : rtensor :=
  tbuild (shape x) (fun idx => (rget x idx + rget pe (0%nat :: tl idx))%R).

(** "residual add": the elementwise sum of two tensors of one shape *)
Definition residual (x y : rtensor) : rtensor :=
  tbuild (shape x) (fun idx => (rget x idx + rget y idx)%R).

(** "layer normalization (mean/variance computed per position across the
    feature dimension, then scaled/shifted by learned parameters)" *)
Definition normalize (ln : LayerNorm.t) (x : rtensor) : rtensor :=
  tbuild (shape x)
    (fun idx =>
       let d := LayerNorm.normalized_shape ln in
       let row := removelast idx in
       let j := last idx 0 in
       let mu := (sum_over d (fun c => rget x (row ++ [c])) / INR d)%R in
       let var :=
         (sum_over d (fun c => (rget x (row ++ [c]) - mu) ^ 2) / INR d)%R in
       ((rget x idx - mu) / sqrt (var + LayerNorm.eps ln)
        * rget (LayerNorm.weight ln) [j] + rget (LayerNorm.bias ln) [j])%R).

(** A learned linear map applied to the last axis *)
Definition project (l : Linear.t) (x : rtensor) : rtensor :=
  let out_features := nth 0 (shape (Linear.weight l)) 0 in
  let in_features := nth 1 (shape (Linear.weight l)) 0 in
  tbuild (removelast (shape x) ++ [out_features])
    (fun idx =>
       (sum_over in_features
          (fun c => rget x (removelast idx ++ [c])
                    * rget (Linear.weight l) [last idx 0%nat; c])
        + rget (Linear.bias l) [last idx 0%nat])%R).

(** "mean-pool across the patch (sequence) axis to collapse [B,N,d_model]
    into [B,d_model]" *)
Definition mean_pool (x : rtensor) : rtensor :=
  let B := nth 0 (shape x) 0 in
  let N := nth 1 (shape x) 0 in
  let d := nth 2 (shape x) 0 in
  tbuild [B; d]
    (fun idx =>
       (sum_over N (fun n => rget x [nth 0 idx 0%nat; n; nth 1 idx 0%nat])
        / INR N)%R).

(** The two stages of an encoder layer, given the outputs of its
    attention and feed-forward blocks:
    "x = normalize(x + attention(x,x,x))" then
    "x = normalize(x + feedforward(x))". *)
Definition encoder_layer (layer : EncoderLayer.t) (x : rtensor) : result rtensor :=
  a <- MultiHeadAttention.forward (EncoderLayer.attention layer) x x x ;;
  let x1 := normalize (EncoderLayer.norm1 layer) (residual x a) in
  f <- PositionWiseFeedForward.forward (EncoderLayer.ffn layer) x1 ;;
  Ok (normalize (EncoderLayer.norm2 layer) (residual x1 f)).

(** "pass sequentially through num_layers EncoderLayer instances": the
    layers are taken from the first to the last, and each one receives
    what the one before it returned. *)
Definition layer_stack (layers : list EncoderLayer.t) (x : rtensor)
  : result rtensor :=
  fold_left (fun acc layer => z <- acc ;; encoder_layer layer z) layers (Ok x).

(** "linear patch embedding -> add positional encoding -> num_layers
    EncoderLayer instances -> final layer normalization -> mean-pool ->
    linear classification projection": the stages that follow patchify,
    as a function of the patches. *)
Definition forward (m : TransformerEncoder.t) (patches : rtensor)
  : result rtensor :=
  let e := project (TransformerEncoder.patch_embedding m) patches in
  let z := add_positions
             (PositionalEncoding.pe (TransformerEncoder.positional_encoding m)) e in
  z' <- layer_stack (TransformerEncoder.encoder_layers m) z ;;
  let n := normalize (TransformerEncoder.norm m) z' in
  Ok (project (TransformerEncoder.fc m) (mean_pool n)).

End Spec.

(** The values the constructor computes before it writes them into the
    table. *)
Definition position_column (max_len : nat) : rtensor :=
  unsqueeze (arange max_len 1) 1.

Definition div_term_of (d_model : nat) : rtensor :=
  tmap exp (tmap (fun v => v * (- ln 10000 / INR d_model))%R (arange d_model 2)).

Definition angles (d_model max_len : nat) : rtensor :=
  broadcast2_out Rmult [max_len; (d_model + 1) / 2]
    (position_column max_len) (div_term_of d_model).

Definition pe_table (d_model max_len : nat) : rtensor :=
  unsqueeze
    (setitem_cols_out
       (setitem_cols_out (zeros [max_len; d_model]) 0 2
          (expand_out (tmap sin (angles d_model max_len))
             [max_len; (d_model + 1) / 2]))
       1 2
       (expand_out (tmap cos (angles d_model max_len)) [max_len; d_model / 2]))
    0.

(** ** Well-shaped parameters

    What construction guarantees about the shapes of the parameters of a
    module; the [forward] theorems assume nothing else about them. *)

Definition linear_for (in_features out_features : nat) (l : Linear.t) : Prop :=
  shape (Linear.weight l) = [out_features; in_features] /\
  shape (Linear.bias l) = [out_features].

Definition norm_for (d : nat) (n : LayerNorm.t) : Prop :=
  LayerNorm.normalized_shape n = d.

Definition attention_for (d_model : nat) (a : MultiHeadAttention.t) : Prop :=
  MultiHeadAttention.num_heads a <> 0 /\
  MultiHeadAttention.num_heads a * MultiHeadAttention.d_k a = d_model /\
  linear_for d_model d_model (MultiHeadAttention.q_linear a) /\
  linear_for d_model d_model (MultiHeadAttention.k_linear a) /\
  linear_for d_model d_model (MultiHeadAttention.v_linear a) /\
  linear_for d_model d_model (MultiHeadAttention.out_proj a).

Definition ffn_for (d_model d_ff : nat) (f : PositionWiseFeedForward.t) : Prop :=
  linear_for d_model d_ff (PositionWiseFeedForward.fc1 f) /\
  linear_for d_ff d_model (PositionWiseFeedForward.fc2 f).

Definition layer_for (d_model d_ff : nat) (l : EncoderLayer.t) : Prop :=
  attention_for d_model (EncoderLayer.attention l) /\
  norm_for d_model (EncoderLayer.norm1 l) /\
  ffn_for d_model d_ff (EncoderLayer.ffn l) /\
  norm_for d_model (EncoderLayer.norm2 l).

(** A [nn.LayerNorm(d)] at any time after its construction: its learned
    scale and shift are any two tensors of shape [d], and [eps] is still
    the default. *)
Definition norm_state (d : nat) (n : LayerNorm.t) : Prop :=
  norm_for d n /\
  shape (LayerNorm.weight n) = [d] /\
  shape (LayerNorm.bias n) = [d] /\
  LayerNorm.eps n = (1 / 100000)%R.

(** An [EncoderLayer(d_model, num_heads, d_ff)] at any time after its
    construction: the learned parameters have the shapes construction gave
    them and any values. *)
Definition layer_state (d_model d_ff : nat) (l : EncoderLayer.t) : Prop :=
  layer_for d_model d_ff l /\
  norm_state d_model (EncoderLayer.norm1 l) /\
  norm_state d_model (EncoderLayer.norm2 l).

Definition encoder_for (img_size patch_size d_model d_ff num_classes : nat)
  (m : TransformerEncoder.t) : Prop :=
  TransformerEncoder.patch_size m = patch_size /\
  TransformerEncoder.num_patches m = (img_size / patch_size) ^ 2 /\
  TransformerEncoder.patch_dim m = 3 * patch_size * patch_size /\
  linear_for (3 * patch_size * patch_size) d_model
    (TransformerEncoder.patch_embedding m) /\
  TransformerEncoder.positional_encoding m
    = PositionalEncoding.Build (pe_table d_model ((img_size / patch_size) ^ 2)) /\
  Forall (layer_for d_model d_ff) (TransformerEncoder.encoder_layers m) /\
  norm_for d_model (TransformerEncoder.norm m) /\
  linear_for d_model num_classes (TransformerEncoder.fc m).

(** A [TransformerEncoder] at any time after its construction: the
    attributes and the positional table are the ones construction computed,
    and the learned parameters have the shapes construction gave them and
    any values. *)
Definition encoder_state
  (img_size patch_size d_model d_ff num_layers num_classes : nat)
  (m : TransformerEncoder.t) : Prop :=
  patch_size <> 0 /\
  encoder_for img_size patch_size d_model d_ff num_classes m /\
  PositionalEncoding.init d_model (TransformerEncoder.num_patches m)
    = Ok (TransformerEncoder.positional_encoding m) /\
  length (TransformerEncoder.encoder_layers m) = num_layers /\
  Forall (layer_state d_model d_ff) (TransformerEncoder.encoder_layers m) /\
  norm_state d_model (TransformerEncoder.norm m).

(** The tensor [images.unfold(2, p, p).unfold(3, p, p)]. *)
Definition unfolded {A} (d : A) (p : nat) (images : tensor A) : tensor A :=
  unfold_out d 3 p p (unfold_out d 2 p p images).

(** What broadcasting makes of a table with a single row: that row is
    added at every position of the input. *)
Definition add_single_row (pe x : rtensor) : rtensor :=
  tbuild (shape x)
    (fun idx => (rget x idx + rget pe [0%nat; 0%nat; nth 2 idx 0%nat])%R).

(** What [TransformerEncoder.forward] does with the result of [patchify]. *)
Definition after_patchify (m : TransformerEncoder.t) (patches : rtensor)
  : result rtensor :=
  x <- Linear.forward (TransformerEncoder.patch_embedding m) patches ;;
  x <- PositionalEncoding.forward (TransformerEncoder.positional_encoding m) x ;;
  x <- TransformerEncoder.run_layers (TransformerEncoder.encoder_layers m) x ;;
  x <- LayerNorm.forward (TransformerEncoder.norm m) x ;;
  x <- mean x 1 ;;
  Linear.forward (TransformerEncoder.fc m) x.

(** What [TransformerEncoder.forward] does once the positions are added,
    with the stages after the layers written entry by entry. *)
Definition after_positions (m : TransformerEncoder.t) (z : rtensor)
  : result rtensor :=
  z' <- TransformerEncoder.run_layers (TransformerEncoder.encoder_layers m) z ;;
  Ok (Spec.project (TransformerEncoder.fc m)
        (Spec.mean_pool (Spec.normalize (TransformerEncoder.norm m) z'))).

(** [TransformerEncoder.forward] with the stages between [patchify] and
    the layers, and the stages after the layers, written entry by entry. *)
Definition forward_steps (m : TransformerEncoder.t) (images : rtensor)
  : result rtensor :=
  patches <- TransformerEncoder.patchify m images ;;
  after_positions m
    (Spec.add_positions
       (PositionalEncoding.pe (TransformerEncoder.positional_encoding m))
       (Spec.project (TransformerEncoder.patch_embedding m) patches)).

(** A random source for the closed examples: every draw is 0. *)
Definition g0 : rng := fun _ => 0%R.

(** The same tensor with every element sent through [f]. *)
Definition emap {A B} (f : A -> B) (t : tensor A) : tensor B :=
  Tensor (shape t) (map f (data t)).

(** One image of 3 channels and 4 x 4 pixels; the pixel of channel [c],
    row [r] and column [w] is labelled [16 c + 4 r + w + 1]. *)
Definition image_4x4 : tensor nat := Tensor [1; 3; 4; 4] (seq 1 48).

(** What [patchify] returns on it with [patch_size = 2]. *)
Definition patches_of_code : tensor nat :=
  Tensor [1; 4; 12]
    [1; 2; 5; 6; 3; 4; 7; 8; 9; 10; 13; 14;
     11; 12; 15; 16; 17; 18; 21; 22; 19; 20; 23; 24;
     25; 26; 29; 30; 27; 28; 31; 32; 33; 34; 37; 38;
     35; 36; 39; 40; 41; 42; 45; 46; 43; 44; 47; 48].

(** Its four tiles, each flattened channel by channel. *)
Definition patches_of_spec : tensor nat :=
  Tensor [1; 4; 12]
    [1; 2; 5; 6; 17; 18; 21; 22; 33; 34; 37; 38;
     3; 4; 7; 8; 19; 20; 23; 24; 35; 36; 39; 40;
     9; 10; 13; 14; 25; 26; 29; 30; 41; 42; 45; 46;
     11; 12; 15; 16; 27; 28; 31; 32; 43; 44; 47; 48].

(** An attention module with 2 heads of width 2 and all parameters 0. *)
Definition linear_zero (in_features out_features : nat) : Linear.t :=
  Linear.Build (zeros [out_features; in_features]) (zeros [out_features]).

Definition attention_zero : MultiHeadAttention.t :=
  MultiHeadAttention.Build 2 2 (linear_zero 4 4) (linear_zero 4 4)
    (linear_zero 4 4) (linear_zero 4 4).

(** A layer normalization of width [d] whose learned scale is [scale] and
    whose learned shift is [shift] in every column. *)
Definition norm_example (d : nat) (scale shift : R) : LayerNorm.t :=
  LayerNorm.Build d (tbuild [d] (fun _ => scale)) (tbuild [d] (fun _ => shift))
    (1 / 100000)%R.

Definition ffn_zero : PositionWiseFeedForward.t :=
  PositionWiseFeedForward.Build (linear_zero 4 8) (linear_zero 8 4).

(** Two encoder layers of width 4 whose normalizations have learned
    parameters that differ from each other and from the initial ones. *)
Definition layer_example : EncoderLayer.t :=
  EncoderLayer.Build attention_zero (norm_example 4 2 1) ffn_zero
    (norm_example 4 3 (-1)).

Definition layer_example' : EncoderLayer.t :=
  EncoderLayer.Build attention_zero (norm_example 4 5 0) ffn_zero
    (norm_example 4 (1 / 2) 4).

(** An encoder for 4 x 4 images and patches of size 2, with these two
    layers. *)
Definition encoder_example : TransformerEncoder.t :=
  TransformerEncoder.Build 2 4 12 (linear_zero 12 4)
    (PositionalEncoding.Build (pe_table 4 4))
    [layer_example; layer_example'] (norm_example 4 2 3) (linear_zero 4 2).

(** A batch of one 5 x 5 image whose last row and last column hold 1 and
    whose other pixels are 0. *)
Definition framed_5x5 : rtensor :=
  tbuild [1; 3; 5; 5]
    (fun idx => if (nth 2 idx 0 =? 4) || (nth 3 idx 0 =? 4) then 1%R else 0%R).

(** The score of key [k] for query [q] in [scaled_dot_product_attention]:
    entry [q, k] of [Q K^T / sqrt(d_k)]. *)
Definition score (dk : nat) (Q K : rtensor) (b h q k : nat) : R :=
  (sum_over dk (fun c => rget Q [b; h; q; c] * rget K [b; h; k; c])
   / sqrt (INR dk))%R.

(** ** One element of a batch

    [same_item s B B' b b' t t']: the tensors [t] and [t'] are batches of
    [B] and [B'] items of shape [s], and item [b] of [t] has the entries
    of item [b'] of [t']. *)
Definition same_item (s : list nat) (B B' b b' : nat) (t t' : rtensor) : Prop :=
  shape t = B :: s /\ shape t' = B' :: s /\ b < B /\ b' < B' /\
  forall idx, in_bounds s idx = true -> rget t (b :: idx) = rget t' (b' :: idx).

(** The value of [linear(x).view(B, -1, num_heads, d_k).transpose(1, 2)]
    for a projection [y = linear(x)] of shape [B, L, d_model]. *)
Definition heads_of (self : MultiHeadAttention.t) (B L : nat) (y : rtensor)
  : rtensor :=
  transpose_out 0%R 1 2
    (Tensor [B; L; MultiHeadAttention.num_heads self; MultiHeadAttention.d_k self]
       (data y)).

(** The projection [linear(x)] of a [Linear] module. *)
Definition apply_linear (l : Linear.t) (x : rtensor) : rtensor :=
  linear_out x (Linear.weight l) (Linear.bias l).

(** A batch of two 4 x 4 images: the first one all 1, the second one all
    0. *)
Definition one_then_zero : rtensor :=
  tbuild [2; 3; 4; 4] (fun idx => if nth 0 idx 0 =? 0 then 1%R else 0%R).

(** ** The evaluation loop [validate]

    [validate(model, dataloader, criterion, device)] takes the model and
    the criterion as arguments; they are arguments here too: a model maps
    a batch of inputs to outputs or raises, a criterion maps outputs and
    labels to the number [loss.item()] or raises.  The data loader is the
    list of its batches, [len(dataloader)] their number.  A batch is the
    dict with the keys [pixel_values] and [label] that the loader yields.
    Labels are integer tensors.  [model.eval()], [torch.no_grad()] and
    [.to(device)] change no value that [validate] computes.  The function
    prints its two results; the embedding returns them, not rounded. *)

Inductive run_error : Type :=
| Raised (e : error)
    (* an error of the model, of the criterion, of torch or of Python *)
| EmptyReduction (dim : nat).
    (* torch argmax: the reduced dimension has size 0 *)

Inductive outcome (A : Type) : Type :=
| Done (a : A)
| Fail (e : run_error).

Arguments Done {A} a.
Arguments Fail {A} e.

Definition obind {A B} (m : outcome A) (f : A -> outcome B) : outcome B :=
  match m with
  | Done a => f a
  | Fail e => Fail e
  end.

Definition lift {A} (r : result A) : outcome A :=
  match r with
  | Ok a => Done a
  | Err e => Fail (Raised e)
  end.

Notation "x <<- m ;; k" := (obind m (fun x => k))
  (at level 61, m at next level, right associativity).

Record batch : Type := Batch {
  pixel_values : rtensor;
  label : tensor Z
}.

(** The first index at which [f] is largest among [best] and [cands]. *)
Definition argmax_from (f : nat -> R) (best : nat) (cands : list nat) : nat :=
  fold_left (fun bst c => if Rlt_dec (f bst) (f c) then c else bst) cands best.

Definition argmax_of (n : nat) (f : nat -> R) : nat :=
  argmax_from f 0 (seq 1 (n - 1)).

(** [x.argmax(dim)] *)
Definition argmax_out (k : nat) (x : rtensor) : tensor Z :=
  tbuild (firstn k (shape x) ++ skipn (S k) (shape x))
    (fun idx =>
       Z.of_nat (argmax_of (nth k (shape x) 0)
                   (fun c => rget x (firstn k idx ++ c :: skipn k idx)))).

Definition argmax (x : rtensor) (dim : Z) : outcome (tensor Z) :=
  k <<- lift (wrap_dim (rank x) dim) ;;
  if nth k (shape x) 0 =? 0 then Fail (EmptyReduction k)
  else Done (argmax_out k x).

(** [(a == l).sum().item()]: the number of equal entries after
    broadcasting. *)
Definition count_equal (a l : tensor Z) : result nat :=
  s <- broadcast_shapes (shape a) (shape l) ;;
  Ok (length (filter (fun idx => Z.eqb (tget 0%Z a (bcast_index (shape a) idx))
                                       (tget 0%Z l (bcast_index (shape l) idx)))
                (indices s))).

Record totals : Type := Totals {
  total_loss : R;
  total_correct : nat;
  total_samples : nat
}.

Section Validate.
Variable model : rtensor -> result rtensor.
Variable criterion : rtensor -> tensor Z -> result R.

(** The body of the loop. *)
Definition validate_batch (acc : totals) (b : batch) : outcome totals :=
  let inputs := pixel_values b in
  let labels := label b in
  outputs <<- lift (model inputs) ;;
  loss <<- lift (criterion outputs labels) ;;
  predicted <<- argmax outputs 1 ;;
  hits <<- lift (count_equal predicted labels) ;;
  n <<- lift (size labels 0) ;;
  Done (Totals (total_loss acc + loss) (total_correct acc + hits)
          (total_samples acc + n)).

Fixpoint validate_loop (dataloader : list batch) (acc : totals)
  : outcome totals :=
  match dataloader with
  | [] => Done acc
  | b :: rest => acc' <<- validate_batch acc b ;; validate_loop rest acc'
  end.

(** The average loss and the accuracy that [validate] prints. *)
Definition validate (dataloader : list batch) : outcome (R * R) :=
  t <<- validate_loop dataloader (Totals 0 0 0) ;;
  if length dataloader =? 0 then Fail (Raised ZeroDivisionError)
  else
    let avg_loss := (total_loss t / INR (length dataloader))%R in
    if total_samples t =? 0 then Fail (Raised ZeroDivisionError)
    else
      let accuracy :=
        (100 * INR (total_correct t) / INR (total_samples t))%R in
      Done (avg_loss, accuracy).

End Validate.

(** ** Multi-head attention in closed form

    The entries of the result of [MultiHeadAttention.forward] for one
    element of the batch, as a function of the entries of the queries,
    keys and values of that element: [rq l c] is entry [c] of the query at
    position [l], and likewise [rk] and [rv] for the [L'] keys and
    values. *)
Section AttentionEntry.
Variables (self : MultiHeadAttention.t) (L' : nat).
Variables (rq rk rv : nat -> nat -> R).

(** Entry [e] of [linear(x)] at position [l]. *)
Definition projected (lin : Linear.t) (r : nat -> nat -> R) (l e : nat) : R :=
  (sum_over (MultiHeadAttention.num_heads self * MultiHeadAttention.d_k self)
     (fun c => r l c * rget (Linear.weight lin) [e; c])
   + rget (Linear.bias lin) [e])%R.

(** Head [h] reads the entries [h * d_k, ..., h * d_k + d_k - 1] of the
    projections. *)
Definition head_score (h l k : nat) : R :=
  (sum_over (MultiHeadAttention.d_k self)
     (fun e =>
        projected (MultiHeadAttention.q_linear self) rq l
          (h * MultiHeadAttention.d_k self + e)
        * projected (MultiHeadAttention.k_linear self) rk k
            (h * MultiHeadAttention.d_k self + e))
   / sqrt (INR (MultiHeadAttention.d_k self)))%R.

Definition head_weight (h l k : nat) : R :=
  (exp (head_score h l k) / sum_over L' (fun c => exp (head_score h l c)))%R.

Definition head_output (h l j : nat) : R :=
  sum_over L'
    (fun k => head_weight h l k
              * projected (MultiHeadAttention.v_linear self) rv k
                  (h * MultiHeadAttention.d_k self + j))%R.

(** The heads side by side, then the output projection. *)
Definition attention_entry (l j : nat) : R :=
  (sum_over (MultiHeadAttention.num_heads self * MultiHeadAttention.d_k self)
     (fun e => head_output (e / MultiHeadAttention.d_k self) l
                 (e mod MultiHeadAttention.d_k self)
               * rget (Linear.weight (MultiHeadAttention.out_proj self)) [j; e])
   + rget (Linear.bias (MultiHeadAttention.out_proj self)) [j])%R.

End AttentionEntry.

(** ** Rearranging the positions of a sequence *)

(** [sigma] rearranges the positions [0, ..., L - 1]. *)
Definition permutation_of (L : nat) (sigma : nat -> nat) : Prop :=
  Permutation (map sigma (seq 0 L)) (seq 0 L).

(** The tensor [x] of shape [B, L, d] with position [sigma l] of [x] at
    position [l]. *)
Definition permute_positions (sigma : nat -> nat) (x : rtensor) : rtensor :=
  tbuild (shape x) (fun idx => rget x (set_at 1 (sigma (nth 1 idx 0)) idx)).

(** * Theorems *)

Arguments tbuild : simpl never.
Arguments tget : simpl never.

(** ** The layout lemmas *)

Lemma flat_map_seq_blocks (m n a : nat) :
  flat_map (fun i => seq (i * m) m) (seq a n) = seq (a * m) (n * m).
Proof.
  revert a; induction n as [|n IH]; intros a; simpl; [reflexivity|].
  rewrite IH.
  replace (S a * m) with (a * m + m) by lia.
  now rewrite <- seq_app.
Qed.

Lemma length_flat_map_cons (L : list (list nat)) (l : list nat) :
  length (flat_map (fun i => map (cons i) L) l) = length l * length L.
Proof.
  induction l as [|x l IHl]; simpl; [reflexivity|].
  now rewrite length_app, length_map, IHl.
Qed.

Lemma indices_length (s : list nat) : length (indices s) = numel s.
Proof.
  induction s as [|n s IH]; simpl; [reflexivity|].
  now rewrite length_flat_map_cons, length_seq, IH.
Qed.

Lemma map_add_seq (a b m : nat) :
  map (fun k => a + k) (seq b m) = seq (a + b) m.
Proof.
  revert b; induction m as [|m IH]; intros b; simpl; [reflexivity|].
  f_equal. rewrite IH. f_equal. lia.
Qed.

Lemma map_offset_indices (s : list nat) :
  map (offset s) (indices s) = seq 0 (numel s).
Proof.
  induction s as [|n s IH]; simpl; [reflexivity|].
  rewrite flat_map_concat_map, concat_map, map_map.
  rewrite <- flat_map_concat_map.
  erewrite flat_map_ext.
  - apply (flat_map_seq_blocks (numel s) n 0).
  - intros i. rewrite map_map. simpl.
    rewrite <- (map_map (offset s) (fun k => i * numel s + k)), IH.
    rewrite map_add_seq. f_equal. lia.
Qed.

Lemma in_indices (s idx : list nat) :
  In idx (indices s) <-> in_bounds s idx = true.
Proof.
  revert idx; induction s as [|n s IH]; intros idx; simpl.
  - destruct idx; split; intros H; try reflexivity; try discriminate; auto.
    destruct H as [H|[]]; discriminate.
  - rewrite in_flat_map. split.
    + intros (i & Hi & Hin). apply in_map_iff in Hin as (idx' & <- & Hin).
      apply in_seq in Hi. apply IH in Hin. rewrite Hin, andb_true_r.
      apply Nat.ltb_lt. lia.
    + destruct idx as [|i idx']; [discriminate|].
      intros H. apply andb_true_iff in H as [Hi Hb].
      apply Nat.ltb_lt in Hi. exists i. split.
      * apply in_seq. lia.
      * apply in_map, IH, Hb.
Qed.

Lemma offset_position (s idx : list nat) :
  in_bounds s idx = true ->
  exists k, k < numel s /\ nth k (indices s) [] = idx /\ offset s idx = k.
Proof.
  intros H. apply in_indices in H.
  destruct (In_nth _ _ [] H) as (k & Hk & Hnth).
  rewrite indices_length in Hk.
  exists k. repeat split; auto.
  rewrite <- Hnth.
  rewrite <- (map_nth (offset s) (indices s) []).
  rewrite map_offset_indices.
  replace (offset s []) with 0 by (destruct s; reflexivity).
  now rewrite seq_nth.
Qed.

Lemma offset_lt (s idx : list nat) :
  in_bounds s idx = true -> offset s idx < numel s.
Proof.
  intros H. destruct (offset_position s idx H) as (k & Hk & _ & ->). exact Hk.
Qed.

Lemma tget_tbuild {A} (d : A) (s : list nat) (f : list nat -> A) (idx : list nat) :
  in_bounds s idx = true -> tget d (tbuild s f) idx = f idx.
Proof.
  intros H. unfold tget, tbuild. simpl.
  destruct (offset_position s idx H) as (k & Hk & Hnth & ->).
  rewrite (nth_indep _ d (f [])) by (rewrite length_map, indices_length; exact Hk).
  rewrite map_nth. now rewrite Hnth.
Qed.

Lemma tbuild_ext {A} (s : list nat) (f g : list nat -> A) :
  (forall idx, in_bounds s idx = true -> f idx = g idx) ->
  tbuild s f = tbuild s g.
Proof.
  intros H. unfold tbuild. f_equal.
  apply map_ext_in. intros idx Hin. apply H, in_indices, Hin.
Qed.

Lemma tbuild_tget {A} (d : A) (t : tensor A) :
  wf t -> tbuild (shape t) (tget d t) = t.
Proof.
  destruct t as [s l]. unfold wf, tbuild, tget. simpl. intros Hwf.
  f_equal.
  rewrite <- (map_map (offset s) (fun k => nth k l d)), map_offset_indices.
  rewrite <- Hwf. clear Hwf.
  induction l as [|x l IH]; simpl; [reflexivity|].
  f_equal. rewrite <- seq_shift, map_map. exact IH.
Qed.

Lemma wf_tbuild {A} (s : list nat) (f : list nat -> A) : wf (tbuild s f).
Proof. unfold wf, tbuild. simpl. now rewrite length_map, indices_length. Qed.

Lemma shape_tbuild {A} (s : list nat) (f : list nat -> A) :
  shape (tbuild s f) = s.
Proof. reflexivity. Qed.

(** ** Sums of reals *)

Lemma Rsum_map_scale (f : nat -> R) (c : R) (l : list nat) :
  Rsum (map (fun k => f k * c)%R l) = (Rsum (map f l) * c)%R.
Proof.
  induction l as [|x l IH]; simpl; [lra|]. rewrite IH. lra.
Qed.

Lemma Rsum_map_nonneg (f : nat -> R) (l : list nat) :
  (forall k, In k l -> (0 <= f k)%R) -> (0 <= Rsum (map f l))%R.
Proof.
  induction l as [|x l IH]; simpl; intros H; [lra|].
  assert (0 <= f x)%R by (apply H; now left).
  assert (0 <= Rsum (map f l))%R by (apply IH; intros; apply H; now right).
  lra.
Qed.

Lemma Rsum_map_term_le (f : nat -> R) (l : list nat) (k : nat) :
  (forall j, In j l -> (0 <= f j)%R) -> In k l -> (f k <= Rsum (map f l))%R.
Proof.
  induction l as [|x l IH]; simpl; intros H Hin; [contradiction|].
  assert (0 <= f x)%R by (apply H; now left).
  assert (0 <= Rsum (map f l))%R
    by (apply Rsum_map_nonneg; intros; apply H; now right).
  destruct Hin as [->|Hin].
  - lra.
  - assert (f k <= Rsum (map f l))%R by (apply IH; auto). lra.
Qed.

Lemma sum_over_exp_pos (n : nat) (f : nat -> R) :
  0 < n -> (0 < sum_over n (fun c => exp (f c)))%R.
Proof.
  intros Hn. unfold sum_over.
  assert (Hin : In 0 (seq 0 n)) by (apply in_seq; lia).
  pose proof (Rsum_map_term_le (fun c => exp (f c)) (seq 0 n) 0
                (fun j _ => Rlt_le _ _ (exp_pos (f j))) Hin) as Hle.
  pose proof (exp_pos (f 0)). simpl in Hle. lra.
Qed.

(** The two facts that make a softmax row a probability vector. *)
Lemma softmax_row_sum (n : nat) (f : nat -> R) :
  0 < n ->
  sum_over n (fun k => exp (f k) / sum_over n (fun c => exp (f c)))%R = 1%R.
Proof.
  intros Hn. pose proof (sum_over_exp_pos f Hn) as Hpos.
  unfold sum_over in *. unfold Rdiv.
  rewrite (Rsum_map_scale (fun k => exp (f k))).
  field. lra.
Qed.

Lemma softmax_entry_bounds (n : nat) (f : nat -> R) (k : nat) :
  k < n ->
  (0 <= exp (f k) / sum_over n (fun c => exp (f c)) <= 1)%R.
Proof.
  intros Hk. assert (Hn : 0 < n) by lia.
  pose proof (sum_over_exp_pos f Hn) as Hpos.
  pose proof (exp_pos (f k)) as Hk0.
  assert (Hle : (exp (f k) <= sum_over n (fun c => exp (f c)))%R).
  { unfold sum_over.
    apply (Rsum_map_term_le (fun c => exp (f c))).
    - intros j _. left. apply exp_pos.
    - apply in_seq. lia. }
  split.
  - apply Rlt_le, Rdiv_lt_0_compat; assumption.
  - apply (Rmult_le_reg_r (sum_over n (fun c => exp (f c)))); [assumption|].
    unfold Rdiv. rewrite Rmult_assoc, Rinv_l by lra. lra.
Qed.

(** ** Shapes *)

Lemma broadcast_rev_same (r : list nat) : broadcast_rev r r = Ok r.
Proof.
  induction r as [|a r IH]; simpl; [reflexivity|].
  now rewrite Nat.eqb_refl, IH.
Qed.

Lemma broadcast_shapes_same (s : list nat) : broadcast_shapes s s = Ok s.
Proof.
  unfold broadcast_shapes. rewrite broadcast_rev_same. simpl.
  now rewrite rev_involutive.
Qed.

Section ShapeOf.
Context {A : Type} (d : A).

Lemma shape_transpose_out (i j : nat) (t : tensor A) :
  shape (transpose_out d i j t) = swap_at i j (shape t).
Proof. reflexivity. Qed.

Lemma shape_unfold_out (k sz step : nat) (t : tensor A) :
  shape (unfold_out d k sz step t)
  = set_at k ((nth k (shape t) 0 - sz) / step + 1) (shape t) ++ [sz].
Proof. reflexivity. Qed.

Lemma shape_contiguous (t : tensor A) : shape (contiguous t) = shape t.
Proof. reflexivity. Qed.

Lemma shape_Tensor (s : list nat) (l : list A) : shape (Tensor s l) = s.
Proof. reflexivity. Qed.

Lemma shape_unsqueeze (t : tensor A) (k : nat) :
  shape (unsqueeze t k) = firstn k (shape t) ++ 1 :: skipn k (shape t).
Proof. reflexivity. Qed.
End ShapeOf.

Lemma shape_tmap (f : R -> R) (t : rtensor) : shape (tmap f t) = shape t.
Proof. reflexivity. Qed.

Lemma shape_relu (t : rtensor) : shape (relu t) = shape t.
Proof. reflexivity. Qed.

Lemma shape_zeros (s : list nat) : shape (zeros s) = s.
Proof. reflexivity. Qed.

Lemma shape_ones (s : list nat) : shape (ones s) = s.
Proof. reflexivity. Qed.

Lemma shape_arange (stop step : nat) :
  shape (arange stop step) = [(stop + step - 1) / step].
Proof. reflexivity. Qed.

Lemma shape_broadcast2_out (op : R -> R -> R) (s : list nat) (x y : rtensor) :
  shape (broadcast2_out op s x y) = s.
Proof. reflexivity. Qed.

Lemma shape_expand_out (src : rtensor) (target : list nat) :
  shape (expand_out src target) = target.
Proof. reflexivity. Qed.

Lemma shape_setitem_cols_out (t : rtensor) (start step : nat) (src : rtensor) :
  shape (setitem_cols_out t start step src) = shape t.
Proof. reflexivity. Qed.

Lemma shape_slice_upto (t : rtensor) (k stop : nat) :
  shape (slice_upto t k stop)
  = set_at k (Nat.min stop (nth k (shape t) 0)) (shape t).
Proof. reflexivity. Qed.

Lemma shape_linear_out (x W b : rtensor) :
  shape (linear_out x W b) = removelast (shape x) ++ [nth 0 (shape W) 0].
Proof. reflexivity. Qed.

Lemma shape_layer_norm_out (x : rtensor) (d : nat) (gamma beta : rtensor) (eps : R) :
  shape (layer_norm_out x d gamma beta eps) = shape x.
Proof. reflexivity. Qed.

Lemma shape_softmax_out (k : nat) (x : rtensor) :
  shape (softmax_out k x) = shape x.
Proof. reflexivity. Qed.

Lemma shape_matmul_out (bs : list nat) (a b : rtensor) :
  shape (matmul_out bs a b)
  = bs ++ [nth (rank a - 2) (shape a) 0; last (shape b) 0].
Proof. reflexivity. Qed.

Lemma shape_mean_out (k : nat) (x : rtensor) :
  shape (mean_out k x) = firstn k (shape x) ++ skipn (S k) (shape x).
Proof. reflexivity. Qed.

Create Rewrite HintDb shp.

#[export] Hint Rewrite
  @shape_tbuild @shape_transpose_out @shape_unfold_out @shape_contiguous
  @shape_Tensor @shape_unsqueeze
  shape_tmap shape_relu shape_zeros shape_ones shape_arange
  shape_broadcast2_out shape_expand_out shape_setitem_cols_out
  shape_slice_upto shape_linear_out shape_layer_norm_out shape_softmax_out
  shape_matmul_out shape_mean_out : shp.

(** Rewrites every [shape] of the goal to an explicit list. *)
Ltac shapes :=
  repeat first
    [ progress autorewrite with shp
    | progress unfold rank
    | match goal with
      | H : shape ?t = _ |- context [shape ?t] => rewrite H
      end ];
  cbn [length swap_at set_at map seq nth Nat.eqb app removelast last
       firstn skipn batch_dims Nat.sub rev].

Lemma wrap_dim_nonneg (r k : nat) :
  k < r -> wrap_dim r (Z.of_nat k) = Ok k.
Proof.
  intros H. unfold wrap_dim.
  replace ((0 <=? Z.of_nat k)%Z && (Z.of_nat k <? Z.of_nat r)%Z) with true.
  - now rewrite Nat2Z.id.
  - symmetry. apply andb_true_iff. split; [apply Z.leb_le | apply Z.ltb_lt]; lia.
Qed.

Lemma wrap_dim_neg (r k : nat) :
  0 < k <= r -> wrap_dim r (- Z.of_nat k) = Ok (r - k).
Proof.
  intros H. unfold wrap_dim.
  replace ((0 <=? - Z.of_nat k)%Z && (- Z.of_nat k <? Z.of_nat r)%Z) with false.
  - replace ((- Z.of_nat r <=? - Z.of_nat k)%Z && (- Z.of_nat k <? 0)%Z) with true.
    + f_equal. lia.
    + symmetry. apply andb_true_iff. split; [apply Z.leb_le | apply Z.ltb_lt]; lia.
  - symmetry. apply andb_false_iff. left. apply Z.leb_gt. lia.
Qed.

Lemma wrap_dim_bad (r k : nat) :
  r <= k -> wrap_dim r (Z.of_nat k) = Err (DimOutOfRange r k).
Proof.
  intros H. unfold wrap_dim.
  replace ((0 <=? Z.of_nat k)%Z && (Z.of_nat k <? Z.of_nat r)%Z) with false.
  - replace ((- Z.of_nat r <=? Z.of_nat k)%Z && (Z.of_nat k <? 0)%Z) with false.
    + now rewrite Zabs2Nat.id.
    + symmetry. apply andb_false_iff. right. apply Z.ltb_ge. lia.
  - symmetry. apply andb_false_iff. right. apply Z.ltb_ge. lia.
Qed.

(** *** Each operation under its shape condition *)

Lemma size_ok {A} (t : tensor A) (k : nat) :
  k < rank t -> size t (Z.of_nat k) = Ok (nth k (shape t) 0).
Proof. intros H. unfold size. now rewrite wrap_dim_nonneg. Qed.

Lemma size_at0 {A} (t : tensor A) :
  0 < rank t -> size t 0 = Ok (nth 0 (shape t) 0).
Proof. apply (@size_ok _ t 0). Qed.

Lemma size_at1 {A} (t : tensor A) :
  1 < rank t -> size t 1 = Ok (nth 1 (shape t) 0).
Proof. apply (@size_ok _ t 1). Qed.

Lemma transpose_ok {A} (d : A) (t : tensor A) (d0 d1 : Z) (i j : nat) :
  wrap_dim (rank t) d0 = Ok i -> wrap_dim (rank t) d1 = Ok j ->
  transpose d t d0 d1 = Ok (transpose_out d i j t).
Proof. intros H0 H1. unfold transpose. now rewrite H0, H1. Qed.

Lemma unfold_ok {A} (d : A) (t : tensor A) (k sz : nat) :
  k < rank t -> 0 < sz <= nth k (shape t) 0 ->
  unfold d t (Z.of_nat k) sz sz = Ok (unfold_out d k sz sz t).
Proof.
  intros Hk Hsz. unfold unfold. rewrite wrap_dim_nonneg by exact Hk. simpl.
  replace (sz =? 0) with false by (symmetry; apply Nat.eqb_neq; lia).
  replace (nth k (shape t) 0 <? sz) with false
    by (symmetry; apply Nat.ltb_ge; lia).
  reflexivity.
Qed.

Lemma unfold_at2 {A} (d : A) (t : tensor A) (sz : nat) :
  2 < rank t -> 0 < sz <= nth 2 (shape t) 0 ->
  unfold d t 2 sz sz = Ok (unfold_out d 2 sz sz t).
Proof. apply (@unfold_ok _ d t 2). Qed.

Lemma unfold_at3 {A} (d : A) (t : tensor A) (sz : nat) :
  3 < rank t -> 0 < sz <= nth 3 (shape t) 0 ->
  unfold d t 3 sz sz = Ok (unfold_out d 3 sz sz t).
Proof. apply (@unfold_ok _ d t 3). Qed.

Lemma view_shape_infer (n v : nat) (spec : list (option nat)) :
  count_inferred spec = 1 -> known_size spec <> 0 ->
  n = v * known_size spec ->
  view_shape n spec = Ok (fill v spec).
Proof.
  intros Hc Hk Hn. unfold view_shape. rewrite Hc.
  destruct (Nat.eqb_spec n (known_size spec)) as [E|E].
  - destruct (Nat.eqb_spec (known_size spec) 0) as [E0|_]; [contradiction|].
    now rewrite Hn, Nat.div_mul.
  - replace (0 <? known_size spec) with true
      by (symmetry; apply Nat.ltb_lt; lia).
    rewrite Hn, Nat.Div0.mod_mul, Nat.div_mul by exact Hk.
    reflexivity.
Qed.

Lemma view_ok {A} (t : tensor A) (v : nat) (spec : list (option nat)) :
  count_inferred spec = 1 -> known_size spec <> 0 ->
  numel (shape t) = v * known_size spec ->
  view t spec = Ok (Tensor (fill v spec) (data t)).
Proof.
  intros Hc Hk Hn. unfold view. now rewrite (@view_shape_infer _ v spec Hc Hk Hn).
Qed.

Lemma linear_ok (x W b : rtensor) :
  rank x <> 0 -> last (shape x) 0 = nth 1 (shape W) 0 ->
  linear x W b = Ok (linear_out x W b).
Proof.
  intros Hr Hk. unfold linear.
  destruct (Nat.eqb_spec (rank x) 0); [contradiction|].
  now rewrite Hk, Nat.eqb_refl.
Qed.

Lemma layer_norm_ok (x : rtensor) (d : nat) (gamma beta : rtensor) (eps : R) :
  rank x <> 0 -> last (shape x) 0 = d ->
  layer_norm x d gamma beta eps = Ok (layer_norm_out x d gamma beta eps).
Proof.
  intros Hr Hk. unfold layer_norm.
  destruct (Nat.eqb_spec (rank x) 0); [contradiction|].
  now rewrite Hk, Nat.eqb_refl.
Qed.

Lemma softmax_ok (x : rtensor) (dim : Z) (k : nat) :
  wrap_dim (rank x) dim = Ok k -> softmax x dim = Ok (softmax_out k x).
Proof. intros H. unfold softmax. now rewrite H. Qed.

Lemma mean_ok (x : rtensor) (dim : Z) (k : nat) :
  wrap_dim (rank x) dim = Ok k -> mean x dim = Ok (mean_out k x).
Proof. intros H. unfold mean. now rewrite H. Qed.

Lemma matmul_ok (a b : rtensor) (bs : list nat) :
  2 <= rank a -> 2 <= rank b ->
  last (shape a) 0 = nth (rank b - 2) (shape b) 0 ->
  broadcast_shapes (batch_dims (shape a)) (batch_dims (shape b)) = Ok bs ->
  matmul a b = Ok (matmul_out bs a b).
Proof.
  intros Ha Hb Hm Hbs. unfold matmul.
  replace (rank a <? 2) with false by (symmetry; apply Nat.ltb_ge; lia).
  replace (rank b <? 2) with false by (symmetry; apply Nat.ltb_ge; lia).
  simpl. now rewrite Hm, Nat.eqb_refl, Hbs.
Qed.

Lemma add_same_shape (x y : rtensor) :
  shape y = shape x -> add x y = Ok (broadcast2_out Rplus (shape x) x y).
Proof.
  intros H. unfold add, broadcast2. now rewrite H, broadcast_shapes_same.
Qed.

Lemma attention_weights_ok
  (self : MultiHeadAttention.t) (Q K : rtensor) (B H L : nat) :
  shape Q = [B; H; L; MultiHeadAttention.d_k self] ->
  shape K = [B; H; L; MultiHeadAttention.d_k self] ->
  exists w,
    MultiHeadAttention.attention_weights self Q K = Ok w /\
    shape w = [B; H; L; L] /\
    forall b h q, b < B -> h < H -> q < L ->
      sum_over L (fun k => rget w [b; h; q; k]) = 1%R /\
      forall k, k < L -> (0 <= rget w [b; h; q; k] <= 1)%R.
Proof.
  intros HQ HK.
  unfold MultiHeadAttention.attention_weights.
  rewrite (@transpose_ok _ 0%R K (-2) (-1) 2 3) by (shapes; reflexivity).
  cbn [bind].
  rewrite (@matmul_ok Q _ [B; H]).
  2,3: shapes; lia.
  2: shapes; reflexivity.
  2: shapes; apply broadcast_shapes_same.
  cbn [bind].
  rewrite (@softmax_ok _ (-1) 3) by (shapes; reflexivity).
  eexists. split; [reflexivity|].
  set (scores := tmap _ _).
  assert (Hsc : shape scores = [B; H; L; L]) by (subst scores; shapes; reflexivity).
  split; [shapes; reflexivity|].
  intros b h q Hb Hh Hq.
  assert (Hget : forall k, k < L ->
            rget (softmax_out 3 scores) [b; h; q; k]
            = (exp (rget scores [b; h; q; k])
               / sum_over L (fun c => exp (rget scores [b; h; q; c])))%R).
  { intros k Hk. unfold rget at 1, softmax_out.
    rewrite tget_tbuild.
    - rewrite Hsc. reflexivity.
    - rewrite Hsc. simpl.
      repeat (match goal with |- context [?a <? ?b] =>
                replace (a <? b) with true by (symmetry; apply Nat.ltb_lt; lia) end).
      reflexivity. }
  split.
  - unfold sum_over at 1.
    erewrite map_ext_in.
    2: { intros k Hk. apply in_seq in Hk. apply Hget. lia. }
    apply (softmax_row_sum (fun k => rget scores [b; h; q; k])). lia.
  - intros k Hk. rewrite (Hget k Hk).
    apply (softmax_entry_bounds (fun k => rget scores [b; h; q; k]) Hk).
Qed.

(** C4: for a positive [d_k] and queries and keys of shape [B, H, L, d_k],
    the attention weights are computed, have shape [B, H, L, L], and for
    every batch element, head and query position the weights over the keys
    sum to 1 and each of them lies between 0 and 1.  ([d_k] is positive in
    every call [MultiHeadAttention.forward] makes; with [d_k = 0] the
    source divides the scores by 0.0.) *)
Theorem C4_attention_weights_row_stochastic
  (self : MultiHeadAttention.t) (Q K V : rtensor) (B H L : nat) :
  0 < MultiHeadAttention.d_k self ->
  shape Q = [B; H; L; MultiHeadAttention.d_k self] ->
  shape K = [B; H; L; MultiHeadAttention.d_k self] ->
  shape V = [B; H; L; MultiHeadAttention.d_k self] ->
  exists w,
    MultiHeadAttention.attention_weights self Q K = Ok w /\
    MultiHeadAttention.scaled_dot_product_attention self Q K V = matmul w V /\
    shape w = [B; H; L; L] /\
    forall b h q, b < B -> h < H -> q < L ->
      sum_over L (fun k => rget w [b; h; q; k]) = 1%R /\
      forall k, k < L -> (0 <= rget w [b; h; q; k] <= 1)%R.
Proof.
  intros _ HQ HK _.
  destruct (@attention_weights_ok self Q K B H L HQ HK) as (w & Hw & Hs & Hrows).
  exists w. repeat split; try assumption; try apply (Hrows b h q); auto.
  unfold MultiHeadAttention.scaled_dot_product_attention. now rewrite Hw.
Qed.

(** ** Reading elements *)

Lemma in_bounds_cons (n i : nat) (s idx : list nat) :
  in_bounds (n :: s) (i :: idx) = true <-> i < n /\ in_bounds s idx = true.
Proof.
  simpl. rewrite andb_true_iff, Nat.ltb_lt. reflexivity.
Qed.

(** Solves [in_bounds s idx = true] for explicit lists from the bounds in
    the context. *)
Ltac bounds :=
  repeat (apply in_bounds_cons; split; [lia|]); reflexivity.

Lemma rget_tbuild (s : list nat) (f : list nat -> R) (idx : list nat) :
  in_bounds s idx = true -> rget (tbuild s f) idx = f idx.
Proof. apply tget_tbuild. Qed.

Lemma wf_tmap (f : R -> R) (t : rtensor) : wf t -> wf (tmap f t).
Proof. unfold wf, tmap. simpl. now rewrite length_map. Qed.

Lemma rget_tmap (f : R -> R) (t : rtensor) (idx : list nat) :
  wf t -> in_bounds (shape t) idx = true ->
  rget (tmap f t) idx = f (rget t idx).
Proof.
  intros Hwf Hb. unfold rget, tget, tmap. simpl.
  pose proof (offset_lt _ _ Hb) as Hlt. rewrite <- Hwf in Hlt.
  rewrite (nth_indep _ 0%R (f 0%R)) by (now rewrite length_map).
  apply map_nth.
Qed.

Lemma rget_unsqueeze0 (t : rtensor) (idx : list nat) :
  rget (unsqueeze t 0) (0 :: idx) = rget t idx.
Proof. reflexivity. Qed.

Lemma coord_of_bcast (n p : nat) :
  p < n -> (if n =? 1 then 0 else p) = p.
Proof. intros H. destruct (Nat.eqb_spec n 1); lia. Qed.

(** ** PositionalEncoding *)

Lemma arange_len_1 (n : nat) : (n + 1 - 1) / 1 = n.
Proof. rewrite Nat.div_1_r. lia. Qed.

Lemma arange_len_2 (d : nat) : (d + 2 - 1) / 2 = (d + 1) / 2.
Proof. f_equal. lia. Qed.

Lemma selected_cols_even (d : nat) : selected_cols d 0 2 = (d + 1) / 2.
Proof. unfold selected_cols. f_equal. lia. Qed.

Lemma selected_cols_odd (d : nat) : d <> 0 -> selected_cols d 1 2 = d / 2.
Proof. intros H. unfold selected_cols. f_equal. lia. Qed.

Lemma broadcast_column_row (n h : nat) :
  broadcast_shapes [n; 1] [h] = Ok [n; h].
Proof.
  unfold broadcast_shapes. destruct h as [|[|h]]; reflexivity.
Qed.

Lemma expand_rev_same (r : list nat) : expand_rev r r = Ok tt.
Proof.
  induction r as [|a r IH]; simpl; [reflexivity|].
  now rewrite Nat.eqb_refl.
Qed.

Lemma shape_position_column (n : nat) : shape (position_column n) = [n; 1].
Proof. unfold position_column. shapes. now rewrite arange_len_1. Qed.

Lemma shape_div_term_of (d : nat) : shape (div_term_of d) = [(d + 1) / 2].
Proof. unfold div_term_of. shapes. now rewrite arange_len_2. Qed.

Lemma mul_position_div_term (d n : nat) :
  mul (position_column n) (div_term_of d) = Ok (angles d n).
Proof.
  unfold mul, broadcast2.
  rewrite shape_position_column, shape_div_term_of, broadcast_column_row.
  reflexivity.
Qed.

Lemma posenc_init_unfold (d n : nat) :
  d <> 0 ->
  PositionalEncoding.init d n
  = (_ <- expand_rev [(d + 1) / 2; n] [d / 2; n] ;;
     Ok (PositionalEncoding.Build (pe_table d n))).
Proof.
  intros Hd. unfold PositionalEncoding.init.
  destruct (Nat.eqb_spec d 0) as [|_]; [contradiction|].
  cbn [bind].
  fold (position_column n). fold (div_term_of d).
  rewrite mul_position_div_term. cbn [bind].
  unfold setitem_cols at 1.
  rewrite shape_zeros. cbn [nth].
  rewrite selected_cols_even.
  unfold expand at 1. rewrite shape_tmap.
  unfold angles at 1. rewrite shape_broadcast2_out.
  rewrite expand_rev_same. cbn [bind].
  unfold setitem_cols. rewrite shape_setitem_cols_out, shape_zeros. cbn [nth].
  rewrite selected_cols_odd by exact Hd.
  unfold expand. rewrite shape_tmap.
  unfold angles at 1. rewrite shape_broadcast2_out.
  cbn [rev app].
  destruct (expand_rev [(d + 1) / 2; n] [d / 2; n]); reflexivity.
Qed.

Lemma half_even (d : nat) : Nat.even d = true -> (d + 1) / 2 = d / 2.
Proof.
  intros H. apply Nat.even_spec in H as [k ->].
  rewrite (Nat.mul_comm 2 k), Nat.div_mul by lia.
  replace (k * 2 + 1) with (1 + k * 2) by lia.
  rewrite Nat.div_add by lia. reflexivity.
Qed.

Lemma half_odd (d : nat) : Nat.odd d = true -> (d + 1) / 2 = S (d / 2).
Proof.
  intros H. apply Nat.odd_spec in H as [k ->].
  replace (2 * k + 1 + 1) with ((k + 1) * 2) by lia.
  rewrite Nat.div_mul by lia.
  replace (2 * k + 1) with (1 + k * 2) by lia.
  rewrite Nat.div_add by lia. simpl. lia.
Qed.

Lemma posenc_init_zero (n : nat) :
  PositionalEncoding.init 0 n = Err ZeroDivisionError.
Proof. reflexivity. Qed.

Lemma posenc_init_ok (d n : nat) :
  d <> 0 -> (d + 1) / 2 = d / 2 \/ (d + 1) / 2 = 1 ->
  PositionalEncoding.init d n = Ok (PositionalEncoding.Build (pe_table d n)).
Proof.
  intros Hd Hh. rewrite posenc_init_unfold by exact Hd. cbn [expand_rev].
  replace (((d + 1) / 2 =? d / 2) || ((d + 1) / 2 =? 1)) with true.
  - now rewrite Nat.eqb_refl.
  - symmetry. apply orb_true_iff. rewrite !Nat.eqb_eq. exact Hh.
Qed.

(** The cosine assignment fails when [d_model] is odd and at least 3: the
    source has one more column than the slice, and is not a single column. *)
Lemma posenc_init_odd (d n : nat) :
  Nat.odd d = true -> 3 <= d ->
  PositionalEncoding.init d n = Err (SizeMismatch (d / 2) ((d + 1) / 2)).
Proof.
  intros Hodd Hd. rewrite posenc_init_unfold by lia. cbn [expand_rev].
  pose proof (half_odd d Hodd) as Hh.
  assert (1 <= d / 2) by (apply Nat.div_le_lower_bound; lia).
  replace (((d + 1) / 2 =? d / 2) || ((d + 1) / 2 =? 1)) with false.
  - reflexivity.
  - symmetry. apply orb_false_iff. rewrite !Nat.eqb_neq. lia.
Qed.

Lemma posenc_init_success_iff (d n : nat) :
  is_ok (PositionalEncoding.init d n) = true <-> d = 1 \/ (d <> 0 /\ Nat.even d = true).
Proof.
  destruct (Nat.eq_dec d 0) as [->|Hd].
  - simpl. split; [discriminate|]. intros [H|[H _]]; [discriminate|contradiction].
  - destruct (Nat.even d) eqn:He.
    + rewrite posenc_init_ok; auto using half_even. simpl. tauto.
    + assert (Ho : Nat.odd d = true) by (unfold Nat.odd; now rewrite He).
      destruct (Nat.eq_dec d 1) as [->|H1].
      * rewrite posenc_init_ok by (auto; right; reflexivity). simpl. tauto.
      * assert (3 <= d).
        { destruct d as [|[|[|d']]]; try lia; discriminate. }
        rewrite posenc_init_odd by assumption. simpl.
        split; [discriminate|]. intros [E|[_ E]]; [contradiction|discriminate].
Qed.

Lemma wf_angles (d n : nat) : wf (angles d n).
Proof. apply wf_tbuild. Qed.

Lemma shape_angles (d n : nat) : shape (angles d n) = [n; (d + 1) / 2].
Proof. reflexivity. Qed.

Lemma rget_position_column (n pos : nat) :
  pos < n -> rget (position_column n) [pos; 0] = INR pos.
Proof.
  intros H. unfold position_column.
  transitivity (rget (arange n 1) [pos]).
  - reflexivity.
  - unfold arange. rewrite rget_tbuild.
    + simpl. f_equal. lia.
    + rewrite arange_len_1. bounds.
Qed.

Lemma rget_div_term_of (d i : nat) :
  i < (d + 1) / 2 ->
  rget (div_term_of d) [i] = exp (INR (i * 2) * (- ln 10000 / INR d))%R.
Proof.
  intros H. unfold div_term_of.
  assert (Hb : in_bounds [(d + 2 - 1) / 2] [i] = true)
    by (rewrite arange_len_2; bounds).
  rewrite rget_tmap; [|apply wf_tmap, wf_tbuild|exact Hb].
  rewrite rget_tmap; [|apply wf_tbuild|exact Hb].
  unfold arange. rewrite rget_tbuild by exact Hb. reflexivity.
Qed.

Lemma rget_angles (d n pos i : nat) :
  pos < n -> i < (d + 1) / 2 ->
  rget (angles d n) [pos; i]
  = (INR pos * exp (INR (i * 2) * (- ln 10000 / INR d)))%R.
Proof.
  intros Hp Hi. unfold angles, broadcast2_out.
  rewrite rget_tbuild by bounds.
  rewrite shape_position_column, shape_div_term_of.
  unfold bcast_index. cbn [length Nat.sub skipn combine map fst snd Nat.eqb].
  rewrite !coord_of_bcast by assumption.
  now rewrite rget_position_column, rget_div_term_of.
Qed.

Lemma angle_closed_form (d pos i : nat) :
  d <> 0 ->
  (INR pos * exp (INR (i * 2) * (- ln 10000 / INR d)))%R = Spec.angle d pos i.
Proof.
  intros Hd. unfold Spec.angle, Rpower, Rdiv.
  rewrite <- exp_Ropp. f_equal. f_equal.
  rewrite mult_INR. simpl.
  assert (INR d <> 0)%R by (apply not_0_INR; exact Hd).
  field. assumption.
Qed.

(** *** Indices of a fixed rank *)

Lemma in_bounds2 (a b : nat) (idx : list nat) :
  in_bounds [a; b] idx = true ->
  exists i j, idx = [i; j] /\ i < a /\ j < b.
Proof.
  destruct idx as [|i [|j [|? ?]]]; simpl; try discriminate;
    rewrite ?andb_false_r; try discriminate.
  rewrite andb_true_r, andb_true_iff, !Nat.ltb_lt. intros [? ?].
  exists i, j. auto.
Qed.

Lemma in_bounds3 (a b c : nat) (idx : list nat) :
  in_bounds [a; b; c] idx = true ->
  exists i j k, idx = [i; j; k] /\ i < a /\ j < b /\ k < c.
Proof.
  destruct idx as [|i [|j [|k [|? ?]]]]; simpl; try discriminate;
    rewrite ?andb_false_r; try discriminate.
  rewrite andb_true_r, !andb_true_iff, !Nat.ltb_lt. intros (? & ? & ?).
  exists i, j, k. auto.
Qed.

Lemma in_bounds4 (a b c e : nat) (idx : list nat) :
  in_bounds [a; b; c; e] idx = true ->
  exists i j k l, idx = [i; j; k; l] /\ i < a /\ j < b /\ k < c /\ l < e.
Proof.
  destruct idx as [|i [|j [|k [|l [|? ?]]]]]; simpl; try discriminate;
    rewrite ?andb_false_r; try discriminate.
  rewrite andb_true_r, !andb_true_iff, !Nat.ltb_lt. intros (? & ? & ? & ?).
  exists i, j, k, l. auto.
Qed.

Lemma rget_setitem_cols_out (t : rtensor) (start step : nat) (src : rtensor)
  (rows cols r c : nat) :
  shape t = [rows; cols] -> r < rows -> c < cols ->
  rget (setitem_cols_out t start step src) [r; c]
  = if (start <=? c) && ((c - start) mod step =? 0)
    then rget src [r; (c - start) / step]
    else rget t [r; c].
Proof.
  intros Hs Hr Hc. unfold setitem_cols_out.
  rewrite rget_tbuild by (rewrite Hs; bounds). reflexivity.
Qed.

Lemma rget_expand_out2 (src : rtensor) (n h h' r c : nat) :
  shape src = [n; h] -> r < n -> c < h -> c < h' ->
  rget (expand_out src [n; h']) [r; c] = rget src [r; c].
Proof.
  intros Hs Hr Hc Hc'. unfold expand_out.
  rewrite rget_tbuild by bounds. rewrite Hs.
  unfold bcast_index. cbn [length Nat.sub skipn combine map fst snd].
  now rewrite !coord_of_bcast.
Qed.

Lemma lt_half (i d : nat) : 2 * i < d -> i < (d + 1) / 2.
Proof.
  intros H. pose proof (Nat.div_mod_eq (d + 1) 2).
  pose proof (Nat.mod_upper_bound (d + 1) 2). lia.
Qed.

Lemma odd_index_lt (i d : nat) : i < d / 2 -> 2 * i + 1 < d.
Proof.
  intros H. pose proof (Nat.div_mod_eq d 2).
  pose proof (Nat.mod_upper_bound d 2). lia.
Qed.

Lemma pe_table_even_column (d n pos i : nat) :
  pos < n -> 2 * i < d ->
  rget (pe_table d n) [0; pos; 2 * i] = sin (rget (angles d n) [pos; i]).
Proof.
  intros Hp Hi. unfold pe_table. rewrite rget_unsqueeze0.
  assert (Hhalf : i < (d + 1) / 2) by (apply lt_half; lia).
  rewrite (@rget_setitem_cols_out _ 1 2 _ n d) by (auto; reflexivity).
  replace ((1 <=? 2 * i) && ((2 * i - 1) mod 2 =? 0)) with false.
  - rewrite (@rget_setitem_cols_out _ 0 2 _ n d) by (auto; reflexivity).
    replace (2 * i - 0) with (i * 2) by lia.
    rewrite Nat.Div0.mod_mul, Nat.div_mul by lia. cbn [Nat.leb Nat.eqb andb].
    rewrite (@rget_expand_out2 _ n ((d + 1) / 2)) by (auto; reflexivity).
    apply rget_tmap; [apply wf_angles|]. rewrite shape_angles. bounds.
  - symmetry. destruct i as [|i']; [reflexivity|].
    apply andb_false_iff. right. apply Nat.eqb_neq.
    replace (2 * S i' - 1) with (1 + i' * 2) by lia.
    rewrite Nat.Div0.mod_add. simpl. lia.
Qed.

Lemma pe_table_odd_column (d n pos i : nat) :
  pos < n -> i < d / 2 ->
  rget (pe_table d n) [0; pos; 2 * i + 1] = cos (rget (angles d n) [pos; i]).
Proof.
  intros Hp Hi. unfold pe_table. rewrite rget_unsqueeze0.
  assert (Hd : 2 * i + 1 < d) by (apply odd_index_lt; exact Hi).
  assert (Hhalf : i < (d + 1) / 2) by (apply lt_half; lia).
  rewrite (@rget_setitem_cols_out _ 1 2 _ n d) by (auto; reflexivity).
  replace (2 * i + 1 - 1) with (i * 2) by lia.
  rewrite Nat.Div0.mod_mul, Nat.div_mul by lia.
  replace (1 <=? 2 * i + 1) with true by (symmetry; apply Nat.leb_le; lia).
  cbn [Nat.eqb andb].
  rewrite (@rget_expand_out2 _ n ((d + 1) / 2)) by (auto; reflexivity).
  apply rget_tmap; [apply wf_angles|]. rewrite shape_angles. bounds.
Qed.

Lemma shape_pe_table (d n : nat) : shape (pe_table d n) = [1; n; d].
Proof. reflexivity. Qed.

Lemma posenc_init_inv (d n : nat) (p : PositionalEncoding.t) :
  PositionalEncoding.init d n = Ok p ->
  p = PositionalEncoding.Build (pe_table d n) /\ d <> 0.
Proof.
  intros H. destruct (Nat.eq_dec d 0) as [->|Hd]; [discriminate|].
  rewrite posenc_init_unfold in H by exact Hd.
  destruct (expand_rev _ _); [|discriminate].
  cbn [bind] in H. injection H as <-. auto.
Qed.

Lemma broadcast_rev_batch1 (r : list nat) (B : nat) :
  broadcast_rev (r ++ [B]) (r ++ [1]) = Ok (r ++ [B]).
Proof.
  induction r as [|a r IH]; simpl.
  - destruct B as [|[|B]]; reflexivity.
  - now rewrite Nat.eqb_refl, IH.
Qed.

Lemma broadcast_shapes_batch1 (B : nat) (s : list nat) :
  broadcast_shapes (B :: s) (1 :: s) = Ok (B :: s).
Proof.
  unfold broadcast_shapes. simpl. rewrite broadcast_rev_batch1. simpl.
  now rewrite rev_app_distr, rev_involutive.
Qed.

Lemma pe_table_values (d n pos i : nat) :
  d <> 0 -> pos < n -> i < d / 2 ->
  rget (pe_table d n) [0; pos; 2 * i] = sin (Spec.angle d pos i) /\
  rget (pe_table d n) [0; pos; 2 * i + 1] = cos (Spec.angle d pos i).
Proof.
  intros Hd Hp Hi.
  assert (Hlt : 2 * i + 1 < d) by (apply odd_index_lt; exact Hi).
  assert (Hhalf : i < (d + 1) / 2) by (apply lt_half; lia).
  rewrite pe_table_even_column, pe_table_odd_column by (auto; lia).
  rewrite rget_angles by assumption.
  now rewrite angle_closed_form.
Qed.

(** Rows beyond the input length are cut off the table; the rest is added
    to every element of the batch. *)
Lemma posenc_forward_ok (pe x : rtensor) (B L d n : nat) :
  shape pe = [1; n; d] -> shape x = [B; L; d] -> L <= n ->
  PositionalEncoding.forward (PositionalEncoding.Build pe) x
  = Ok (Spec.add_positions pe x).
Proof.
  intros Hpe Hx HL. unfold PositionalEncoding.forward.
  cbn [PositionalEncoding.pe].
  rewrite size_at1 by (shapes; lia).
  rewrite Hx. cbn [nth bind].
  unfold add, broadcast2. rewrite shape_slice_upto, Hpe, Hx.
  cbn [nth set_at]. rewrite Nat.min_l by exact HL.
  rewrite broadcast_shapes_batch1. cbn [bind]. f_equal.
  unfold broadcast2_out, Spec.add_positions. rewrite Hx.
  apply tbuild_ext. intros idx Hb.
  apply in_bounds3 in Hb as (b & l & j & -> & Hb & Hl & Hj).
  rewrite shape_slice_upto, Hpe.
  cbn [nth set_at]. rewrite Nat.min_l by exact HL.
  unfold bcast_index. cbn [length Nat.sub skipn combine map fst snd Nat.eqb tl].
  rewrite !coord_of_bcast by assumption.
  f_equal. unfold slice_upto. rewrite rget_tbuild; [reflexivity|].
  rewrite Hpe. cbn [nth set_at].
  rewrite Nat.min_l by exact HL. bounds.
Qed.

(** C6: the table holds the sine and cosine of [pos / 10000^(2i/d_model)]
    in its even and odd columns, for every position below [max_len] and
    every [i] below [d_model / 2]; and on an input of shape
    [B, L, d_model] with [L <= max_len], [forward] returns the input plus
    the first [L] rows of the table, the same rows for every element of the
    batch. *)
Theorem C6_positional_encoding (d_model max_len : nat) (p : PositionalEncoding.t) :
  PositionalEncoding.init d_model max_len = Ok p ->
  (forall pos i, pos < max_len -> i < d_model / 2 ->
     rget (PositionalEncoding.pe p) [0; pos; 2 * i]
       = sin (Spec.angle d_model pos i) /\
     rget (PositionalEncoding.pe p) [0; pos; 2 * i + 1]
       = cos (Spec.angle d_model pos i)) /\
  (forall (x : rtensor) (B L : nat),
     shape x = [B; L; d_model] -> L <= max_len ->
     PositionalEncoding.forward p x
       = Ok (Spec.add_positions (PositionalEncoding.pe p) x)).
Proof.
  intros Hinit. apply posenc_init_inv in Hinit as [-> Hd]. cbn [PositionalEncoding.pe].
  split.
  - intros pos i Hp Hi. now apply pe_table_values.
  - intros x B L Hx HL.
    now apply (@posenc_forward_ok _ x B L d_model max_len).
Qed.

(** ** What construction returns *)

Lemma Linear_init_inv (g : rng) (i o c : nat) :
  exists l, Linear.init g i o c = Ok (l, c + o * i + o) /\ linear_for i o l.
Proof.
  eexists. split.
  - unfold Linear.init, bindM, draw, retM. simpl. do 2 f_equal. lia.
  - split; reflexivity.
Qed.

Lemma bindM_Ok {A B} (m : M A) (f : A -> M B) (c c' : nat) (a : A) :
  m c = Ok (a, c') -> bindM m f c = f a c'.
Proof. intros H. unfold bindM. now rewrite H. Qed.

Lemma bindM_inv {A B} (m : M A) (f : A -> M B) (c c'' : nat) (b : B) :
  bindM m f c = Ok (b, c'') ->
  exists a c', m c = Ok (a, c') /\ f a c' = Ok (b, c'').
Proof.
  unfold bindM. destruct (m c) as [[a c']|e]; [|discriminate].
  intros H. exists a, c'. auto.
Qed.

Lemma liftM_inv {A} (r : result A) (c c' : nat) (a : A) :
  liftM r c = Ok (a, c') -> r = Ok a /\ c' = c.
Proof.
  unfold liftM. destruct r; [|discriminate].
  intros H. injection H as -> ->. auto.
Qed.

Lemma Linear_init_for (g : rng) (i o c c' : nat) (l : Linear.t) :
  Linear.init g i o c = Ok (l, c') -> linear_for i o l.
Proof.
  destruct (Linear_init_inv g i o c) as (l0 & H0 & Hl).
  rewrite H0. intros H. injection H as <- _. exact Hl.
Qed.

Lemma attention_init_inv (g : rng) (d h c c' : nat) (a : MultiHeadAttention.t) :
  MultiHeadAttention.init g d h c = Ok (a, c') ->
  h <> 0 /\ d mod h = 0 /\ attention_for d a /\
  MultiHeadAttention.num_heads a = h /\ MultiHeadAttention.d_k a = d / h.
Proof.
  unfold MultiHeadAttention.init. intros H.
  apply bindM_inv in H as (r & c1 & Hr & H). apply liftM_inv in Hr as [Hr ->].
  apply bindM_inv in H as (u & c2 & Hu & H). apply liftM_inv in Hu as [Hu ->].
  apply bindM_inv in H as (dk & c3 & Hdk & H). apply liftM_inv in Hdk as [Hdk ->].
  apply bindM_inv in H as (q & c4 & Hq & H).
  apply bindM_inv in H as (k & c5 & Hk & H).
  apply bindM_inv in H as (v & c6 & Hv & H).
  apply bindM_inv in H as (o & c7 & Ho & H).
  unfold retM in H. injection H as <- _.
  unfold pymod in Hr. destruct (Nat.eqb_spec h 0) as [|Hh]; [discriminate|].
  injection Hr as <-.
  unfold assert in Hu. destruct (Nat.eqb_spec (d mod h) 0) as [Hm|]; [|discriminate].
  unfold floordiv in Hdk. destruct (Nat.eqb_spec h 0) as [|_]; [contradiction|].
  injection Hdk as <-.
  apply Linear_init_for in Hq, Hk, Hv, Ho.
  repeat split; auto; cbn; try apply Hq; try apply Hk; try apply Hv; try apply Ho.
  pose proof (Nat.div_mod_eq d h). lia.
Qed.

Lemma attention_init_ok (g : rng) (d h c : nat) :
  h <> 0 -> d mod h = 0 ->
  exists a c', MultiHeadAttention.init g d h c = Ok (a, c').
Proof.
  intros Hh Hm.
  unfold MultiHeadAttention.init, Linear.init, bindM, liftM, pymod, floordiv,
    assert, draw, retM.
  destruct (Nat.eqb_spec h 0) as [|_]; [contradiction|].
  rewrite Hm. cbn [Nat.eqb].
  eexists _, _. reflexivity.
Qed.

(** ** MultiHeadAttention.forward *)

Lemma view_shape_ambiguous (n : nat) (spec : list (option nat)) :
  count_inferred spec = 1 -> known_size spec = 0 -> n = 0 ->
  view_shape n spec = Err AmbiguousShape.
Proof.
  intros Hc Hk ->. unfold view_shape. rewrite Hc, Hk. reflexivity.
Qed.

Lemma view_ambiguous {A} (t : tensor A) (spec : list (option nat)) :
  count_inferred spec = 1 -> known_size spec = 0 -> numel (shape t) = 0 ->
  view t spec = Err AmbiguousShape.
Proof.
  intros Hc Hk Hn. unfold view. now rewrite view_shape_ambiguous.
Qed.

Lemma Linear_forward_ok (l : Linear.t) (i o : nat) (x : rtensor) :
  linear_for i o l -> rank x <> 0 -> last (shape x) 0 = i ->
  Linear.forward l x = Ok (linear_out x (Linear.weight l) (Linear.bias l)) /\
  shape (linear_out x (Linear.weight l) (Linear.bias l))
  = removelast (shape x) ++ [o].
Proof.
  intros [Hw Hb] Hr Hl. unfold Linear.forward. split.
  - apply linear_ok; [exact Hr|]. rewrite Hw, Hl. reflexivity.
  - rewrite shape_linear_out, Hw. reflexivity.
Qed.

Section Attention.
Variables (self : MultiHeadAttention.t) (d_model : nat).
Hypothesis Hself : attention_for d_model self.

Let h := MultiHeadAttention.num_heads self.
Let dk := MultiHeadAttention.d_k self.

Lemma heads_times_dk : h * dk = d_model.
Proof. apply Hself. Qed.

Lemma split_heads_ok (B L : nat) (x : rtensor) :
  shape x = [B; L; d_model] -> 0 < B -> 0 < d_model ->
  MultiHeadAttention.split_heads self B x
  = Ok (transpose_out 0%R 1 2 (Tensor [B; L; h; dk] (data x))).
Proof.
  intros Hx HB Hd. unfold MultiHeadAttention.split_heads.
  pose proof heads_times_dk as Hhd.
  rewrite (@view_ok _ x L).
  - cbn [bind fill map].
    rewrite (@transpose_ok _ 0%R _ 1 2 1 2) by reflexivity. reflexivity.
  - reflexivity.
  - cbn [known_size]. fold h dk. nia.
  - rewrite Hx. cbn [numel known_size]. fold h dk. rewrite <- Hhd. ring.
Qed.

Lemma split_heads_degenerate (B L : nat) (x : rtensor) :
  shape x = [B; L; d_model] -> B = 0 \/ d_model = 0 ->
  MultiHeadAttention.split_heads self B x = Err AmbiguousShape.
Proof.
  intros Hx Hz. unfold MultiHeadAttention.split_heads.
  pose proof heads_times_dk as Hhd.
  rewrite view_ambiguous; [reflexivity|reflexivity| |].
  - cbn [known_size]. fold h dk. nia.
  - rewrite Hx. cbn [numel]. nia.
Qed.

Lemma concat_heads_ok (B L : nat) (out : rtensor) :
  shape out = [B; h; L; dk] -> 0 < B -> 0 < d_model ->
  MultiHeadAttention.concat_heads self B out
  = Ok (Tensor [B; L; d_model] (data (transpose_out 0%R 1 2 out))).
Proof.
  intros Ho HB Hd. unfold MultiHeadAttention.concat_heads.
  pose proof heads_times_dk as Hhd.
  rewrite (@transpose_ok _ 0%R _ 1 2 1 2) by (shapes; reflexivity).
  cbn [bind]. unfold contiguous.
  rewrite (@view_ok _ _ L).
  - cbn [fill map]. fold h dk. now rewrite Hhd.
  - reflexivity.
  - cbn [known_size]. fold h dk. nia.
  - shapes. cbn [numel known_size]. fold h dk. ring.
Qed.

Lemma attention_forward_ok (B L : nat) (Q K V : rtensor) :
  shape Q = [B; L; d_model] -> shape K = [B; L; d_model] ->
  shape V = [B; L; d_model] -> 0 < B -> 0 < d_model ->
  exists y, MultiHeadAttention.forward self Q K V = Ok y /\
            shape y = [B; L; d_model].
Proof.
  intros HQ HK HV HB Hd.
  destruct Hself as (Hh & Hhd & Hq & Hk & Hv & Ho).
  unfold MultiHeadAttention.forward.
  rewrite size_at0 by (shapes; lia). rewrite HQ. cbn [nth bind].
  destruct (@Linear_forward_ok _ d_model d_model Q Hq) as [-> HsQ];
    [shapes; lia | shapes; reflexivity |].
  destruct (@Linear_forward_ok _ d_model d_model K Hk) as [-> HsK];
    [shapes; lia | shapes; reflexivity |].
  destruct (@Linear_forward_ok _ d_model d_model V Hv) as [-> HsV];
    [shapes; lia | shapes; reflexivity |].
  rewrite HQ in HsQ. rewrite HK in HsK. rewrite HV in HsV.
  cbn [removelast app] in HsQ, HsK, HsV.
  set (q := linear_out Q _ _) in *. clearbody q.
  set (k := linear_out K _ _) in *. clearbody k.
  set (v := linear_out V _ _) in *. clearbody v.
  cbn [bind].
  rewrite !(split_heads_ok (L:=L)) by assumption.
  cbn [bind].
  set (qh := transpose_out 0%R 1 2 (Tensor _ (data q))).
  assert (Hqh : shape qh = [B; h; L; dk]) by reflexivity. clearbody qh.
  set (kh := transpose_out 0%R 1 2 (Tensor _ (data k))).
  assert (Hkh : shape kh = [B; h; L; dk]) by reflexivity. clearbody kh.
  set (vh := transpose_out 0%R 1 2 (Tensor _ (data v))).
  assert (Hvh : shape vh = [B; h; L; dk]) by reflexivity. clearbody vh.
  unfold MultiHeadAttention.scaled_dot_product_attention.
  destruct (@attention_weights_ok self qh kh B h L Hqh Hkh)
    as (w & -> & Hw & _).
  cbn [bind].
  rewrite (@matmul_ok w vh [B; h]).
  2,3: shapes; lia.
  2: shapes; reflexivity.
  2: shapes; apply broadcast_shapes_same.
  cbn [bind].
  set (o := matmul_out _ w vh).
  assert (Hso : shape o = [B; h; L; dk]) by (subst o; shapes; reflexivity).
  clearbody o.
  rewrite (@concat_heads_ok B L o Hso HB Hd).
  cbn [bind].
  set (c := Tensor _ _).
  assert (Hc : shape c = [B; L; d_model]) by reflexivity. clearbody c.
  destruct (@Linear_forward_ok _ d_model d_model c Ho) as [-> Hs];
    [shapes; lia | shapes; reflexivity |].
  eexists. split; [reflexivity|]. rewrite Hs, Hc. reflexivity.
Qed.

Lemma attention_forward_degenerate (B L : nat) (Q K V : rtensor) :
  shape Q = [B; L; d_model] -> B = 0 \/ d_model = 0 ->
  MultiHeadAttention.forward self Q K V = Err AmbiguousShape.
Proof.
  intros HQ Hz.
  destruct Hself as (Hh & Hhd & Hq & Hk & Hv & Ho).
  unfold MultiHeadAttention.forward.
  rewrite size_at0 by (shapes; lia). rewrite HQ. cbn [nth bind].
  destruct (@Linear_forward_ok _ d_model d_model Q Hq) as [-> HsQ];
    [shapes; lia | shapes; reflexivity |].
  rewrite HQ in HsQ. cbn [removelast app] in HsQ. cbn [bind].
  now rewrite (split_heads_degenerate (L:=L)).
Qed.

End Attention.

(** Exchanging dimensions 1 and 2 of a rank-4 tensor twice gives the
    tensor back. *)
Lemma transpose12_involutive {A} (d : A) (t : tensor A) (a b c e : nat) :
  wf t -> shape t = [a; b; c; e] ->
  transpose_out d 1 2 (transpose_out d 1 2 t) = t.
Proof.
  intros Hwf Hs. unfold transpose_out at 1.
  rewrite shape_transpose_out, Hs. cbn [swap_at length seq map nth Nat.eqb].
  transitivity (tbuild (shape t) (tget d t)); [|now apply tbuild_tget].
  rewrite Hs. apply tbuild_ext. intros idx Hb.
  apply in_bounds4 in Hb as (i & j & k & l & -> & Hi & Hj & Hk & Hl).
  cbn [swap_at length seq map nth Nat.eqb].
  unfold transpose_out. rewrite Hs. cbn [swap_at length seq map nth Nat.eqb].
  rewrite tget_tbuild by bounds. reflexivity.
Qed.

(** C7: for a configuration with [num_heads] dividing [d_model], and
    queries, keys and values of shape [B, L, d_model] with [B] and
    [d_model] positive, construction succeeds, [forward] returns a tensor
    of the shape of the query, and concatenating the heads undoes splitting
    them. *)
Theorem C7_attention_output_shape
  (g : rng) (d_model num_heads c B L : nat) :
  num_heads <> 0 -> d_model mod num_heads = 0 -> 0 < d_model -> 0 < B ->
  exists self c',
    MultiHeadAttention.init g d_model num_heads c = Ok (self, c') /\
    (forall Q K V : rtensor,
       shape Q = [B; L; d_model] -> shape K = [B; L; d_model] ->
       shape V = [B; L; d_model] ->
       exists y, MultiHeadAttention.forward self Q K V = Ok y /\
                 shape y = shape Q) /\
    (forall x : rtensor,
       wf x -> shape x = [B; L; d_model] ->
       (s <- MultiHeadAttention.split_heads self B x ;;
        MultiHeadAttention.concat_heads self B s) = Ok x).
Proof.
  intros Hh Hm Hd HB.
  destruct (@attention_init_ok g d_model num_heads c Hh Hm) as (self & c' & Hinit).
  exists self, c'. split; [exact Hinit|].
  apply attention_init_inv in Hinit as (_ & _ & Hfor & _ & _).
  split.
  - intros Q K V HQ HK HV. rewrite HQ.
    now apply (@attention_forward_ok self d_model Hfor).
  - intros x Hwf Hx.
    rewrite (@split_heads_ok self d_model Hfor B L x Hx HB Hd). cbn [bind].
    rewrite (@concat_heads_ok self d_model Hfor B L) by (auto; reflexivity).
    pose proof (@heads_times_dk self d_model Hfor) as Hhd.
    rewrite (@transpose12_involutive _ 0%R _ B L
               (MultiHeadAttention.num_heads self) (MultiHeadAttention.d_k self)).
    + destruct x as [s l]. simpl in *. now subst s.
    + unfold wf in *. simpl. rewrite Hwf, Hx. cbn [numel].
      rewrite <- Hhd. ring.
    + reflexivity.
Qed.

(** ** EncoderLayer *)

Lemma map_coord_combine (s idx : list nat) :
  in_bounds s idx = true ->
  map (fun ni => if fst ni =? 1 then 0 else snd ni) (combine s idx) = idx.
Proof.
  revert idx; induction s as [|n s IH]; intros [|i idx] H; simpl in *;
    try discriminate; [reflexivity|].
  apply andb_true_iff in H as [Hi Hb]. apply Nat.ltb_lt in Hi.
  rewrite IH by exact Hb. f_equal.
  change (match n with 1 => true | _ => false end) with (n =? 1).
  now apply coord_of_bcast.
Qed.

Lemma in_bounds_length (s idx : list nat) :
  in_bounds s idx = true -> length idx = length s.
Proof.
  revert idx; induction s as [|n s IH]; intros [|i idx] H; simpl in *;
    try discriminate; [reflexivity|].
  apply andb_true_iff in H as [_ Hb]. f_equal. now apply IH.
Qed.

(** An operand that already has the shape of the result is read at the
    index itself. *)
Lemma bcast_index_id (s idx : list nat) :
  in_bounds s idx = true -> bcast_index s idx = idx.
Proof.
  intros H. unfold bcast_index.
  rewrite (in_bounds_length _ _ H), Nat.sub_diag. simpl.
  now apply map_coord_combine.
Qed.

Lemma add_is_residual (x y : rtensor) :
  shape y = shape x -> add x y = Ok (Spec.residual x y).
Proof.
  intros H. rewrite add_same_shape by exact H. f_equal.
  unfold broadcast2_out, Spec.residual. apply tbuild_ext. intros idx Hb.
  rewrite H. now rewrite bcast_index_id.
Qed.

Lemma shape_residual (x y : rtensor) : shape (Spec.residual x y) = shape x.
Proof. reflexivity. Qed.

Lemma shape_normalize (ln : LayerNorm.t) (x : rtensor) :
  shape (Spec.normalize ln x) = shape x.
Proof. reflexivity. Qed.

Lemma shape_project (l : Linear.t) (x : rtensor) :
  shape (Spec.project l x)
  = removelast (shape x) ++ [nth 0 (shape (Linear.weight l)) 0].
Proof. reflexivity. Qed.

#[export] Hint Rewrite shape_residual shape_normalize shape_project : shp.

Lemma LayerNorm_forward_is_normalize (ln : LayerNorm.t) (d : nat) (x : rtensor) :
  norm_for d ln -> rank x <> 0 -> last (shape x) 0 = d ->
  LayerNorm.forward ln x = Ok (Spec.normalize ln x).
Proof.
  intros Hd Hr Hl. unfold LayerNorm.forward.
  rewrite layer_norm_ok by (auto; now rewrite Hd). reflexivity.
Qed.

Lemma Linear_forward_is_project (l : Linear.t) (i o : nat) (x : rtensor) :
  linear_for i o l -> rank x <> 0 -> last (shape x) 0 = i ->
  Linear.forward l x = Ok (Spec.project l x).
Proof.
  intros Hl Hr Hi.
  destruct (@Linear_forward_ok l i o x Hl Hr Hi) as [-> _]. reflexivity.
Qed.

Lemma ffn_forward_ok (f : PositionWiseFeedForward.t) (d d_ff B L : nat) (x : rtensor) :
  ffn_for d d_ff f -> shape x = [B; L; d] ->
  exists y, PositionWiseFeedForward.forward f x = Ok y /\ shape y = [B; L; d].
Proof.
  intros [H1 H2] Hx. unfold PositionWiseFeedForward.forward.
  destruct (@Linear_forward_ok _ d d_ff x H1) as [-> Hs];
    [shapes; lia | shapes; reflexivity |].
  rewrite Hx in Hs. cbn [removelast app] in Hs.
  set (hid := linear_out x _ _) in *. clearbody hid. cbn [bind].
  destruct (@Linear_forward_ok _ d_ff d (relu hid) H2) as [-> Hs'];
    [shapes; lia | shapes; reflexivity |].
  eexists. split; [reflexivity|]. rewrite Hs'. shapes. reflexivity.
Qed.

Lemma EncoderLayer_init_inv (g : rng) (d h d_ff c c' : nat) (layer : EncoderLayer.t) :
  EncoderLayer.init g d h d_ff c = Ok (layer, c') ->
  h <> 0 /\ d mod h = 0 /\ layer_for d d_ff layer.
Proof.
  unfold EncoderLayer.init. intros H.
  apply bindM_inv in H as (a & c1 & Ha & H).
  apply bindM_inv in H as (f & c2 & Hf & H).
  unfold retM in H. injection H as <- _.
  apply attention_init_inv in Ha as (Hh & Hm & Hfor & _ & _).
  unfold PositionWiseFeedForward.init in Hf.
  apply bindM_inv in Hf as (f1 & c3 & Hf1 & Hf).
  apply bindM_inv in Hf as (f2 & c4 & Hf2 & Hf).
  unfold retM in Hf. injection Hf as <- _.
  apply Linear_init_for in Hf1, Hf2.
  repeat split; auto; try apply Hfor; try apply Hf1; try apply Hf2.
Qed.

Lemma EncoderLayer_init_ok (g : rng) (d h d_ff c : nat) :
  h <> 0 -> d mod h = 0 ->
  exists layer c', EncoderLayer.init g d h d_ff c = Ok (layer, c').
Proof.
  intros Hh Hm.
  unfold EncoderLayer.init, PositionWiseFeedForward.init,
    MultiHeadAttention.init, Linear.init, bindM, liftM, pymod, floordiv,
    assert, draw, retM.
  destruct (Nat.eqb_spec h 0) as [|_]; [contradiction|].
  rewrite Hm. cbn [Nat.eqb].
  eexists _, _. reflexivity.
Qed.

Section Layer.
Variables (layer : EncoderLayer.t) (d_model d_ff : nat).
Hypothesis Hlayer : layer_for d_model d_ff layer.

Lemma layer_forward_refines (B L : nat) (x : rtensor) :
  shape x = [B; L; d_model] ->
  EncoderLayer.forward layer x = Spec.encoder_layer layer x.
Proof.
  intros Hx. destruct Hlayer as (Ha & Hn1 & Hf & Hn2).
  unfold EncoderLayer.forward, Spec.encoder_layer.
  destruct (Nat.eq_dec B 0) as [HB|HB];
    [|destruct (Nat.eq_dec d_model 0) as [Hd|Hd]].
  1,2: rewrite (@attention_forward_degenerate _ d_model Ha B L) by auto;
       reflexivity.
  destruct (@attention_forward_ok _ d_model Ha B L x x x)
    as (a & -> & Hsa); auto; try lia.
  cbn [bind].
  rewrite add_is_residual by (now rewrite Hsa, Hx). cbn [bind].
  rewrite (@LayerNorm_forward_is_normalize _ d_model)
    by (auto; shapes; (lia || reflexivity)).
  cbn [bind].
  set (x1 := Spec.normalize _ _).
  assert (Hx1 : shape x1 = [B; L; d_model]) by (subst x1; shapes; reflexivity).
  clearbody x1.
  destruct (@ffn_forward_ok _ d_model d_ff B L x1 Hf Hx1) as (f & -> & Hsf). cbn [bind].
  rewrite add_is_residual by (now rewrite Hsf, Hx1). cbn [bind].
  apply (@LayerNorm_forward_is_normalize _ d_model);
    auto; shapes; (lia || reflexivity).
Qed.

Lemma layer_forward_ok (B L : nat) (x : rtensor) :
  shape x = [B; L; d_model] -> 0 < B -> 0 < d_model ->
  exists y, EncoderLayer.forward layer x = Ok y /\ shape y = [B; L; d_model].
Proof.
  intros Hx HB Hd. rewrite (@layer_forward_refines B L x Hx).
  destruct Hlayer as (Ha & Hn1 & Hf & Hn2).
  unfold Spec.encoder_layer.
  destruct (@attention_forward_ok _ d_model Ha B L x x x)
    as (a & -> & Hsa); auto.
  cbn [bind].
  set (x1 := Spec.normalize _ _).
  assert (Hx1 : shape x1 = [B; L; d_model]) by (subst x1; shapes; reflexivity).
  clearbody x1.
  destruct (@ffn_forward_ok _ d_model d_ff B L x1 Hf Hx1) as (f & -> & Hsf). cbn [bind].
  eexists. split; [reflexivity|]. shapes. reflexivity.
Qed.

Lemma layer_forward_degenerate (B L : nat) (x : rtensor) :
  shape x = [B; L; d_model] -> B = 0 \/ d_model = 0 ->
  EncoderLayer.forward layer x = Err AmbiguousShape.
Proof.
  intros Hx Hz. destruct Hlayer as (Ha & _).
  unfold EncoderLayer.forward.
  now rewrite (@attention_forward_degenerate _ d_model Ha B L).
Qed.

Lemma layer_forward_shape (B L : nat) (x y : rtensor) :
  shape x = [B; L; d_model] -> EncoderLayer.forward layer x = Ok y ->
  shape y = [B; L; d_model].
Proof.
  intros Hx Hy.
  destruct (Nat.eq_dec B 0) as [HB|HB];
    [|destruct (Nat.eq_dec d_model 0) as [Hd|Hd]].
  1,2: rewrite (@layer_forward_degenerate B L) in Hy by auto; discriminate.
  destruct (@layer_forward_ok B L x) as (y' & Hy' & Hs); auto; try lia.
  rewrite Hy in Hy'. injection Hy' as <-. exact Hs.
Qed.

End Layer.

(** ** The states of an encoder layer *)

Lemma norm_init_state (d : nat) : norm_state d (LayerNorm.init d).
Proof. repeat split. Qed.

Lemma EncoderLayer_init_state
  (g : rng) (d h d_ff c c' : nat) (layer : EncoderLayer.t) :
  EncoderLayer.init g d h d_ff c = Ok (layer, c') -> layer_state d d_ff layer.
Proof.
  intros H.
  split; [exact (proj2 (proj2 (EncoderLayer_init_inv _ _ _ _ _ H)))|].
  unfold EncoderLayer.init in H.
  apply bindM_inv in H as (a & c1 & Ha & H).
  apply bindM_inv in H as (f & c2 & Hf & H).
  unfold retM in H. injection H as <- _.
  split; apply norm_init_state.
Qed.

(** C5: a constructed encoder layer is in a state of its class, and in
    every such state, whatever the values of the learned parameters of its
    attention, its feed-forward block and its two normalizations, [forward]
    computes [LayerNorm1(x + attention(x, x, x))] and then
    [LayerNorm2(x1 + feedforward(x1))], each normalization applied to the
    residual sum with its own scale and shift; every result has the shape
    of the input; and a result is returned whenever the batch and the model
    width are not empty. *)
Theorem C5_encoder_layer_two_stages :
  (forall (g : rng) (d_model num_heads d_ff c c' : nat) (layer : EncoderLayer.t),
     EncoderLayer.init g d_model num_heads d_ff c = Ok (layer, c') ->
     layer_state d_model d_ff layer) /\
  (forall (layer : EncoderLayer.t) (d_model d_ff : nat) (x : rtensor) (B L : nat),
     layer_state d_model d_ff layer ->
     shape x = [B; L; d_model] ->
     EncoderLayer.forward layer x = Spec.encoder_layer layer x /\
     (forall y, EncoderLayer.forward layer x = Ok y -> shape y = shape x) /\
     (0 < B -> 0 < d_model -> exists y, EncoderLayer.forward layer x = Ok y)).
Proof.
  split.
  - intros g d_model num_heads d_ff c c' layer Hinit.
    exact (EncoderLayer_init_state _ _ _ _ _ Hinit).
  - intros layer d_model d_ff x B L [Hfor _] Hx.
    split; [|split].
    + exact (@layer_forward_refines layer d_model d_ff Hfor B L x Hx).
    + intros y Hy. rewrite Hx.
      exact (@layer_forward_shape layer d_model d_ff Hfor B L x y Hx Hy).
    + intros HB Hd.
      destruct (@layer_forward_ok layer d_model d_ff Hfor B L x Hx HB Hd)
        as (y & Hy & _).
      now exists y.
Qed.

(** ** TransformerEncoder: construction *)

Lemma replicateM_inv {A} (P : A -> Prop) (m : M A) :
  (forall c a c', m c = Ok (a, c') -> P a) ->
  forall n c l c', replicateM n m c = Ok (l, c') ->
                   length l = n /\ Forall P l.
Proof.
  intros HP. induction n as [|n IH]; intros c l c' H; simpl in H.
  - unfold retM in H. injection H as <- _. auto.
  - apply bindM_inv in H as (a & c1 & Ha & H).
    apply bindM_inv in H as (l' & c2 & Hl & H).
    unfold retM in H. injection H as <- _.
    destruct (IH _ _ _ Hl) as [Hlen Hall]. simpl. split; [now f_equal|].
    constructor; [now apply (HP c a c1)|exact Hall].
Qed.

Lemma replicateM_ok {A} (m : M A) :
  (forall c, exists a c', m c = Ok (a, c')) ->
  forall n c, exists l c', replicateM n m c = Ok (l, c').
Proof.
  intros Hm. induction n as [|n IH]; intros c; simpl.
  - eexists _, _. reflexivity.
  - destruct (Hm c) as (a & c1 & Ha).
    destruct (IH c1) as (l & c2 & Hl).
    exists (a :: l), c2. unfold bindM. rewrite Ha, Hl. reflexivity.
Qed.

Lemma replicateM_err {A} (m : M A) (e : error) :
  (forall c, m c = Err e) ->
  forall n c, n <> 0 -> replicateM n m c = Err e.
Proof.
  intros Hm [|n] c Hn; [contradiction|]. simpl. unfold bindM. now rewrite Hm.
Qed.

Lemma encoder_init_inv
  (g : rng) (img p d h nl d_ff nc c c' : nat) (m : TransformerEncoder.t) :
  TransformerEncoder.init g img p d h nl d_ff nc c = Ok (m, c') ->
  p <> 0 /\ d <> 0 /\
  PositionalEncoding.init d ((img / p) ^ 2)
    = Ok (TransformerEncoder.positional_encoding m) /\
  length (TransformerEncoder.encoder_layers m) = nl /\
  encoder_for img p d d_ff nc m.
Proof.
  unfold TransformerEncoder.init. intros H.
  apply bindM_inv in H as (side & c1 & Hside & H).
  apply liftM_inv in Hside as [Hside ->].
  unfold floordiv in Hside.
  destruct (Nat.eqb_spec p 0) as [|Hp]; [discriminate|]. injection Hside as <-.
  apply bindM_inv in H as (emb & c2 & Hemb & H).
  apply bindM_inv in H as (pos & c3 & Hpos & H).
  apply liftM_inv in Hpos as [Hpos ->].
  apply bindM_inv in H as (layers & c4 & Hlayers & H).
  apply bindM_inv in H as (fc & c5 & Hfc & H).
  unfold retM in H. injection H as <- _.
  apply Linear_init_for in Hemb, Hfc.
  destruct (posenc_init_inv _ _ Hpos) as [Hpe Hd].
  destruct (@replicateM_inv _ (layer_for d d_ff) _
              (fun c0 a c0' Ha => proj2 (proj2 (EncoderLayer_init_inv _ _ _ _ _ Ha)))
              nl c2 layers c4 Hlayers) as [Hlen Hall].
  cbn. repeat split; auto; try apply Hemb; try apply Hfc.
Qed.

Lemma encoder_init_state
  (g : rng) (img p d h nl d_ff nc c c' : nat) (m : TransformerEncoder.t) :
  TransformerEncoder.init g img p d h nl d_ff nc c = Ok (m, c') ->
  encoder_state img p d d_ff nl nc m.
Proof.
  intros H.
  pose proof (encoder_init_inv _ _ _ _ _ _ _ _ _ H) as (Hp & Hd & Hpos & Hlen & Hm).
  pose proof Hm as (_ & HN & _).
  split; [exact Hp|]. split; [exact Hm|].
  split; [rewrite HN; exact Hpos|]. split; [exact Hlen|].
  unfold TransformerEncoder.init in H.
  apply bindM_inv in H as (side & c1 & Hside & H).
  apply bindM_inv in H as (emb & c2 & Hemb & H).
  apply bindM_inv in H as (pos & c3 & Hpos' & H).
  apply bindM_inv in H as (layers & c4 & Hlayers & H).
  apply bindM_inv in H as (fc & c5 & Hfc & H).
  unfold retM in H. injection H as <- _.
  cbn [TransformerEncoder.encoder_layers TransformerEncoder.norm].
  split; [|apply norm_init_state].
  exact (proj2 (@replicateM_inv _ (layer_state d d_ff) _
                  (fun c0 a c0' Ha => EncoderLayer_init_state _ _ _ _ _ Ha)
                  nl c3 layers c4 Hlayers)).
Qed.

Lemma encoder_init_ok (g : rng) (img p d h nl d_ff nc c : nat) :
  p <> 0 -> d = 1 \/ (d <> 0 /\ Nat.even d = true) ->
  nl = 0 \/ (h <> 0 /\ d mod h = 0) ->
  exists m c', TransformerEncoder.init g img p d h nl d_ff nc c = Ok (m, c').
Proof.
  intros Hp Hd Hl. unfold TransformerEncoder.init.
  unfold floordiv. destruct (Nat.eqb_spec p 0) as [|_]; [contradiction|].
  unfold bindM at 1. cbn [liftM].
  destruct (Linear_init_inv g (3 * p * p) d c) as (emb & Hemb & _).
  unfold bindM at 1. rewrite Hemb.
  assert (Hpos : exists pos, PositionalEncoding.init d ((img / p) ^ 2) = Ok pos).
  { apply (proj2 (posenc_init_success_iff d ((img / p) ^ 2))) in Hd.
    destruct (PositionalEncoding.init d ((img / p) ^ 2)); [eauto|discriminate]. }
  destruct Hpos as (pos & Hpos).
  unfold bindM at 1. rewrite Hpos. cbn [liftM].
  assert (Hlayers : exists layers c1,
             replicateM nl (EncoderLayer.init g d h d_ff)
               (c + d * (3 * p * p) + d) = Ok (layers, c1)).
  { destruct Hl as [->|[Hh Hm]].
    - eexists _, _. reflexivity.
    - apply replicateM_ok. intros c0. now apply EncoderLayer_init_ok. }
  destruct Hlayers as (layers & c1 & Hlayers).
  unfold bindM at 1. rewrite Hlayers.
  destruct (Linear_init_inv g d nc c1) as (fc & Hfc & _).
  unfold bindM at 1. rewrite Hfc.
  eexists _, _. reflexivity.
Qed.

(** Construction with an odd [d_model] of 3 or more stops in
    [PositionalEncoding]: the cosine columns are one fewer than the
    entries of the divisor term. *)
Lemma encoder_init_odd (g : rng) (img p d h nl d_ff nc c : nat) :
  p <> 0 -> Nat.odd d = true -> 3 <= d ->
  TransformerEncoder.init g img p d h nl d_ff nc c
  = Err (SizeMismatch (d / 2) ((d + 1) / 2)).
Proof.
  intros Hp Hodd Hd. unfold TransformerEncoder.init.
  unfold floordiv. destruct (Nat.eqb_spec p 0) as [|_]; [contradiction|].
  unfold bindM at 1. cbn [liftM].
  destruct (Linear_init_inv g (3 * p * p) d c) as (emb & Hemb & _).
  unfold bindM at 1. rewrite Hemb.
  unfold bindM at 1. rewrite posenc_init_odd by assumption. reflexivity.
Qed.

(** ** TransformerEncoder.patchify *)

Lemma tile_count (img p : nat) :
  p <> 0 -> 0 < img -> img mod p = 0 -> (img - p) / p + 1 = img / p.
Proof.
  intros Hp Hi Hm. pose proof (Nat.div_mod_eq img p) as E. rewrite Hm in E.
  assert (Hq : img / p <> 0) by (intros Z; rewrite Z in E; lia).
  replace (img - p) with ((img / p - 1) * p) by nia.
  rewrite Nat.div_mul by exact Hp. lia.
Qed.

Lemma divides_le (img p : nat) : 0 < img -> img mod p = 0 -> p <= img.
Proof.
  intros Hi Hm. destruct (Nat.eq_dec p 0) as [->|Hp]; [lia|].
  pose proof (Nat.div_mod_eq img p) as E. rewrite Hm in E.
  destruct (img / p); nia.
Qed.

Lemma view_shape_invalid (n : nat) (spec : list (option nat)) :
  count_inferred spec = 1 -> n mod known_size spec <> 0 ->
  view_shape n spec = Err (InvalidShape n).
Proof.
  intros Hc Hm. unfold view_shape. rewrite Hc.
  destruct (Nat.eqb_spec n (known_size spec)) as [E|_].
  - exfalso. apply Hm. rewrite E. apply Nat.Div0.mod_same.
  - destruct (Nat.eqb_spec (n mod known_size spec) 0) as [E|_]; [contradiction|].
    now rewrite andb_false_r.
Qed.

Lemma tget_unfold_out {A} (d : A) (k sz step : nat) (t : tensor A)
  (idx : list nat) :
  in_bounds (shape (unfold_out d k sz step t)) idx = true ->
  tget d (unfold_out d k sz step t) idx
  = tget d t (set_at k (nth k idx 0 * step + last idx 0) (removelast idx)).
Proof. intros H. unfold unfold_out. now rewrite tget_tbuild. Qed.

Section Patchify.
Context {A : Type} (d : A).
Variables (p B C img : nat) (images : tensor A).
Hypothesis Hp : p <> 0.
Hypothesis Himg : 0 < img.
Hypothesis Hdiv : img mod p = 0.
Hypothesis Hshape : shape images = [B; C; img; img].

Let s := img / p.

Lemma shape_unfolded : shape (unfolded d p images) = [B; C; s; s; p; p].
Proof.
  unfold unfolded. rewrite !shape_unfold_out, Hshape.
  cbn [set_at nth app]. now rewrite tile_count.
Qed.

(** Entry [u, v] of window [i, j] of channel [c] is the pixel at row
    [i * p + u] and column [j * p + v] of that channel. *)
Lemma unfolded_at (b c i j u v : nat) :
  b < B -> c < C -> i < s -> j < s -> u < p -> v < p ->
  tget d (unfolded d p images) [b; c; i; j; u; v]
  = tget d images [b; c; i * p + u; j * p + v].
Proof.
  intros Hb Hc Hi Hj Hu Hv.
  assert (Himg' : s * p = img).
  { pose proof (Nat.div_mod_eq img p) as E. rewrite Hdiv in E.
    fold s in E. lia. }
  unfold unfolded. rewrite tget_unfold_out.
  2: { change (in_bounds (shape (unfolded d p images)) [b; c; i; j; u; v] = true).
       rewrite shape_unfolded. bounds. }
  cbn [nth last removelast set_at].
  rewrite tget_unfold_out; [reflexivity|].
  rewrite shape_unfold_out, Hshape. cbn [nth set_at app].
  rewrite tile_count by assumption. fold s.
  repeat (apply in_bounds_cons; split; [nia|]). reflexivity.
Qed.

Lemma patchify_is_view (pd : nat) :
  patchify_with d p pd images = view (unfolded d p images) [Some B; None; Some pd].
Proof.
  pose proof (@divides_le img p Himg Hdiv) as Hle.
  unfold patchify_with.
  rewrite size_at0 by (unfold rank; rewrite Hshape; simpl; lia).
  rewrite Hshape. cbn [nth bind].
  rewrite unfold_at2
    by (unfold rank; rewrite Hshape; simpl; lia).
  cbn [bind].
  rewrite unfold_at3
    by (unfold rank; rewrite shape_unfold_out, Hshape; simpl; lia).
  reflexivity.
Qed.

(** The rows of the result are cut from the unfolded tensor in its own
    order; their number is the number of elements divided by the row
    length. *)
Lemma patchify_regroups (rows : nat) :
  B <> 0 -> C * (s * s) = 3 * rows ->
  patchify_with d p (3 * p * p) images
  = Ok (Tensor [B; rows; 3 * p * p] (data (unfolded d p images))).
Proof.
  intros HB Hrows. rewrite patchify_is_view.
  rewrite (@view_ok _ (unfolded d p images) rows); [reflexivity|reflexivity| |].
  - cbn [known_size]. nia.
  - rewrite shape_unfolded. cbn [numel known_size].
    replace (B * (C * (s * (s * (p * (p * 1))))))
      with (B * (C * (s * s)) * (p * p)) by ring.
    rewrite Hrows. ring.
Qed.

(** Where a pixel lands: the tiles are numbered channel by channel, and
    a row of the result takes the next [3 p^2] entries in that order. *)
Lemma regrouped_at (rows b c i j u v : nat) :
  C * (s * s) = 3 * rows ->
  b < B -> c < C -> i < s -> j < s -> u < p -> v < p ->
  tget d (Tensor [B; rows; 3 * p * p] (data (unfolded d p images)))
    [b; (((c * s + i) * s + j) * (p * p) + u * p + v) / (3 * p * p);
        (((c * s + i) * s + j) * (p * p) + u * p + v) mod (3 * p * p)]
  = tget d images [b; c; i * p + u; j * p + v].
Proof.
  intros Hrows Hb Hc Hi Hj Hu Hv.
  rewrite <- unfolded_at by assumption.
  unfold tget. cbn [shape data]. rewrite shape_unfolded. f_equal.
  cbn [offset numel].
  set (q := ((c * s + i) * s + j) * (p * p) + u * p + v).
  pose proof (Nat.div_mod_eq q (3 * p * p)) as Hq.
  replace (rows * (3 * p * p * 1)) with (C * (s * (s * (p * (p * 1))))).
  - subst q. lia.
  - transitivity (3 * rows * (p * p)); [rewrite <- Hrows|]; ring.
Qed.

Lemma patchify_invalid :
  B <> 0 -> (C * (s * s)) mod 3 <> 0 ->
  patchify_with d p (3 * p * p) images
  = Err (InvalidShape (B * C * img * img)).
Proof.
  intros HB Hmod. rewrite patchify_is_view. unfold view.
  rewrite shape_unfolded.
  assert (Hn : numel [B; C; s; s; p; p] = B * C * img * img).
  { cbn [numel]. pose proof (Nat.div_mod_eq img p) as E.
    rewrite Hdiv in E. fold s in E.
    assert (Hi : s * p = img) by lia.
    replace (B * C * img * img) with (B * C * (s * p) * (s * p))
      by (now rewrite Hi).
    ring. }
  rewrite Hn, view_shape_invalid; [reflexivity|reflexivity|].
  rewrite <- Hn. cbn [numel known_size].
  replace (B * (C * (s * (s * (p * (p * 1))))))
    with ((C * (s * s)) * (B * p * p)) by ring.
  replace (B * (3 * p * p * 1)) with (3 * (B * p * p)) by ring.
  rewrite Nat.Div0.mul_mod_distr_r. nia.
Qed.

Lemma patchify_empty_batch (pd : nat) :
  B = 0 -> patchify_with d p pd images = Err AmbiguousShape.
Proof.
  intros HB. rewrite patchify_is_view.
  apply view_ambiguous; [reflexivity| |].
  - cbn [known_size]. now rewrite HB.
  - rewrite shape_unfolded. cbn [numel]. now rewrite HB.
Qed.

End Patchify.

(** ** PositionalEncoding.forward beyond the table *)

Lemma broadcast_shapes_single_row (B L d : nat) :
  broadcast_shapes [B; L; d] [1; 1; d] = Ok [B; L; d].
Proof.
  unfold broadcast_shapes. simpl. rewrite Nat.eqb_refl.
  destruct L as [|[|L]]; destruct B as [|[|B]]; reflexivity.
Qed.

Lemma posenc_forward_single_row (pe x : rtensor) (B L d : nat) :
  shape pe = [1; 1; d] -> shape x = [B; L; d] -> 1 <= L ->
  PositionalEncoding.forward (PositionalEncoding.Build pe) x
  = Ok (add_single_row pe x).
Proof.
  intros Hpe Hx HL. unfold PositionalEncoding.forward.
  cbn [PositionalEncoding.pe].
  rewrite size_at1 by (shapes; lia).
  rewrite Hx. cbn [nth bind].
  unfold add, broadcast2. rewrite shape_slice_upto, Hpe, Hx.
  cbn [nth set_at]. rewrite Nat.min_r by exact HL.
  rewrite broadcast_shapes_single_row. cbn [bind]. f_equal.
  unfold broadcast2_out, add_single_row. rewrite Hx.
  apply tbuild_ext. intros idx Hb.
  apply in_bounds3 in Hb as (b & l & j & -> & Hb & Hl & Hj).
  rewrite shape_slice_upto, Hpe.
  cbn [nth set_at]. rewrite Nat.min_r by exact HL.
  unfold bcast_index. cbn [length Nat.sub skipn combine map fst snd Nat.eqb].
  rewrite !coord_of_bcast by assumption.
  f_equal. unfold slice_upto. rewrite rget_tbuild; [reflexivity|].
  rewrite Hpe. cbn [nth set_at].
  rewrite Nat.min_r by exact HL. bounds.
Qed.

Lemma posenc_forward_mismatch (pe x : rtensor) (B L d n : nat) :
  shape pe = [1; n; d] -> shape x = [B; L; d] -> n < L -> 2 <= n ->
  PositionalEncoding.forward (PositionalEncoding.Build pe) x
  = Err (SizeMismatch L n).
Proof.
  intros Hpe Hx HL Hn. unfold PositionalEncoding.forward.
  cbn [PositionalEncoding.pe].
  rewrite size_at1 by (shapes; lia).
  rewrite Hx. cbn [nth bind].
  unfold add, broadcast2. rewrite shape_slice_upto, Hpe, Hx.
  cbn [nth set_at]. rewrite Nat.min_r by lia.
  unfold broadcast_shapes. cbn [rev app broadcast_rev].
  rewrite Nat.eqb_refl.
  destruct (Nat.eqb_spec L n); [lia|].
  destruct (Nat.eqb_spec L 1); [lia|].
  destruct (Nat.eqb_spec n 1); [lia|].
  reflexivity.
Qed.

(** A table without rows: a single position is broadcast down to no
    position, two positions or more are refused. *)
Lemma posenc_forward_no_rows_mismatch (pe x : rtensor) (B L d : nat) :
  shape pe = [1; 0; d] -> shape x = [B; L; d] -> 2 <= L ->
  PositionalEncoding.forward (PositionalEncoding.Build pe) x
  = Err (SizeMismatch L 0).
Proof.
  intros Hpe Hx HL. unfold PositionalEncoding.forward.
  cbn [PositionalEncoding.pe].
  rewrite size_at1 by (shapes; lia).
  rewrite Hx. cbn [nth bind].
  unfold add, broadcast2. rewrite shape_slice_upto, Hpe, Hx.
  cbn [nth set_at]. rewrite Nat.min_0_r.
  unfold broadcast_shapes. cbn [rev app broadcast_rev].
  rewrite Nat.eqb_refl.
  destruct (Nat.eqb_spec L 0); [lia|].
  destruct (Nat.eqb_spec L 1); [lia|].
  reflexivity.
Qed.

Lemma tbuild_no_rows {A} (B d : nat) (f h : list nat -> A) :
  tbuild [B; 0; d] f = tbuild [B; 0; d] h.
Proof.
  apply tbuild_ext. intros idx Hb.
  apply in_bounds3 in Hb as (b & l & j & _ & _ & Hl & _). lia.
Qed.

Lemma posenc_forward_no_rows (pe x : rtensor) (B d : nat) :
  shape pe = [1; 0; d] -> shape x = [B; 1; d] ->
  PositionalEncoding.forward (PositionalEncoding.Build pe) x
  = Ok (zeros [B; 0; d]).
Proof.
  intros Hpe Hx. unfold PositionalEncoding.forward.
  cbn [PositionalEncoding.pe].
  rewrite size_at1 by (shapes; lia).
  rewrite Hx. cbn [nth bind].
  unfold add, broadcast2. rewrite shape_slice_upto, Hpe, Hx.
  cbn [nth set_at Nat.min].
  assert (Hbs : broadcast_shapes [B; 1; d] [1; 0; d] = Ok [B; 0; d]).
  { unfold broadcast_shapes. cbn [rev app broadcast_rev].
    rewrite Nat.eqb_refl. cbn [Nat.eqb rmap].
    destruct (Nat.eqb_spec B 1) as [->|_]; [reflexivity|].
    destruct B as [|[|B]]; reflexivity. }
  rewrite Hbs. cbn [bind]. f_equal. apply tbuild_no_rows.
Qed.

Lemma shape_add_positions (pe x : rtensor) :
  shape (Spec.add_positions pe x) = shape x.
Proof. reflexivity. Qed.

Lemma shape_add_single_row (pe x : rtensor) :
  shape (add_single_row pe x) = shape x.
Proof. reflexivity. Qed.

Lemma shape_mean_pool (x : rtensor) :
  shape (Spec.mean_pool x) = [nth 0 (shape x) 0; nth 2 (shape x) 0].
Proof. reflexivity. Qed.

#[export] Hint Rewrite shape_add_positions shape_add_single_row
  shape_mean_pool : shp.

(** The table may be shorter than the input only if it has one row. *)
Lemma posenc_forward_shape (pe x : rtensor) (B L d n : nat) :
  shape pe = [1; n; d] -> shape x = [B; L; d] -> L <= n \/ n = 1 ->
  exists y, PositionalEncoding.forward (PositionalEncoding.Build pe) x = Ok y /\
            shape y = [B; L; d].
Proof.
  intros Hpe Hx Hn.
  destruct (Nat.le_gt_cases L n) as [Hle|Hgt].
  - rewrite (@posenc_forward_ok pe x B L d n) by assumption.
    eexists. split; [reflexivity|]. now shapes.
  - destruct Hn as [Hn|Hn]; [lia|]. subst n.
    rewrite (@posenc_forward_single_row pe x B L d) by (auto; lia).
    eexists. split; [reflexivity|]. now shapes.
Qed.

(** ** TransformerEncoder.forward *)

Lemma mean_is_pool (x : rtensor) (B N d : nat) :
  shape x = [B; N; d] -> mean x 1 = Ok (Spec.mean_pool x).
Proof.
  intros Hx. rewrite (@mean_ok x 1 1) by (shapes; reflexivity). f_equal.
  unfold mean_out, Spec.mean_pool. rewrite Hx. cbn [firstn skipn app nth].
  apply tbuild_ext. intros idx Hb.
  apply in_bounds2 in Hb as (b & j & -> & _ & _). reflexivity.
Qed.

Section Layers.
Variables (d_model d_ff : nat).

Lemma run_layers_shape (layers : list EncoderLayer.t) :
  Forall (layer_for d_model d_ff) layers ->
  forall (B L : nat) (x y : rtensor),
    shape x = [B; L; d_model] ->
    TransformerEncoder.run_layers layers x = Ok y ->
    shape y = [B; L; d_model].
Proof.
  induction 1 as [|layer layers Hl _ IH]; intros B L x y Hx Hy; simpl in Hy.
  - now injection Hy as <-.
  - destruct (EncoderLayer.forward layer x) as [x'|e] eqn:E; [|discriminate].
    cbn [bind] in Hy.
    apply (IH B L x' y); [|exact Hy].
    exact (@layer_forward_shape layer d_model d_ff Hl B L x x' Hx E).
Qed.

Lemma run_layers_ok (layers : list EncoderLayer.t) :
  Forall (layer_for d_model d_ff) layers ->
  forall (B L : nat) (x : rtensor),
    shape x = [B; L; d_model] -> 0 < B -> 0 < d_model ->
    exists y, TransformerEncoder.run_layers layers x = Ok y.
Proof.
  induction 1 as [|layer layers Hl _ IH]; intros B L x Hx HB Hd; simpl.
  - now exists x.
  - destruct (@layer_forward_ok layer d_model d_ff Hl B L x Hx HB Hd)
      as (x' & -> & Hx').
    cbn [bind]. exact (IH B L x' Hx' HB Hd).
Qed.

Lemma layer_stack_err (layers : list EncoderLayer.t) (e : error) :
  fold_left (fun acc layer => z <- acc ;; Spec.encoder_layer layer z)
    layers (Err e) = Err e.
Proof. induction layers as [|layer layers IH]; [reflexivity|exact IH]. Qed.

(** The loop over [encoder_layers] hands the output of each layer to
    the next one, first layer first. *)
Lemma run_layers_is_stack (layers : list EncoderLayer.t) :
  Forall (layer_for d_model d_ff) layers ->
  forall (B L : nat) (x : rtensor),
    shape x = [B; L; d_model] ->
    TransformerEncoder.run_layers layers x = Spec.layer_stack layers x.
Proof.
  induction 1 as [|layer layers Hl _ IH]; intros B L x Hx; [reflexivity|].
  unfold Spec.layer_stack. cbn [fold_left bind TransformerEncoder.run_layers].
  pose proof (@layer_forward_refines layer d_model d_ff Hl B L x Hx) as Hr.
  destruct (EncoderLayer.forward layer x) as [x'|e] eqn:E.
  - rewrite <- Hr. cbn [bind].
    apply (IH B L x').
    exact (@layer_forward_shape layer d_model d_ff Hl B L x x' Hx E).
  - rewrite <- Hr. cbn [bind]. symmetry. apply layer_stack_err.
Qed.

End Layers.

Section Encoder.
Variables (m : TransformerEncoder.t) (img p d_model d_ff num_classes : nat).
Hypothesis Hm : encoder_for img p d_model d_ff num_classes m.

Lemma forward_is_tail (x : rtensor) :
  TransformerEncoder.forward m x
  = (patches <- TransformerEncoder.patchify m x ;; after_patchify m patches).
Proof. reflexivity. Qed.

Lemma after_layers (B L : nat) (z : rtensor) :
  shape z = [B; L; d_model] ->
  (x <- TransformerEncoder.run_layers (TransformerEncoder.encoder_layers m) z ;;
   x <- LayerNorm.forward (TransformerEncoder.norm m) x ;;
   x <- mean x 1 ;;
   Linear.forward (TransformerEncoder.fc m) x)
  = after_positions m z.
Proof.
  intros Hz. destruct Hm as (_ & _ & _ & _ & _ & Hlayers & Hnorm & Hfc).
  unfold after_positions.
  destruct (TransformerEncoder.run_layers _ z) as [z'|e] eqn:E;
    [|reflexivity].
  cbn [bind].
  pose proof (@run_layers_shape d_model d_ff _ Hlayers B L z z' Hz E) as Hz'.
  rewrite (@LayerNorm_forward_is_normalize _ d_model)
    by (auto; shapes; (lia || reflexivity)).
  cbn [bind].
  rewrite (@mean_is_pool _ B L d_model) by (shapes; reflexivity).
  cbn [bind].
  apply (@Linear_forward_is_project _ d_model num_classes); auto.
  - shapes. simpl. lia.
  - shapes. reflexivity.
Qed.

Lemma head_shape (B L : nat) (z y : rtensor) :
  shape z = [B; L; d_model] -> after_positions m z = Ok y -> shape y = [B; num_classes].
Proof.
  intros Hz Hy. destruct Hm as (_ & _ & _ & _ & _ & Hlayers & Hnorm & Hfc).
  unfold after_positions in Hy.
  destruct (TransformerEncoder.run_layers _ z) as [z'|e] eqn:E;
    [|discriminate].
  cbn [bind] in Hy. injection Hy as <-.
  pose proof (@run_layers_shape d_model d_ff _ Hlayers B L z z' Hz E) as Hz'.
  shapes. destruct Hfc as [-> _]. reflexivity.
Qed.

Lemma head_ok (B L : nat) (z : rtensor) :
  shape z = [B; L; d_model] -> 0 < B -> 0 < d_model ->
  exists y, after_positions m z = Ok y.
Proof.
  intros Hz HB Hd. destruct Hm as (_ & _ & _ & _ & _ & Hlayers & _).
  unfold after_positions.
  destruct (@run_layers_ok d_model d_ff _ Hlayers B L z Hz HB Hd) as (z' & ->).
  cbn [bind]. eexists. reflexivity.
Qed.

(** The tail of [forward] on patches that fit the positional table. *)
Lemma tail_refines (B L : nat) (patches : rtensor) :
  shape patches = [B; L; 3 * p * p] -> L <= (img / p) ^ 2 ->
  after_patchify m patches
  = after_positions m (Spec.add_positions
            (PositionalEncoding.pe (TransformerEncoder.positional_encoding m))
            (Spec.project (TransformerEncoder.patch_embedding m) patches)).
Proof.
  intros Hpt HL. pose proof Hm as (_ & _ & _ & Hemb & Hpos & _).
  unfold after_patchify.
  rewrite (@Linear_forward_is_project _ (3 * p * p) d_model)
    by (auto; shapes; (lia || reflexivity)).
  cbn [bind]. rewrite Hpos. cbn [PositionalEncoding.pe].
  set (e := Spec.project _ _).
  assert (He : shape e = [B; L; d_model]).
  { subst e. shapes. destruct Hemb as [-> _]. reflexivity. }
  clearbody e.
  rewrite (@posenc_forward_ok _ e B L d_model ((img / p) ^ 2))
    by (auto; reflexivity).
  cbn [bind]. apply (@after_layers B L). now shapes.
Qed.

(** The tail of [forward] on any number of rows the table can be
    broadcast to. *)
Lemma tail_broadcast (B L : nat) (patches : rtensor) :
  shape patches = [B; L; 3 * p * p] -> L <= (img / p) ^ 2 \/ (img / p) ^ 2 = 1 ->
  exists z, shape z = [B; L; d_model] /\ after_patchify m patches = after_positions m z.
Proof.
  intros Hpt HL. pose proof Hm as (_ & _ & _ & Hemb & Hpos & _).
  unfold after_patchify.
  rewrite (@Linear_forward_is_project _ (3 * p * p) d_model)
    by (auto; shapes; (lia || reflexivity)).
  cbn [bind]. rewrite Hpos.
  set (e := Spec.project _ _).
  assert (He : shape e = [B; L; d_model]).
  { subst e. shapes. destruct Hemb as [-> _]. reflexivity. }
  clearbody e.
  destruct (@posenc_forward_shape _ e B L d_model ((img / p) ^ 2)
              (shape_pe_table d_model ((img / p) ^ 2)) He HL)
    as (z & -> & Hz).
  exists z. split; [exact Hz|]. cbn [bind]. now apply (@after_layers B L).
Qed.

Lemma tail_mismatch (B L : nat) (patches : rtensor) :
  shape patches = [B; L; 3 * p * p] -> (img / p) ^ 2 < L -> 2 <= (img / p) ^ 2 ->
  after_patchify m patches = Err (SizeMismatch L ((img / p) ^ 2)).
Proof.
  intros Hpt HL HN. pose proof Hm as (_ & _ & _ & Hemb & Hpos & _).
  unfold after_patchify.
  rewrite (@Linear_forward_is_project _ (3 * p * p) d_model)
    by (auto; shapes; (lia || reflexivity)).
  cbn [bind]. rewrite Hpos.
  set (e := Spec.project _ _).
  assert (He : shape e = [B; L; d_model]).
  { subst e. shapes. destruct Hemb as [-> _]. reflexivity. }
  clearbody e.
  rewrite (@posenc_forward_mismatch _ e B L d_model ((img / p) ^ 2));
    auto.
Qed.

End Encoder.

(** ** TransformerEncoder.forward on a constructed model *)

Section Forward.
Variables (m : TransformerEncoder.t) (img p d_model d_ff num_classes : nat).
Hypothesis Hm : encoder_for img p d_model d_ff num_classes m.
Hypothesis Hp : p <> 0.
Hypothesis Hd : d_model <> 0.
Hypothesis Himg : 0 < img.
Hypothesis Hdiv : img mod p = 0.

Variables (x : rtensor) (B C : nat).
Hypothesis Hx : shape x = [B; C; img; img].

Lemma encoder_patchify_regroups (rows : nat) :
  B <> 0 -> C * (img / p) ^ 2 = 3 * rows ->
  TransformerEncoder.patchify m x
  = Ok (Tensor [B; rows; 3 * p * p] (data (unfolded 0%R p x))).
Proof.
  intros HB Hrows. destruct Hm as (Hps & _ & Hpd & _).
  unfold TransformerEncoder.patchify. rewrite Hps, Hpd.
  apply (@patchify_regroups _ 0%R p B C img x Hp Himg Hdiv Hx rows HB).
  now rewrite <- Nat.pow_2_r.
Qed.

Lemma encoder_patchify_invalid :
  B <> 0 -> (C * (img / p) ^ 2) mod 3 <> 0 ->
  TransformerEncoder.patchify m x = Err (InvalidShape (B * C * img * img)).
Proof.
  intros HB Hmod. destruct Hm as (Hps & _ & Hpd & _).
  unfold TransformerEncoder.patchify. rewrite Hps, Hpd.
  apply (@patchify_invalid _ 0%R p B C img x Hp Himg Hdiv Hx HB).
  now rewrite <- Nat.pow_2_r.
Qed.

Lemma encoder_patchify_empty_batch :
  B = 0 -> TransformerEncoder.patchify m x = Err AmbiguousShape.
Proof.
  intros HB. destruct Hm as (Hps & _ & Hpd & _).
  unfold TransformerEncoder.patchify. rewrite Hps, Hpd.
  now apply (@patchify_empty_batch _ 0%R p B C img x Hp Himg Hdiv Hx).
Qed.

Lemma forward_invalid :
  B <> 0 -> (C * (img / p) ^ 2) mod 3 <> 0 ->
  TransformerEncoder.forward m x = Err (InvalidShape (B * C * img * img)).
Proof.
  intros HB Hmod. unfold TransformerEncoder.forward.
  now rewrite encoder_patchify_invalid.
Qed.

Lemma forward_regrouped (rows : nat) :
  0 < B -> C * (img / p) ^ 2 = 3 * rows ->
  rows <= (img / p) ^ 2 \/ (img / p) ^ 2 = 1 ->
  exists y, TransformerEncoder.forward m x = Ok y /\
            shape y = [B; num_classes].
Proof.
  intros HB Hrows Hfit.
  change (TransformerEncoder.forward m x)
    with (patches <- TransformerEncoder.patchify m x ;;
          after_patchify m patches).
  rewrite (@encoder_patchify_regroups rows) by (auto; lia). cbn [bind].
  destruct (@tail_broadcast m img p d_model d_ff num_classes Hm B rows
              (Tensor [B; rows; 3 * p * p] (data (unfolded 0%R p x)))
              eq_refl Hfit) as (z & Hz & ->).
  destruct (@head_ok m img p d_model d_ff num_classes Hm B rows z Hz)
    as (y & Hy); [lia|lia|].
  exists y. split; [exact Hy|].
  exact (@head_shape m img p d_model d_ff num_classes Hm B rows z y Hz Hy).
Qed.

Lemma forward_overflow (rows : nat) :
  B <> 0 -> C * (img / p) ^ 2 = 3 * rows ->
  (img / p) ^ 2 < rows -> 2 <= (img / p) ^ 2 ->
  TransformerEncoder.forward m x = Err (SizeMismatch rows ((img / p) ^ 2)).
Proof.
  intros HB Hrows Hlt HN.
  change (TransformerEncoder.forward m x)
    with (patches <- TransformerEncoder.patchify m x ;;
          after_patchify m patches).
  rewrite (@encoder_patchify_regroups rows) by auto. cbn [bind].
  now apply (@tail_mismatch m img p d_model d_ff num_classes Hm B rows).
Qed.

Hypothesis HC : C = 3.

Lemma forward_refines :
  TransformerEncoder.forward m x = forward_steps m x.
Proof.
  change (TransformerEncoder.forward m x)
    with (patches <- TransformerEncoder.patchify m x ;;
          after_patchify m patches).
  unfold forward_steps.
  destruct (Nat.eq_dec B 0) as [HB|HB].
  - now rewrite encoder_patchify_empty_batch.
  - rewrite (@encoder_patchify_regroups ((img / p) ^ 2))
      by (auto; rewrite HC; reflexivity).
    cbn [bind].
    now rewrite (@tail_refines m img p d_model d_ff num_classes Hm
                   B ((img / p) ^ 2)).
Qed.

Lemma forward_empty_batch :
  B = 0 -> TransformerEncoder.forward m x = Err AmbiguousShape.
Proof.
  intros HB. unfold TransformerEncoder.forward.
  now rewrite encoder_patchify_empty_batch.
Qed.

(** On a batch that is not empty, [forward] is the pipeline of the
    specification on the patches. *)
Lemma forward_is_pipeline :
  B <> 0 ->
  TransformerEncoder.forward m x
  = Spec.forward m (Tensor [B; (img / p) ^ 2; 3 * p * p]
                      (data (unfolded 0%R p x))).
Proof.
  intros HB. pose proof Hm as (_ & _ & _ & Hemb & _ & Hlayers & _).
  change (TransformerEncoder.forward m x)
    with (patches <- TransformerEncoder.patchify m x ;;
          after_patchify m patches).
  rewrite (@encoder_patchify_regroups ((img / p) ^ 2))
    by (auto; rewrite HC; reflexivity).
  cbn [bind].
  rewrite (@tail_refines m img p d_model d_ff num_classes Hm
             B ((img / p) ^ 2)) by (reflexivity || lia).
  unfold after_positions, Spec.forward.
  rewrite (@run_layers_is_stack d_model d_ff _ Hlayers B ((img / p) ^ 2));
    [reflexivity|].
  shapes. destruct Hemb as [-> _]. reflexivity.
Qed.

Lemma forward_shape (y : rtensor) :
  TransformerEncoder.forward m x = Ok y -> shape y = [B; num_classes].
Proof.
  intros Hy.
  destruct (Nat.eq_dec B 0) as [HB|HB].
  - unfold TransformerEncoder.forward in Hy.
    rewrite encoder_patchify_empty_batch in Hy by exact HB. discriminate.
  - destruct (@forward_regrouped ((img / p) ^ 2)) as (y' & Hy' & Hs);
      [lia | rewrite HC; reflexivity | left; lia |].
    rewrite Hy in Hy'. injection Hy' as <-. exact Hs.
Qed.

Lemma forward_ok :
  0 < B -> exists y, TransformerEncoder.forward m x = Ok y.
Proof.
  intros HB.
  destruct (@forward_regrouped ((img / p) ^ 2)) as (y & Hy & _);
    [lia | rewrite HC; reflexivity | left; lia |].
  now exists y.
Qed.

End Forward.

(** ** The claims about TransformerEncoder *)

(** C3: a constructed model has its positional table built for exactly
    [num_patches] positions and [num_layers] encoder layers, and is in a
    state of its class.  In every such state, whatever the values of the
    learned parameters, with [patch_size] dividing a positive [img_size],
    [forward] on a batch of shape [B, 3, img_size, img_size] that is not
    empty is the pipeline of the specification on the patches that
    [patchify] returns: patch embedding, positions added, the layers from
    the first to the last, the final normalization, the mean over the patch
    axis and the classification projection; the result is returned and has
    shape [B, num_classes].  The patches have shape [B, N, 3 p^2], and the
    pixel of channel [c] at offset [u, v] of window [i, j] is entry number
    [((c s + i) s + j) p^2 + u p + v] of its image, [s] being
    [img_size / patch_size].  On an empty batch [forward] raises, in the
    [view] of [patchify]. *)
Theorem C3_forward_is_the_pipeline :
  (forall (g : rng)
          (img_size patch_size d_model num_heads num_layers d_ff num_classes : nat)
          (c c' : nat) (m : TransformerEncoder.t),
     TransformerEncoder.init g img_size patch_size d_model num_heads num_layers
       d_ff num_classes c = Ok (m, c') ->
     PositionalEncoding.init d_model (TransformerEncoder.num_patches m)
       = Ok (TransformerEncoder.positional_encoding m) /\
     TransformerEncoder.num_patches m = (img_size / patch_size) ^ 2 /\
     length (TransformerEncoder.encoder_layers m) = num_layers /\
     encoder_state img_size patch_size d_model d_ff num_layers num_classes m) /\
  (forall (m : TransformerEncoder.t)
          (img_size patch_size d_model d_ff num_layers num_classes : nat)
          (x : rtensor) (B : nat),
     encoder_state img_size patch_size d_model d_ff num_layers num_classes m ->
     0 < img_size -> img_size mod patch_size = 0 ->
     shape x = [B; 3; img_size; img_size] ->
     (B = 0 -> TransformerEncoder.forward m x = Err AmbiguousShape) /\
     (0 < B ->
      exists patches y,
        TransformerEncoder.patchify m x = Ok patches /\
        shape patches = [B; (img_size / patch_size) ^ 2;
                         3 * patch_size * patch_size] /\
        (forall b c i j u v,
           b < B -> c < 3 -> i < img_size / patch_size ->
           j < img_size / patch_size -> u < patch_size -> v < patch_size ->
           let q := ((c * (img_size / patch_size) + i) * (img_size / patch_size) + j)
                    * (patch_size * patch_size) + u * patch_size + v in
           rget patches [b; q / (3 * patch_size * patch_size);
                            q mod (3 * patch_size * patch_size)]
           = rget x [b; c; i * patch_size + u; j * patch_size + v]) /\
        TransformerEncoder.forward m x = Spec.forward m patches /\
        TransformerEncoder.forward m x = Ok y /\
        shape y = [B; num_classes])).
Proof.
  split.
  - intros g img p d h nl dff nc c c' m Hinit.
    pose proof (encoder_init_state _ _ _ _ _ _ _ _ _ Hinit) as Hst.
    pose proof Hst as (_ & (_ & HN & _) & Hpos & Hlen & _).
    split; [exact Hpos|]. split; [exact HN|]. split; [exact Hlen|exact Hst].
  - intros m img p d dff nl nc x B (Hp & Hm & Hpos & _) Himg Hdiv Hx.
    assert (Hd : d <> 0).
    { destruct (Nat.eq_dec d 0) as [->|]; [|assumption].
      rewrite posenc_init_zero in Hpos. discriminate. }
    split.
    + intros HB. eapply forward_empty_batch; eauto.
    + intros HB.
      destruct (@forward_regrouped m img p d dff nc Hm Hp Hd Himg Hdiv x B 3 Hx
                  ((img / p) ^ 2)) as (y & Hy & Hs);
        [exact HB | reflexivity | left; lia |].
      exists (Tensor [B; (img / p) ^ 2; 3 * p * p] (data (unfolded 0%R p x))), y.
      split; [eapply encoder_patchify_regroups; eauto; lia|].
      split; [reflexivity|].
      split; [|split; [|split; assumption]].
      * intros b c0 i j u v Hb Hc Hi Hj Hu Hv. cbv zeta.
        apply (@regrouped_at _ 0%R p B 3 img x Hp Himg Hdiv Hx
                 ((img / p) ^ 2) b c0 i j u v); auto.
        now rewrite Nat.pow_2_r.
      * eapply forward_is_pipeline; eauto. lia.
Qed.

(** C8, as the code has it: on a batch with [C] channels, [C] other than
    3, [forward] raises in [view] exactly when [C * N] is not a multiple of
    3.  Otherwise [patchify] regroups the input into [C * N / 3] rows of
    length [patch_dim] without an error; [forward] then returns logits when
    these rows are at most [N], or [N] is 1, and raises in the positional
    addition when they are more than [N >= 2]. *)
Theorem C8_channels_regrouped_without_error
  (g : rng) (img_size patch_size d_model num_heads num_layers d_ff num_classes : nat)
  (c c' : nat) (m : TransformerEncoder.t) (x : rtensor) (B C : nat) :
  TransformerEncoder.init g img_size patch_size d_model num_heads num_layers
    d_ff num_classes c = Ok (m, c') ->
  0 < img_size -> img_size mod patch_size = 0 ->
  shape x = [B; C; img_size; img_size] -> 0 < B -> C <> 3 ->
  ((C * (img_size / patch_size) ^ 2) mod 3 <> 0 ->
   TransformerEncoder.forward m x
   = Err (InvalidShape (B * C * img_size * img_size))) /\
  (forall rows, C * (img_size / patch_size) ^ 2 = 3 * rows ->
     (exists patches,
        TransformerEncoder.patchify m x = Ok patches /\
        shape patches = [B; rows; 3 * patch_size * patch_size]) /\
     (rows <= (img_size / patch_size) ^ 2 \/ (img_size / patch_size) ^ 2 = 1 ->
      exists y, TransformerEncoder.forward m x = Ok y /\
                shape y = [B; num_classes]) /\
     ((img_size / patch_size) ^ 2 < rows -> 2 <= (img_size / patch_size) ^ 2 ->
      TransformerEncoder.forward m x
      = Err (SizeMismatch rows ((img_size / patch_size) ^ 2)))).
Proof.
  intros Hinit Himg Hdiv Hx HB _.
  apply encoder_init_inv in Hinit as (Hp & Hd & _ & _ & Hm).
  assert (HB' : B <> 0) by lia.
  split.
  - eapply forward_invalid; eauto.
  - intros rows Hrows. split; [|split].
    + eexists. split.
      * eapply encoder_patchify_regroups; eauto.
      * reflexivity.
    + eapply forward_regrouped; eauto.
    + eapply forward_overflow; eauto.
Qed.

(** C2, as the code has it: construction does not compare [img_size] with
    [patch_size].  For a positive [patch_size], an even positive [d_model]
    and a positive [num_heads] that divides it, construction succeeds for
    every [img_size], with [num_patches] the square of the rounded-down
    quotient. *)
Theorem C2_construction_rounds_down
  (g : rng) (img_size patch_size d_model num_heads num_layers d_ff num_classes c : nat) :
  patch_size <> 0 -> d_model <> 0 -> Nat.even d_model = true ->
  num_heads <> 0 -> d_model mod num_heads = 0 ->
  exists m c',
    TransformerEncoder.init g img_size patch_size d_model num_heads num_layers
      d_ff num_classes c = Ok (m, c') /\
    TransformerEncoder.num_patches m = (img_size / patch_size) ^ 2 /\
    TransformerEncoder.patch_dim m = 3 * patch_size * patch_size.
Proof.
  intros Hp Hd He Hh Hm.
  destruct (@encoder_init_ok g img_size patch_size d_model num_heads num_layers
              d_ff num_classes c Hp (or_intror (conj Hd He))
              (or_intror (conj Hh Hm))) as (m & c' & Hinit).
  exists m, c'. split; [exact Hinit|].
  apply encoder_init_inv in Hinit as (_ & _ & _ & _ & Hfor).
  split; apply Hfor.
Qed.

(** C10: the configuration with [d_model = 255] and [num_heads = 5]
    satisfies the divisibility constraints and construction fails, in the
    cosine assignment, with 127 columns to write and 128 entries to write
    from; the same happens for every odd [d_model] from 3 on; and a
    [d_model] other than 1 with which construction succeeds is even. *)
Theorem C10_odd_d_model_fails_in_construction :
  (forall (g : rng) (c : nat),
     224 mod 16 = 0 /\ 255 mod 5 = 0 /\
     TransformerEncoder.init g 224 16 255 5 6 1024 2 c
     = Err (SizeMismatch 127 128)) /\
  (forall (g : rng) (img_size patch_size d_model num_heads num_layers d_ff
           num_classes c : nat),
     patch_size <> 0 -> Nat.odd d_model = true -> 3 <= d_model ->
     TransformerEncoder.init g img_size patch_size d_model num_heads
       num_layers d_ff num_classes c
     = Err (SizeMismatch (d_model / 2) ((d_model + 1) / 2))) /\
  (forall (g : rng) (img_size patch_size d_model num_heads num_layers d_ff
           num_classes c c' : nat) (m : TransformerEncoder.t),
     TransformerEncoder.init g img_size patch_size d_model num_heads
       num_layers d_ff num_classes c = Ok (m, c') ->
     d_model <> 1 -> Nat.even d_model = true).
Proof.
  split; [|split].
  - intros g c. split; [reflexivity|]. split; [reflexivity|].
    rewrite encoder_init_odd; [reflexivity|lia|reflexivity|lia].
  - intros. now apply encoder_init_odd.
  - intros g img p d h nl dff nc c c' m Hinit Hd1.
    apply encoder_init_inv in Hinit as (_ & _ & Hpos & _).
    assert (Hok : is_ok (PositionalEncoding.init d ((img / p) ^ 2)) = true)
      by (now rewrite Hpos).
    apply posenc_init_success_iff in Hok as [->|[_ He]]; [contradiction|exact He].
Qed.

(** C9, as the code has it: on an input longer than the table, [forward]
    raises a size mismatch and does not truncate, with two exceptions that
    return a result: a table of a single row is broadcast to every
    position; and a table without rows turns an input of a single position
    into an empty tensor of shape [B, 0, d_model]. *)
Theorem C9_longer_than_the_table
  (d_model max_len : nat) (p : PositionalEncoding.t) (x : rtensor) (B L : nat) :
  PositionalEncoding.init d_model max_len = Ok p ->
  shape x = [B; L; d_model] -> max_len < L ->
  (max_len <> 1 -> max_len <> 0 \/ L <> 1 ->
   PositionalEncoding.forward p x = Err (SizeMismatch L max_len)) /\
  (max_len = 1 ->
   PositionalEncoding.forward p x
   = Ok (add_single_row (PositionalEncoding.pe p) x)) /\
  (max_len = 0 -> L = 1 ->
   PositionalEncoding.forward p x = Ok (zeros [B; 0; d_model])).
Proof.
  intros Hinit Hx HL. apply posenc_init_inv in Hinit as [-> Hd].
  cbn [PositionalEncoding.pe]. split; [|split].
  - intros Hn1 Hn0.
    destruct (Nat.eq_dec max_len 0) as [->|Hn].
    + apply (@posenc_forward_no_rows_mismatch _ x B L d_model);
        [apply shape_pe_table | exact Hx | lia].
    + apply (@posenc_forward_mismatch _ x B L d_model max_len);
        [apply shape_pe_table | exact Hx | exact HL | lia].
  - intros ->.
    apply (@posenc_forward_single_row _ x B L d_model); auto. lia.
  - intros -> ->.
    apply (@posenc_forward_no_rows _ x B d_model);
      [apply shape_pe_table | exact Hx].
Qed.

(** ** patchify moves elements and computes nothing *)

Section Naturality.
Context {A B : Type} (f : A -> B) (d : A).

Lemma tget_emap (t : tensor A) (idx : list nat) :
  tget (f d) (emap f t) idx = f (tget d t idx).
Proof. unfold tget, emap. simpl. apply map_nth. Qed.

Lemma emap_tbuild (s : list nat) (h : list nat -> A) :
  emap f (tbuild s h) = tbuild s (fun idx => f (h idx)).
Proof. unfold emap, tbuild. simpl. now rewrite map_map. Qed.

Lemma unfold_emap (t : tensor A) (dim : Z) (sz step : nat) :
  unfold (f d) (emap f t) dim sz step = rmap (emap f) (unfold d t dim sz step).
Proof.
  unfold unfold, rank. cbn [shape emap].
  destruct (wrap_dim (length (shape t)) dim) as [k|e]; [|reflexivity].
  cbn [bind].
  destruct ((step =? 0) || (nth k (shape t) 0 <? sz)); [reflexivity|].
  cbn [rmap]. f_equal. unfold unfold_out. rewrite emap_tbuild.
  cbn [shape emap]. apply tbuild_ext. intros idx _. apply tget_emap.
Qed.

Lemma view_emap (t : tensor A) (spec : list (option nat)) :
  view (emap f t) spec = rmap (emap f) (view t spec).
Proof.
  unfold view. cbn [shape emap].
  destruct (view_shape (numel (shape t)) spec); reflexivity.
Qed.

Lemma patchify_with_emap (p pd : nat) (t : tensor A) :
  patchify_with (f d) p pd (emap f t) = rmap (emap f) (patchify_with d p pd t).
Proof.
  unfold patchify_with, size, rank. cbn [shape emap].
  destruct (wrap_dim (length (shape t)) 0) as [i|e]; [|reflexivity].
  cbn [bind]. rewrite unfold_emap.
  destruct (unfold d t 2 p p) as [rows|e]; [|reflexivity].
  cbn [bind rmap]. rewrite unfold_emap.
  destruct (unfold d rows 3 p p) as [patches|e]; [|reflexivity].
  cbn [bind rmap]. apply view_emap.
Qed.
End Naturality.

Lemma div_of_sum (a b r : nat) : r < b -> (a * b + r) / b = a.
Proof.
  intros H. symmetry. apply (Nat.div_unique _ _ a r); [exact H|]. lia.
Qed.

Lemma mod_of_sum (a b r : nat) : r < b -> (a * b + r) mod b = r.
Proof.
  intros H. symmetry. apply (Nat.mod_unique _ _ a r); [exact H|]. lia.
Qed.

(** The patches of the specification: entry [c p^2 + u p + v] of patch
    [i (W/p) + j] is the pixel of channel [c] at row [i p + u] and column
    [j p + v]. *)
Lemma spec_patchify_at {A} (d : A) (images : tensor A) (B C img p : nat)
  (b c i j u v : nat) :
  shape images = [B; C; img; img] ->
  b < B -> c < C -> i < img / p -> j < img / p -> u < p -> v < p ->
  tget d (Spec.patchify d p images)
    [b; i * (img / p) + j; c * (p * p) + u * p + v]
  = tget d images [b; c; i * p + u; j * p + v].
Proof.
  intros Hs Hb Hc Hi Hj Hu Hv. unfold Spec.patchify. rewrite Hs.
  cbn [nth]. rewrite tget_tbuild.
  - cbn [nth].
    assert (Huv : u * p + v < p * p) by nia.
    replace ((c * (p * p) + u * p + v) mod p) with v
      by (replace (c * (p * p) + u * p + v) with ((c * p + u) * p + v) by lia;
          now rewrite mod_of_sum).
    replace (c * (p * p) + u * p + v) with (c * (p * p) + (u * p + v)) by lia.
    rewrite (div_of_sum c Huv), (mod_of_sum c Huv).
    rewrite (div_of_sum u Hv).
    rewrite (div_of_sum i Hj), (mod_of_sum i Hj).
    reflexivity.
  - repeat (apply in_bounds_cons; split; [nia|]). reflexivity.
Qed.

(** C1, where the code departs from it.  For a constructed model whose
    [patch_size] divides [img_size] and a non-empty batch, [patchify]
    returns a tensor of shape [B, N, 3 p^2] as claimed; but the pixel of
    channel [c] at offset [u, v] of tile [i, j] is the entry number
    [((c s + i) s + j) p^2 + u p + v] of its image, with [s = img_size / p]:
    the tiles come channel by channel, and a row is made of three of them.
    The specification puts that pixel at entry [c p^2 + u p + v] of row
    [i s + j].  On the labelled image with [patch_size = 2] the first row of
    the code holds three tiles of channel 0, where the tile in the corner
    has the pixels 1, 2, 5, 6 of channel 0, 17, 18, 21, 22 of channel 1 and
    33, 34, 37, 38 of channel 2. *)
Theorem C1_patchify_rows_are_not_tiles :
  (forall (g : rng) (img_size patch_size d_model num_heads num_layers d_ff
           num_classes c0 c1 : nat) (m : TransformerEncoder.t)
          (x : rtensor) (B : nat),
     TransformerEncoder.init g img_size patch_size d_model num_heads
       num_layers d_ff num_classes c0 = Ok (m, c1) ->
     0 < img_size -> img_size mod patch_size = 0 ->
     shape x = [B; 3; img_size; img_size] -> 0 < B ->
     exists patches,
       TransformerEncoder.patchify m x = Ok patches /\
       shape patches = [B; (img_size / patch_size) ^ 2;
                        3 * patch_size * patch_size] /\
       forall b c i j u v,
         b < B -> c < 3 -> i < img_size / patch_size ->
         j < img_size / patch_size -> u < patch_size -> v < patch_size ->
         let q := ((c * (img_size / patch_size) + i) * (img_size / patch_size) + j)
                  * (patch_size * patch_size) + u * patch_size + v in
         rget patches [b; q / (3 * patch_size * patch_size);
                          q mod (3 * patch_size * patch_size)]
         = rget x [b; c; i * patch_size + u; j * patch_size + v] /\
         rget (Spec.patchify 0%R patch_size x)
           [b; i * (img_size / patch_size) + j;
               c * (patch_size * patch_size) + u * patch_size + v]
         = rget x [b; c; i * patch_size + u; j * patch_size + v]) /\
  patchify_with 0 2 12 image_4x4 = Ok patches_of_code /\
  Spec.patchify 0 2 image_4x4 = patches_of_spec /\
  firstn 12 (data patches_of_code) = [1; 2; 5; 6; 3; 4; 7; 8; 9; 10; 13; 14] /\
  firstn 12 (data patches_of_spec) = [1; 2; 5; 6; 17; 18; 21; 22; 33; 34; 37; 38] /\
  patchify_with 0 2 12 image_4x4 <> Ok (Spec.patchify 0 2 image_4x4) /\
  (forall m : TransformerEncoder.t,
     TransformerEncoder.patch_size m = 2 ->
     TransformerEncoder.patch_dim m = 12 ->
     TransformerEncoder.patchify m (emap INR image_4x4)
     = Ok (emap INR patches_of_code)).
Proof.
  assert (Hcode : patchify_with 0 2 12 image_4x4 = Ok patches_of_code)
    by (vm_compute; reflexivity).
  assert (Hspec : Spec.patchify 0 2 image_4x4 = patches_of_spec)
    by (vm_compute; reflexivity).
  split; [|repeat split; try assumption; try reflexivity].
  - intros g img p d h nl dff nc c0 c1 m x B Hinit Himg Hdiv Hx HB.
    apply encoder_init_inv in Hinit as (Hp & _ & _ & _ & Hm).
    assert (Hrows : 3 * (img / p * (img / p)) = 3 * (img / p) ^ 2)
      by (now rewrite Nat.pow_2_r).
    eexists. split; [|split].
    + destruct Hm as (Hps & _ & Hpd & _).
      unfold TransformerEncoder.patchify. rewrite Hps, Hpd.
      apply (@patchify_regroups _ 0%R p B 3 img x Hp Himg Hdiv Hx
               ((img / p) ^ 2)); [lia | exact Hrows].
    + reflexivity.
    + intros b c i j u v Hb Hc Hi Hj Hu Hv. cbv zeta. split.
      * now apply (@regrouped_at _ 0%R p B 3 img x Hp Himg Hdiv Hx
                     ((img / p) ^ 2) b c i j u v Hrows).
      * now apply (@spec_patchify_at _ 0%R x B 3 img p).
  - rewrite Hcode, Hspec. discriminate.
  - intros m Hp Hd. unfold TransformerEncoder.patchify. rewrite Hp, Hd.
    change 0%R with (INR 0).
    now rewrite (patchify_with_emap INR 0 2 12 image_4x4), Hcode.
Qed.

(** ** Counterexamples *)

(** C2 as stated fails: with [img_size = 224] and [patch_size = 15], which
    leaves a remainder of 14, construction succeeds, with 14 x 14 = 196
    patches of length 675. *)
Lemma C2_counterexample :
  exists m c',
    TransformerEncoder.init g0 224 15 256 8 6 1024 2 0 = Ok (m, c') /\
    224 mod 15 = 14 /\
    TransformerEncoder.num_patches m = 196 /\
    TransformerEncoder.patch_dim m = 675.
Proof.
  destruct (@encoder_init_ok g0 224 15 256 8 6 1024 2 0) as (m & c' & Hinit).
  - lia.
  - right. split; [lia|reflexivity].
  - right. split; [lia|reflexivity].
  - exists m, c'. split; [exact Hinit|].
    apply encoder_init_inv in Hinit as (_ & _ & _ & _ & Hfor).
    destruct Hfor as (_ & HN & Hpd & _).
    rewrite HN, Hpd. repeat split; reflexivity.
Qed.

(** C8 as stated fails: a batch of four 48 x 48 images with a single
    channel, given to a model built for [img_size = 48] and
    [patch_size = 16], is regrouped by [patchify] into 3 rows of length 768
    instead of 9 patches, and [forward] returns logits of shape [4, 2]. *)
Lemma C8_counterexample :
  exists m c' patches y,
    TransformerEncoder.init g0 48 16 256 8 6 1024 2 0 = Ok (m, c') /\
    TransformerEncoder.patchify m (zeros [4; 1; 48; 48]) = Ok patches /\
    shape patches = [4; 3; 768] /\
    TransformerEncoder.forward m (zeros [4; 1; 48; 48]) = Ok y /\
    shape y = [4; 2].
Proof.
  destruct (@encoder_init_ok g0 48 16 256 8 6 1024 2 0) as (m & c' & Hinit).
  - lia.
  - right. split; [lia|reflexivity].
  - right. split; [lia|reflexivity].
  - pose proof Hinit as Hinv.
    apply encoder_init_inv in Hinv as (Hp & Hd & _ & _ & Hm).
    destruct (@forward_regrouped m 48 16 256 1024 2 Hm Hp Hd
                ltac:(lia) eq_refl (zeros [4; 1; 48; 48]) 4 1 eq_refl 3)
      as (y & Hy & Hs); [lia|reflexivity|left; simpl; lia|].
    exists m, c', (Tensor [4; 3; 768] (data (unfolded 0%R 16 (zeros [4; 1; 48; 48])))), y.
    split; [exact Hinit|]. split; [|split; [reflexivity|split; assumption]].
    apply (@encoder_patchify_regroups m 48 16 256 1024 2 Hm Hp
             ltac:(lia) eq_refl (zeros [4; 1; 48; 48]) 4 1 eq_refl 3);
      [lia|reflexivity].
Qed.

(** C9 as stated fails: a table built with [max_len = 1] is added to an
    input of two positions without an error. *)
Lemma C9_counterexample :
  exists p y,
    PositionalEncoding.init 256 1 = Ok p /\
    PositionalEncoding.forward p (zeros [4; 2; 256]) = Ok y /\
    shape y = [4; 2; 256].
Proof.
  exists (PositionalEncoding.Build (pe_table 256 1)).
  exists (add_single_row (pe_table 256 1) (zeros [4; 2; 256])).
  split; [|split].
  - apply posenc_init_ok; [lia|left; reflexivity].
  - apply (@posenc_forward_single_row _ _ 4 2 256); [reflexivity|reflexivity|lia].
  - reflexivity.
Qed.

(** ** The theorems at concrete inputs *)

Lemma C1_witness :
  exists m c',
    TransformerEncoder.init g0 4 2 4 2 1 8 2 0 = Ok (m, c') /\
    exists patches,
      TransformerEncoder.patchify m (emap INR image_4x4) = Ok patches /\
      shape patches = [1; 4; 12] /\
      rget patches [0; 1; 4] = rget (emap INR image_4x4) [0; 1; 0; 0] /\
      rget (Spec.patchify 0%R 2 (emap INR image_4x4)) [0; 0; 4]
      = rget (emap INR image_4x4) [0; 1; 0; 0].
Proof.
  eexists _, _. split; [cbn; reflexivity|].
  destruct (proj1 C1_patchify_rows_are_not_tiles g0 4 2 4 2 1 8 2 0 _ _
              (emap INR image_4x4) 1 eq_refl)
    as (patches & Hpatches & Hshape & Hat); [lia | reflexivity | reflexivity | lia |].
  exists patches. split; [exact Hpatches|]. split; [exact Hshape|].
  apply (Hat 0 1 0 0 0 0); cbn; lia.
Defined.

Lemma C2_witness :
  exists m c',
    TransformerEncoder.init g0 224 15 256 8 6 1024 2 0 = Ok (m, c') /\
    TransformerEncoder.num_patches m = (224 / 15) ^ 2 /\
    TransformerEncoder.patch_dim m = 3 * 15 * 15.
Proof.
  apply (@C2_construction_rounds_down g0 224 15 256 8 6 1024 2 0);
    [discriminate | discriminate | reflexivity | discriminate | reflexivity].
Defined.

Lemma layer_example_state : layer_state 4 8 layer_example.
Proof. repeat split; try discriminate. Qed.

Lemma layer_example'_state : layer_state 4 8 layer_example'.
Proof. repeat split; try discriminate. Qed.

Lemma encoder_example_state : encoder_state 4 2 4 8 2 2 encoder_example.
Proof.
  split; [discriminate|]. split; [|split; [|split; [reflexivity|split]]].
  - repeat split; try discriminate.
    repeat constructor; try discriminate.
  - apply posenc_init_ok; [discriminate | left; reflexivity].
  - repeat constructor; try discriminate.
  - repeat split.
Qed.

Lemma C3_witness :
  exists patches y,
    TransformerEncoder.patchify encoder_example (zeros [2; 3; 4; 4]) = Ok patches /\
    shape patches = [2; 4; 12] /\
    TransformerEncoder.forward encoder_example (zeros [2; 3; 4; 4])
    = Spec.forward encoder_example patches /\
    TransformerEncoder.forward encoder_example (zeros [2; 3; 4; 4]) = Ok y /\
    shape y = [2; 2].
Proof.
  destruct (proj2 C3_forward_is_the_pipeline encoder_example 4 2 4 8 2 2
              (zeros [2; 3; 4; 4]) 2 encoder_example_state)
    as [_ Hforward]; [lia | reflexivity | reflexivity |].
  destruct Hforward as (patches & y & Hp & Hs & _ & Heq & Hy & Hsy); [lia|].
  exists patches, y. repeat split; assumption.
Defined.

Lemma C4_witness :
  exists w,
    MultiHeadAttention.attention_weights attention_zero
      (zeros [1; 2; 3; 2]) (zeros [1; 2; 3; 2]) = Ok w /\
    shape w = [1; 2; 3; 3] /\
    sum_over 3 (fun k => rget w [0; 1; 2; k]) = 1%R /\
    (0 <= rget w [0%nat; 1%nat; 2%nat; 0%nat] <= 1)%R.
Proof.
  destruct (@C4_attention_weights_row_stochastic attention_zero
              (zeros [1; 2; 3; 2]) (zeros [1; 2; 3; 2]) (zeros [1; 2; 3; 2])
              1 2 3 ltac:(cbn; lia) eq_refl eq_refl eq_refl)
    as (w & Hw & _ & Hs & Hrows).
  exists w. split; [exact Hw|]. split; [exact Hs|].
  destruct (Hrows 0 1 2) as [Hsum Hbounds]; [lia | lia | lia |].
  split; [exact Hsum|]. apply Hbounds. lia.
Defined.

Lemma C5_witness :
  EncoderLayer.forward layer_example (zeros [2; 3; 4])
  = Spec.encoder_layer layer_example (zeros [2; 3; 4]) /\
  exists y, EncoderLayer.forward layer_example (zeros [2; 3; 4]) = Ok y /\
            shape y = [2; 3; 4].
Proof.
  destruct (proj2 C5_encoder_layer_two_stages layer_example 4 8
              (zeros [2; 3; 4]) 2 3 layer_example_state eq_refl)
    as (Heq & Hshape & Hok).
  split; [exact Heq|].
  destruct Hok as (y & Hy); [lia | lia |].
  exists y. split; [exact Hy|]. exact (Hshape y Hy).
Defined.

Lemma C6_witness :
  exists p,
    PositionalEncoding.init 4 3 = Ok p /\
    rget (PositionalEncoding.pe p) [0; 1; 2] = sin (Spec.angle 4 1 1) /\
    rget (PositionalEncoding.pe p) [0; 1; 3] = cos (Spec.angle 4 1 1) /\
    PositionalEncoding.forward p (zeros [2; 3; 4])
    = Ok (Spec.add_positions (PositionalEncoding.pe p) (zeros [2; 3; 4])).
Proof.
  eexists. split; [reflexivity|].
  destruct (@C6_positional_encoding 4 3 _ eq_refl) as [Htable Hforward].
  destruct (Htable 1 1) as [Hsin Hcos]; [lia | simpl; lia |].
  split; [exact Hsin|]. split; [exact Hcos|].
  apply (Hforward (zeros [2; 3; 4]) 2 3); [reflexivity | lia].
Defined.

Lemma C7_witness :
  exists self c',
    MultiHeadAttention.init g0 4 2 0 = Ok (self, c') /\
    (exists y,
       MultiHeadAttention.forward self (zeros [2; 3; 4]) (zeros [2; 3; 4])
         (zeros [2; 3; 4]) = Ok y /\
       shape y = [2; 3; 4]) /\
    (s <- MultiHeadAttention.split_heads self 2 (zeros [2; 3; 4]) ;;
     MultiHeadAttention.concat_heads self 2 s) = Ok (zeros [2; 3; 4]).
Proof.
  destruct (@C7_attention_output_shape g0 4 2 0 2 3)
    as (self & c' & Hinit & Hforward & Hheads);
    [discriminate | reflexivity | lia | lia |].
  exists self, c'. split; [exact Hinit|]. split.
  - apply (Hforward (zeros [2; 3; 4]) (zeros [2; 3; 4]) (zeros [2; 3; 4]));
      reflexivity.
  - apply Hheads; [apply wf_tbuild | reflexivity].
Defined.

Lemma C8_witness :
  exists m c',
    TransformerEncoder.init g0 3 1 4 2 1 8 2 0 = Ok (m, c') /\
    exists y, TransformerEncoder.forward m (zeros [2; 1; 3; 3]) = Ok y /\
              shape y = [2; 2].
Proof.
  eexists _, _. split; [cbn; reflexivity|].
  destruct (@C8_channels_regrouped_without_error g0 3 1 4 2 1 8 2 0 _ _
              (zeros [2; 1; 3; 3]) 2 1 eq_refl) as [_ Hrows];
    [lia | reflexivity | reflexivity | lia | discriminate |].
  destruct (Hrows 3 eq_refl) as (_ & Hok & _).
  apply Hok. left. simpl. lia.
Defined.

Lemma C9_witness :
  exists p p0,
    PositionalEncoding.init 2 2 = Ok p /\
    PositionalEncoding.forward p (zeros [1; 3; 2]) = Err (SizeMismatch 3 2) /\
    PositionalEncoding.init 2 0 = Ok p0 /\
    PositionalEncoding.forward p0 (zeros [4; 2; 2]) = Err (SizeMismatch 2 0) /\
    PositionalEncoding.forward p0 (zeros [4; 1; 2]) = Ok (zeros [4; 0; 2]).
Proof.
  eexists _, _. split; [reflexivity|].
  destruct (@C9_longer_than_the_table 2 2 _ (zeros [1; 3; 2]) 1 3
              eq_refl eq_refl) as (Herr & _ & _); [lia|].
  split; [apply Herr; [discriminate | left; discriminate]|].
  split; [reflexivity|].
  destruct (@C9_longer_than_the_table 2 0 _ (zeros [4; 2; 2]) 4 2
              eq_refl eq_refl) as (Herr0 & _ & _); [lia|].
  split; [apply Herr0; [discriminate | right; discriminate]|].
  destruct (@C9_longer_than_the_table 2 0 _ (zeros [4; 1; 2]) 4 1
              eq_refl eq_refl) as (_ & _ & Hempty); [lia|].
  apply Hempty; reflexivity.
Defined.

(** * Further properties of the code

    ** TransformerEncoder.patchify on images of any height and width *)

Lemma window_count (n p : nat) : p <> 0 -> p <= n -> (n - p) / p + 1 = n / p.
Proof.
  intros Hp Hle.
  replace n with (1 * p + (n - p)) at 2 by lia.
  rewrite Nat.div_add_l by exact Hp. lia.
Qed.

Lemma windows_fit (n p i u : nat) : i < n / p -> u < p -> i * p + u < n.
Proof.
  intros Hi Hu. pose proof (Nat.Div0.mul_div_le n p). nia.
Qed.

Lemma in_bounds6 (a b c e f g : nat) (idx : list nat) :
  in_bounds [a; b; c; e; f; g] idx = true ->
  exists i j k l u v,
    idx = [i; j; k; l; u; v] /\ i < a /\ j < b /\ k < c /\ l < e /\ u < f /\ v < g.
Proof.
  destruct idx as [|i [|j [|k [|l [|u [|v [|w idx]]]]]]]; simpl;
    intros H; try discriminate;
    try (repeat (apply andb_true_iff in H as [? H]); discriminate).
  repeat (apply andb_true_iff in H as [?%Nat.ltb_lt H]).
  exists i, j, k, l, u, v. repeat split; auto.
Qed.

Section PatchifyAnySize.
Context {A : Type} (d : A).
Variables (p B C H W : nat) (images : tensor A).
Hypothesis Hp : p <> 0.
Hypothesis HH : p <= H.
Hypothesis HW : p <= W.
Hypothesis Hshape : shape images = [B; C; H; W].

Lemma shape_unfolded_any :
  shape (unfolded d p images) = [B; C; H / p; W / p; p; p].
Proof.
  unfold unfolded. rewrite !shape_unfold_out, Hshape.
  cbn [set_at nth app]. now rewrite !window_count.
Qed.

Lemma unfolded_any_at (b c i j u v : nat) :
  b < B -> c < C -> i < H / p -> j < W / p -> u < p -> v < p ->
  tget d (unfolded d p images) [b; c; i; j; u; v]
  = tget d images [b; c; i * p + u; j * p + v].
Proof.
  intros Hb Hc Hi Hj Hu Hv.
  unfold unfolded. rewrite tget_unfold_out.
  2: { change (in_bounds (shape (unfolded d p images)) [b; c; i; j; u; v] = true).
       rewrite shape_unfolded_any. bounds. }
  cbn [nth last removelast set_at].
  rewrite tget_unfold_out; [reflexivity|].
  rewrite shape_unfold_out, Hshape. cbn [nth set_at app].
  rewrite window_count by assumption.
  pose proof (@windows_fit W p j v Hj Hv).
  repeat (apply in_bounds_cons; split; [lia|]). reflexivity.
Qed.

(** The unfolded tensor, entry by entry. *)
Lemma unfolded_any_is :
  unfolded d p images
  = tbuild [B; C; H / p; W / p; p; p]
      (fun idx => tget d images [nth 0 idx 0; nth 1 idx 0;
                                 nth 2 idx 0 * p + nth 4 idx 0;
                                 nth 3 idx 0 * p + nth 5 idx 0]).
Proof.
  transitivity (tbuild (shape (unfolded d p images))
                  (tget d (unfolded d p images))).
  - symmetry. apply tbuild_tget. unfold unfolded, unfold_out. apply wf_tbuild.
  - rewrite shape_unfolded_any. apply tbuild_ext. intros idx Hb.
    apply in_bounds6 in Hb
      as (b & c & i & j & u & v & -> & Hb & Hc & Hi & Hj & Hu & Hv).
    cbn [nth]. now apply unfolded_any_at.
Qed.

Lemma patchify_any_is_view (pd : nat) :
  patchify_with d p pd images
  = view (unfolded d p images) [Some B; None; Some pd].
Proof.
  unfold patchify_with.
  rewrite size_at0 by (unfold rank; rewrite Hshape; simpl; lia).
  rewrite Hshape. cbn [nth bind].
  rewrite unfold_at2
    by (unfold rank; rewrite Hshape; simpl; lia).
  cbn [bind].
  rewrite unfold_at3
    by (unfold rank; rewrite shape_unfold_out, Hshape; simpl; lia).
  reflexivity.
Qed.

Lemma patchify_any_regroups (rows : nat) :
  B <> 0 -> C * (H / p * (W / p)) = 3 * rows ->
  patchify_with d p (3 * p * p) images
  = Ok (Tensor [B; rows; 3 * p * p] (data (unfolded d p images))).
Proof.
  intros HB Hrows. rewrite patchify_any_is_view.
  rewrite (@view_ok _ (unfolded d p images) rows); [reflexivity|reflexivity| |].
  - cbn [known_size]. nia.
  - rewrite shape_unfolded_any. cbn [numel known_size].
    replace (B * (C * (H / p * (W / p * (p * (p * 1))))))
      with (B * (C * (H / p * (W / p))) * (p * p)) by ring.
    rewrite Hrows. ring.
Qed.

Lemma patchify_any_empty_batch (pd : nat) :
  B = 0 -> patchify_with d p pd images = Err AmbiguousShape.
Proof.
  intros HB. rewrite patchify_any_is_view.
  apply view_ambiguous; [reflexivity| |].
  - cbn [known_size]. now rewrite HB.
  - rewrite shape_unfolded_any. cbn [numel]. now rewrite HB.
Qed.

End PatchifyAnySize.

(** An image lower or narrower than a patch has no window. *)
Lemma patchify_too_small {A} (d : A) (p pd B C H W : nat) (images : tensor A) :
  shape images = [B; C; H; W] -> H < p \/ (p <= H /\ W < p) ->
  patchify_with d p pd images
  = Err (UnfoldError (if H <? p then H else W) p p).
Proof.
  intros Hs Hsmall. unfold patchify_with.
  rewrite size_at0 by (unfold rank; rewrite Hs; simpl; lia).
  cbn [bind]. unfold unfold at 1.
  change 2%Z with (Z.of_nat 2).
  rewrite wrap_dim_nonneg by (unfold rank; rewrite Hs; simpl; lia).
  cbn [bind]. rewrite Hs. cbn [nth].
  destruct (Nat.ltb_spec H p) as [Hlt|Hge].
  - now rewrite orb_true_r.
  - destruct Hsmall as [?|[_ HW]]; [lia|].
    destruct (Nat.eqb_spec p 0) as [->|Hp]; [lia|].
    cbn [orb bind]. unfold unfold.
    change 3%Z with (Z.of_nat 3).
    rewrite wrap_dim_nonneg
      by (unfold rank; rewrite shape_unfold_out, Hs; simpl; lia).
    cbn [bind]. rewrite shape_unfold_out, Hs. cbn [nth set_at app].
    destruct (Nat.ltb_spec W p) as [_|?]; [|lia].
    destruct (Nat.eqb_spec p 0); [contradiction|]. reflexivity.
Qed.

(** Two batches of one shape that agree on the pixels the windows cover
    have the same patches, and the same error otherwise. *)
Lemma patchify_with_crop {A} (d : A) (p pd B C H W : nat) (x x' : tensor A) :
  shape x = [B; C; H; W] -> shape x' = [B; C; H; W] ->
  (forall b c r w, b < B -> c < C -> r < H / p * p -> w < W / p * p ->
                   tget d x [b; c; r; w] = tget d x' [b; c; r; w]) ->
  patchify_with d p pd x = patchify_with d p pd x'.
Proof.
  intros Hx Hx' Hagree.
  destruct (Nat.eq_dec p 0) as [->|Hp].
  - unfold patchify_with.
    rewrite !size_at0 by (unfold rank; rewrite ?Hx, ?Hx'; simpl; lia).
    cbn [bind]. unfold unfold.
    change 2%Z with (Z.of_nat 2).
    rewrite !wrap_dim_nonneg by (unfold rank; rewrite ?Hx, ?Hx'; simpl; lia).
    cbn [bind]. rewrite Hx, Hx'. reflexivity.
  - destruct (Nat.lt_ge_cases H p) as [Hlt|HH].
    { rewrite !(@patchify_too_small _ d p pd B C H W) by (auto; lia).
      reflexivity. }
    destruct (Nat.lt_ge_cases W p) as [Hlt|HW].
    { rewrite !(@patchify_too_small _ d p pd B C H W) by (auto; lia).
      reflexivity. }
    rewrite (@patchify_any_is_view _ d p B C H W x Hp HH HW Hx).
    rewrite (@patchify_any_is_view _ d p B C H W x' Hp HH HW Hx').
    f_equal.
    rewrite (@unfolded_any_is _ d p B C H W x Hp HH HW Hx).
    rewrite (@unfolded_any_is _ d p B C H W x' Hp HH HW Hx').
    apply tbuild_ext. intros idx Hb.
    apply in_bounds6 in Hb
      as (b & c & i & j & u & v & -> & Hb & Hc & Hi & Hj & Hu & Hv).
    cbn [nth]. apply Hagree; auto; nia.
Qed.

(** ** TransformerEncoder.forward on images of any height and width *)

Section ForwardAnySize.
Variables (m : TransformerEncoder.t) (img p d_model d_ff num_classes : nat).
Hypothesis Hm : encoder_for img p d_model d_ff num_classes m.
Hypothesis Hp : p <> 0.
Hypothesis Hd : d_model <> 0.

Variables (x : rtensor) (B C H W : nat).
Hypothesis Hx : shape x = [B; C; H; W].

Lemma encoder_patchify_any (rows : nat) :
  p <= H -> p <= W -> B <> 0 -> C * (H / p * (W / p)) = 3 * rows ->
  TransformerEncoder.patchify m x
  = Ok (Tensor [B; rows; 3 * p * p] (data (unfolded 0%R p x))).
Proof.
  intros HH HW HB Hrows. destruct Hm as (Hps & _ & Hpd & _).
  unfold TransformerEncoder.patchify. rewrite Hps, Hpd.
  now apply (@patchify_any_regroups _ 0%R p B C H W x).
Qed.

Lemma forward_any_fits (rows : nat) :
  p <= H -> p <= W -> 0 < B -> C * (H / p * (W / p)) = 3 * rows ->
  rows <= (img / p) ^ 2 \/ (img / p) ^ 2 = 1 ->
  exists y, TransformerEncoder.forward m x = Ok y /\
            shape y = [B; num_classes].
Proof.
  intros HH HW HB Hrows Hfit.
  change (TransformerEncoder.forward m x)
    with (patches <- TransformerEncoder.patchify m x ;;
          after_patchify m patches).
  rewrite (@encoder_patchify_any rows) by (auto; lia). cbn [bind].
  destruct (@tail_broadcast m img p d_model d_ff num_classes Hm B rows
              (Tensor [B; rows; 3 * p * p] (data (unfolded 0%R p x)))
              eq_refl Hfit) as (z & Hz & ->).
  destruct (@head_ok m img p d_model d_ff num_classes Hm B rows z Hz)
    as (y & Hy); [lia|lia|].
  exists y. split; [exact Hy|].
  exact (@head_shape m img p d_model d_ff num_classes Hm B rows z y Hz Hy).
Qed.

Lemma forward_any_overflow (rows : nat) :
  p <= H -> p <= W -> B <> 0 -> C * (H / p * (W / p)) = 3 * rows ->
  (img / p) ^ 2 < rows -> 2 <= (img / p) ^ 2 ->
  TransformerEncoder.forward m x = Err (SizeMismatch rows ((img / p) ^ 2)).
Proof.
  intros HH HW HB Hrows Hlt HN.
  change (TransformerEncoder.forward m x)
    with (patches <- TransformerEncoder.patchify m x ;;
          after_patchify m patches).
  rewrite (@encoder_patchify_any rows) by auto. cbn [bind].
  now apply (@tail_mismatch m img p d_model d_ff num_classes Hm B rows).
Qed.

Lemma forward_any_empty_batch :
  p <= H -> p <= W -> B = 0 ->
  TransformerEncoder.forward m x = Err AmbiguousShape.
Proof.
  intros HH HW HB. destruct Hm as (Hps & _ & Hpd & _).
  unfold TransformerEncoder.forward, TransformerEncoder.patchify.
  rewrite Hps, Hpd.
  now rewrite (@patchify_any_empty_batch _ 0%R p B C H W x).
Qed.

Lemma forward_any_too_small :
  H < p \/ (p <= H /\ W < p) ->
  TransformerEncoder.forward m x
  = Err (UnfoldError (if H <? p then H else W) p p).
Proof.
  intros Hsmall. destruct Hm as (Hps & _ & Hpd & _).
  unfold TransformerEncoder.forward, TransformerEncoder.patchify.
  rewrite Hps, Hpd.
  now rewrite (@patchify_too_small _ 0%R p (3 * p * p) B C H W x).
Qed.

End ForwardAnySize.

(** X1: a constructed model does not compare the height and width of its
    input with [img_size].  On a non-empty batch of three-channel images
    of any height [H] and width [W] of at least [patch_size], [forward]
    returns logits of shape [B, num_classes] when the number of windows
    [(H // p) * (W // p)] is at most [num_patches] (or [num_patches] is 1),
    and raises the size mismatch of the positional addition when it is
    more than a [num_patches] of 2 or more. *)
Theorem X1_forward_accepts_other_sizes
  (g : rng) (img_size patch_size d_model num_heads num_layers d_ff num_classes : nat)
  (c c' : nat) (m : TransformerEncoder.t) (x : rtensor) (B H W : nat) :
  TransformerEncoder.init g img_size patch_size d_model num_heads num_layers
    d_ff num_classes c = Ok (m, c') ->
  shape x = [B; 3; H; W] -> 0 < B -> patch_size <= H -> patch_size <= W ->
  (H / patch_size * (W / patch_size) <= (img_size / patch_size) ^ 2
   \/ (img_size / patch_size) ^ 2 = 1 ->
   exists y, TransformerEncoder.forward m x = Ok y /\
             shape y = [B; num_classes]) /\
  ((img_size / patch_size) ^ 2 < H / patch_size * (W / patch_size) ->
   2 <= (img_size / patch_size) ^ 2 ->
   TransformerEncoder.forward m x
   = Err (SizeMismatch (H / patch_size * (W / patch_size))
            ((img_size / patch_size) ^ 2))).
Proof.
  intros Hinit Hx HB HH HW.
  apply encoder_init_inv in Hinit as (Hp & Hd & _ & _ & Hm).
  split.
  - intros Hfit.
    eapply forward_any_fits; eauto.
  - intros Hlt HN.
    eapply forward_any_overflow; eauto; lia.
Qed.

Lemma X1_witness :
  exists m c',
    TransformerEncoder.init g0 4 2 4 2 1 8 2 0 = Ok (m, c') /\
    exists y, TransformerEncoder.forward m (zeros [2; 3; 2; 5]) = Ok y /\
              shape y = [2; 2].
Proof.
  eexists _, _. split; [cbn; reflexivity|].
  destruct (@X1_forward_accepts_other_sizes g0 4 2 4 2 1 8 2 0 _ _
              (zeros [2; 3; 2; 5]) 2 2 5 eq_refl eq_refl)
    as [Hfit _]; [lia | lia | lia |].
  apply Hfit. left. cbn. lia.
Defined.

(** X2: [forward] reads only the pixels that the windows cover.  Two
    batches of one shape that agree on the first [(H // p) * p] rows and
    [(W // p) * p] columns of every channel give the same result (or the
    same error): the remaining [H mod p] rows and [W mod p] columns are
    dropped without notice. *)
Theorem X2_forward_ignores_remainder_pixels
  (g : rng) (img_size patch_size d_model num_heads num_layers d_ff num_classes : nat)
  (c c' : nat) (m : TransformerEncoder.t) (x x' : rtensor) (B C H W : nat) :
  TransformerEncoder.init g img_size patch_size d_model num_heads num_layers
    d_ff num_classes c = Ok (m, c') ->
  shape x = [B; C; H; W] -> shape x' = [B; C; H; W] ->
  (forall b ch r w,
     b < B -> ch < C -> r < H / patch_size * patch_size ->
     w < W / patch_size * patch_size ->
     rget x [b; ch; r; w] = rget x' [b; ch; r; w]) ->
  TransformerEncoder.patchify m x = TransformerEncoder.patchify m x' /\
  TransformerEncoder.forward m x = TransformerEncoder.forward m x'.
Proof.
  intros Hinit Hx Hx' Hagree.
  apply encoder_init_inv in Hinit as (_ & _ & _ & _ & Hm).
  destruct Hm as (Hps & _).
  assert (Hpatch : TransformerEncoder.patchify m x
                   = TransformerEncoder.patchify m x').
  { unfold TransformerEncoder.patchify. rewrite Hps.
    now apply (@patchify_with_crop _ 0%R patch_size _ B C H W). }
  split; [exact Hpatch|].
  unfold TransformerEncoder.forward. now rewrite Hpatch.
Qed.

Lemma framed_5x5_inside (b ch r w : nat) :
  b < 1 -> ch < 3 -> r < 4 -> w < 4 ->
  rget (zeros [1; 3; 5; 5]) [b; ch; r; w] = rget framed_5x5 [b; ch; r; w].
Proof.
  intros Hb Hc Hr Hw. unfold zeros, framed_5x5.
  rewrite !rget_tbuild by bounds. cbn [nth].
  destruct (Nat.eqb_spec r 4); [lia|].
  destruct (Nat.eqb_spec w 4); [lia|]. reflexivity.
Qed.

Lemma X2_witness :
  exists m c',
    TransformerEncoder.init g0 5 2 4 2 1 8 2 0 = Ok (m, c') /\
    rget (zeros [1; 3; 5; 5]) [0; 0; 4; 4] <> rget framed_5x5 [0; 0; 4; 4] /\
    TransformerEncoder.forward m (zeros [1; 3; 5; 5])
    = TransformerEncoder.forward m framed_5x5.
Proof.
  eexists _, _. split; [cbn; reflexivity|]. split.
  - unfold zeros, framed_5x5. rewrite !rget_tbuild by bounds. cbn. lra.
  - apply (@X2_forward_ignores_remainder_pixels g0 5 2 4 2 1 8 2 0 _ _
             (zeros [1; 3; 5; 5]) framed_5x5 1 3 5 5 eq_refl eq_refl eq_refl).
    intros b ch r w Hb Hc Hr Hw. apply framed_5x5_inside; auto.
Defined.

(** X3: construction accepts a [patch_size] larger than [img_size]: the
    model then has [num_patches = 0], and [forward] raises in the first
    [unfold] on every input of the configured size. *)
Theorem X3_patch_larger_than_image
  (g : rng) (img_size patch_size d_model num_heads num_layers d_ff num_classes : nat)
  (c c' : nat) (m : TransformerEncoder.t) :
  TransformerEncoder.init g img_size patch_size d_model num_heads num_layers
    d_ff num_classes c = Ok (m, c') ->
  img_size < patch_size ->
  TransformerEncoder.num_patches m = 0 /\
  forall (x : rtensor) (B C : nat),
    shape x = [B; C; img_size; img_size] ->
    TransformerEncoder.forward m x
    = Err (UnfoldError img_size patch_size patch_size).
Proof.
  intros Hinit Hlt.
  apply encoder_init_inv in Hinit as (Hp & Hd & _ & _ & Hm).
  split.
  - destruct Hm as (_ & -> & _). now rewrite Nat.div_small.
  - intros x B C Hx.
    erewrite forward_any_too_small; eauto.
    destruct (Nat.ltb_spec img_size patch_size); [reflexivity|lia].
Qed.

Lemma X3_witness :
  exists m c',
    TransformerEncoder.init g0 4 8 4 2 1 8 2 0 = Ok (m, c') /\
    TransformerEncoder.num_patches m = 0 /\
    TransformerEncoder.forward m (zeros [2; 3; 4; 4]) = Err (UnfoldError 4 8 8).
Proof.
  eexists _, _. split; [cbn; reflexivity|].
  destruct (@X3_patch_larger_than_image g0 4 8 4 2 1 8 2 0 _ _ eq_refl)
    as [HN Hforward]; [lia|].
  split; [exact HN|]. exact (Hforward (zeros [2; 3; 4; 4]) 2 3 eq_refl).
Defined.

(** X4: an empty batch is an error, not an empty result.  On an input of
    shape [0, C, H, W] with [H] and [W] of at least [patch_size],
    [patchify] and so [forward] raise in [view]: with a batch size of 0
    the dimension given as -1 cannot be inferred. *)
Theorem X4_forward_empty_batch
  (g : rng) (img_size patch_size d_model num_heads num_layers d_ff num_classes : nat)
  (c c' : nat) (m : TransformerEncoder.t) (x : rtensor) (C H W : nat) :
  TransformerEncoder.init g img_size patch_size d_model num_heads num_layers
    d_ff num_classes c = Ok (m, c') ->
  shape x = [0; C; H; W] -> patch_size <= H -> patch_size <= W ->
  TransformerEncoder.patchify m x = Err AmbiguousShape /\
  TransformerEncoder.forward m x = Err AmbiguousShape.
Proof.
  intros Hinit Hx HH HW.
  apply encoder_init_inv in Hinit as (Hp & Hd & _ & _ & Hm).
  assert (Hf : TransformerEncoder.forward m x = Err AmbiguousShape)
    by (eapply forward_any_empty_batch; eauto).
  split; [|exact Hf].
  unfold TransformerEncoder.forward in Hf.
  destruct (TransformerEncoder.patchify m x) as [y|e] eqn:E.
  - exfalso. destruct Hm as (Hps & _ & Hpd & _).
    unfold TransformerEncoder.patchify in E. rewrite Hps, Hpd in E.
    rewrite (@patchify_any_empty_batch _ 0%R patch_size 0 C H W x) in E
      by auto.
    discriminate.
  - cbn [bind] in Hf. exact Hf.
Qed.

Lemma X4_witness :
  exists m c',
    TransformerEncoder.init g0 4 2 4 2 1 8 2 0 = Ok (m, c') /\
    TransformerEncoder.forward m (zeros [0; 3; 4; 4]) = Err AmbiguousShape.
Proof.
  eexists _, _. split; [cbn; reflexivity|].
  apply (@X4_forward_empty_batch g0 4 2 4 2 1 8 2 0 _ _
           (zeros [0; 3; 4; 4]) 3 4 4 eq_refl eq_refl); lia.
Defined.

(** ** patchify loses nothing *)

Lemma tensor_eq {A} (t t' : tensor A) :
  shape t = shape t' -> data t = data t' -> t = t'.
Proof. destruct t, t'. simpl. now intros -> ->. Qed.

Lemma unfolded_wf {A} (d : A) (p : nat) (t : tensor A) : wf (unfolded d p t).
Proof. unfold unfolded, unfold_out. apply wf_tbuild. Qed.

(** X5: when [patch_size] divides the height and the width, [patchify]
    only rearranges the pixels: two batches of one shape with the same
    patches are the same batch. *)
Theorem X5_patchify_is_injective
  (g : rng) (img_size patch_size d_model num_heads num_layers d_ff num_classes : nat)
  (c c' : nat) (m : TransformerEncoder.t) (x x' y : rtensor) (B C H W : nat) :
  TransformerEncoder.init g img_size patch_size d_model num_heads num_layers
    d_ff num_classes c = Ok (m, c') ->
  wf x -> wf x' -> shape x = [B; C; H; W] -> shape x' = [B; C; H; W] ->
  H mod patch_size = 0 -> W mod patch_size = 0 ->
  TransformerEncoder.patchify m x = Ok y ->
  TransformerEncoder.patchify m x' = Ok y ->
  x = x'.
Proof.
  intros Hinit Hwf Hwf' Hx Hx' HdH HdW Hy Hy'.
  apply encoder_init_inv in Hinit as (Hp & _ & _ & _ & Hm).
  destruct Hm as (Hps & _ & Hpd & _).
  unfold TransformerEncoder.patchify in Hy, Hy'. rewrite Hps, Hpd in Hy, Hy'.
  set (p := patch_size) in *.
  destruct (Nat.lt_ge_cases H p) as [Hlt|HH].
  { rewrite (@patchify_too_small _ 0%R p _ B C H W x) in Hy by (auto; lia).
    discriminate. }
  destruct (Nat.lt_ge_cases W p) as [Hlt|HW].
  { rewrite (@patchify_too_small _ 0%R p _ B C H W x) in Hy by (auto; lia).
    discriminate. }
  rewrite (@patchify_any_is_view _ 0%R p B C H W x Hp HH HW Hx) in Hy.
  rewrite (@patchify_any_is_view _ 0%R p B C H W x' Hp HH HW Hx') in Hy'.
  unfold view in Hy, Hy'.
  rewrite (@shape_unfolded_any _ 0%R p B C H W x Hp HH HW Hx) in Hy.
  rewrite (@shape_unfolded_any _ 0%R p B C H W x' Hp HH HW Hx') in Hy'.
  destruct (view_shape _ _) as [s|e]; [|discriminate].
  cbn [bind] in Hy, Hy'. injection Hy as <-. injection Hy' as Hdata.
  assert (Hu : unfolded 0%R p x' = unfolded 0%R p x).
  { apply tensor_eq; [|exact Hdata].
    rewrite (@shape_unfolded_any _ 0%R p B C H W x Hp HH HW Hx).
    now rewrite (@shape_unfolded_any _ 0%R p B C H W x' Hp HH HW Hx'). }
  rewrite <- (tbuild_tget 0%R Hwf), <- (tbuild_tget 0%R Hwf').
  rewrite Hx, Hx'. apply tbuild_ext. intros idx Hb.
  apply in_bounds4 in Hb as (b & ch & r & w & -> & Hb & Hc & Hr & Hw).
  assert (HHp : H / p * p = H)
    by (pose proof (Nat.div_mod_eq H p); lia).
  assert (HWp : W / p * p = W)
    by (pose proof (Nat.div_mod_eq W p); lia).
  assert (Hri : r / p < H / p)
    by (apply Nat.Div0.div_lt_upper_bound; lia).
  assert (Hwj : w / p < W / p)
    by (apply Nat.Div0.div_lt_upper_bound; lia).
  assert (Hru : r mod p < p) by (now apply Nat.mod_upper_bound).
  assert (Hwv : w mod p < p) by (now apply Nat.mod_upper_bound).
  assert (Er : r / p * p + r mod p = r)
    by (pose proof (Nat.div_mod_eq r p); lia).
  assert (Ew : w / p * p + w mod p = w)
    by (pose proof (Nat.div_mod_eq w p); lia).
  rewrite <- Er, <- Ew.
  rewrite <- (@unfolded_any_at _ 0%R p B C H W x Hp HH HW Hx
                b ch (r / p) (w / p) (r mod p) (w mod p)) by assumption.
  rewrite <- (@unfolded_any_at _ 0%R p B C H W x' Hp HH HW Hx'
                b ch (r / p) (w / p) (r mod p) (w mod p)) by assumption.
  now rewrite Hu.
Qed.

Lemma X5_witness :
  exists m c' y,
    TransformerEncoder.init g0 4 2 4 2 1 8 2 0 = Ok (m, c') /\
    TransformerEncoder.patchify m (emap INR image_4x4) = Ok y /\
    forall x' : rtensor,
      wf x' -> shape x' = [1; 3; 4; 4] ->
      TransformerEncoder.patchify m x' = Ok y -> emap INR image_4x4 = x'.
Proof.
  destruct (TransformerEncoder.init g0 4 2 4 2 1 8 2 0) as [[m c']|e] eqn:Hinit;
    [|cbn in Hinit; discriminate].
  pose proof Hinit as Hinv.
  apply encoder_init_inv in Hinv as (Hp & Hd & _ & _ & Hm).
  exists m, c'. eexists. split; [reflexivity|].
  assert (Hy : TransformerEncoder.patchify m (emap INR image_4x4)
               = Ok (Tensor [1; 4; 3 * 2 * 2]
                       (data (unfolded 0%R 2 (emap INR image_4x4))))).
  { eapply encoder_patchify_any with (H := 4) (W := 4) (C := 3);
      eauto; (lia || reflexivity). }
  split; [exact Hy|].
  intros x' Hwf' Hx' Hy'.
  eapply X5_patchify_is_injective;
    [ exact Hinit | reflexivity | exact Hwf' | reflexivity | exact Hx'
    | reflexivity | reflexivity | exact Hy | exact Hy' ].
Defined.

(** ** Which configurations construct *)

Lemma attention_init_zero_heads (g : rng) (d c : nat) :
  MultiHeadAttention.init g d 0 c = Err ZeroDivisionError.
Proof. reflexivity. Qed.

Lemma attention_init_not_divisor (g : rng) (d h c : nat) :
  h <> 0 -> d mod h <> 0 ->
  MultiHeadAttention.init g d h c = Err AssertionError.
Proof.
  intros Hh Hm. unfold MultiHeadAttention.init, bindM, liftM, pymod, assert.
  destruct (Nat.eqb_spec h 0) as [|_]; [contradiction|].
  destruct (Nat.eqb_spec (d mod h) 0) as [|_]; [contradiction|]. reflexivity.
Qed.

Lemma EncoderLayer_init_err (g : rng) (d h d_ff c : nat) (e : error) :
  MultiHeadAttention.init g d h c = Err e ->
  EncoderLayer.init g d h d_ff c = Err e.
Proof.
  intros H. unfold EncoderLayer.init. unfold bindM at 1. now rewrite H.
Qed.

Lemma replicateM_first {A} (m : M A) (n c c' : nat) (l : list A) :
  replicateM n m c = Ok (l, c') -> n <> 0 ->
  exists a c1, m c = Ok (a, c1).
Proof.
  destruct n as [|n]; [intros _ H; contradiction|].
  intros H _. cbn [replicateM] in H.
  apply bindM_inv in H as (a & c1 & Ha & _). now exists a, c1.
Qed.

Lemma encoder_init_layers
  (g : rng) (img p d h nl d_ff nc c c' : nat) (m : TransformerEncoder.t) :
  TransformerEncoder.init g img p d h nl d_ff nc c = Ok (m, c') ->
  nl = 0 \/ (h <> 0 /\ d mod h = 0).
Proof.
  unfold TransformerEncoder.init. intros H.
  apply bindM_inv in H as (side & c1 & _ & H).
  apply bindM_inv in H as (emb & c2 & _ & H).
  apply bindM_inv in H as (pos & c3 & _ & H).
  apply bindM_inv in H as (layers & c4 & Hlayers & _).
  destruct (Nat.eq_dec nl 0) as [|Hnl]; [now left|right].
  destruct (@replicateM_first _ _ _ _ _ _ Hlayers Hnl) as (a & c5 & Ha).
  apply EncoderLayer_init_inv in Ha as (Hh & Hm & _). auto.
Qed.

(** The steps of [TransformerEncoder.__init__] before the encoder layers. *)
Lemma encoder_init_prefix (g : rng) (img p d h nl d_ff nc c : nat) :
  p <> 0 ->
  TransformerEncoder.init g img p d h nl d_ff nc c
  = match PositionalEncoding.init d ((img / p) ^ 2) with
    | Err e => Err e
    | Ok posenc =>
        match replicateM nl (EncoderLayer.init g d h d_ff)
                (c + d * (3 * p * p) + d) with
        | Err e => Err e
        | Ok (layers, c1) =>
            match Linear.init g d nc c1 with
            | Err e => Err e
            | Ok (fc, c2) =>
                match Linear.init g (3 * p * p) d c with
                | Err e => Err e
                | Ok (emb, _) =>
                    Ok (TransformerEncoder.Build p ((img / p) ^ 2) (3 * p * p)
                          emb posenc layers (LayerNorm.init d) fc, c2)
                end
            end
        end
    end.
Proof.
  intros Hp. unfold TransformerEncoder.init, floordiv.
  destruct (Nat.eqb_spec p 0) as [|_]; [contradiction|].
  unfold bindM at 1. cbn [liftM].
  destruct (Linear_init_inv g (3 * p * p) d c) as (emb & Hemb & _).
  unfold bindM at 1. rewrite Hemb.
  unfold bindM at 1.
  destruct (PositionalEncoding.init d ((img / p) ^ 2)) as [pos|e];
    cbn [liftM]; [|reflexivity].
  unfold bindM at 1.
  destruct (replicateM nl _ _) as [[layers c1]|e]; [|reflexivity].
  unfold bindM at 1.
  destruct (Linear.init g d nc c1) as [[fc c2]|e]; reflexivity.
Qed.

(** X6: [MultiHeadAttention.__init__] raises ZeroDivisionError for
    [num_heads = 0] (the modulo is evaluated before the assertion can
    fail), AssertionError for a [num_heads] that does not divide
    [d_model], and otherwise returns a module with the given [num_heads]
    and [d_k = d_model // num_heads], so that [num_heads * d_k = d_model]. *)
Theorem X6_attention_init_cases (g : rng) (d_model num_heads c : nat) :
  (num_heads = 0 ->
   MultiHeadAttention.init g d_model num_heads c = Err ZeroDivisionError) /\
  (num_heads <> 0 -> d_model mod num_heads <> 0 ->
   MultiHeadAttention.init g d_model num_heads c = Err AssertionError) /\
  (num_heads <> 0 -> d_model mod num_heads = 0 ->
   exists self c',
     MultiHeadAttention.init g d_model num_heads c = Ok (self, c') /\
     MultiHeadAttention.num_heads self = num_heads /\
     MultiHeadAttention.d_k self = d_model / num_heads /\
     MultiHeadAttention.num_heads self * MultiHeadAttention.d_k self = d_model).
Proof.
  split; [|split].
  - intros ->. apply attention_init_zero_heads.
  - apply attention_init_not_divisor.
  - intros Hh Hm.
    destruct (@attention_init_ok g d_model num_heads c Hh Hm)
      as (self & c' & Hinit).
    exists self, c'. split; [exact Hinit|].
    apply attention_init_inv in Hinit as (_ & _ & Hfor & Hn & Hk).
    repeat split; auto. apply Hfor.
Qed.

(** X7: the configurations [TransformerEncoder.__init__] accepts.
    Construction succeeds exactly when [patch_size] is not 0, [d_model] is
    1 or a positive even number, and, if there is at least one layer,
    [num_heads] is a positive divisor of [d_model].  Nothing is asked of
    [img_size], [d_ff] or [num_classes], and with [num_layers = 0]
    nothing is asked of [num_heads]. *)
Theorem X7_encoder_init_succeeds_iff
  (g : rng) (img_size patch_size d_model num_heads num_layers d_ff num_classes
     c : nat) :
  is_ok (TransformerEncoder.init g img_size patch_size d_model num_heads
           num_layers d_ff num_classes c) = true
  <-> patch_size <> 0 /\
      (d_model = 1 \/ (d_model <> 0 /\ Nat.even d_model = true)) /\
      (num_layers = 0 \/ (num_heads <> 0 /\ d_model mod num_heads = 0)).
Proof.
  split.
  - intros Hok.
    destruct (TransformerEncoder.init _ _ _ _ _ _ _ _ _) as [[m c']|e] eqn:Hinit;
      [|discriminate].
    pose proof (@encoder_init_layers _ _ _ _ _ _ _ _ _ _ _ Hinit) as Hl.
    apply encoder_init_inv in Hinit as (Hp & _ & Hpos & _).
    repeat split; auto.
    apply (posenc_init_success_iff d_model ((img_size / patch_size) ^ 2)).
    now rewrite Hpos.
  - intros (Hp & Hd & Hl).
    destruct (@encoder_init_ok g img_size patch_size d_model num_heads
                num_layers d_ff num_classes c Hp Hd Hl) as (m & c' & ->).
    reflexivity.
Qed.

(** X8: the exception [TransformerEncoder.__init__] raises is that of the
    first step that fails: ZeroDivisionError for [patch_size = 0], then
    ZeroDivisionError for [d_model = 0] (in the positional table), and,
    once the positional table is built and there is at least one layer,
    ZeroDivisionError for [num_heads = 0] and AssertionError for a
    [num_heads] that does not divide [d_model]. *)
Theorem X8_encoder_init_first_error
  (g : rng) (img_size patch_size d_model num_heads num_layers d_ff num_classes
     c : nat) :
  (patch_size = 0 ->
   TransformerEncoder.init g img_size patch_size d_model num_heads num_layers
     d_ff num_classes c = Err ZeroDivisionError) /\
  (patch_size <> 0 -> d_model = 0 ->
   TransformerEncoder.init g img_size patch_size d_model num_heads num_layers
     d_ff num_classes c = Err ZeroDivisionError) /\
  (patch_size <> 0 ->
   d_model = 1 \/ (d_model <> 0 /\ Nat.even d_model = true) ->
   num_layers <> 0 ->
   (num_heads = 0 ->
    TransformerEncoder.init g img_size patch_size d_model num_heads num_layers
      d_ff num_classes c = Err ZeroDivisionError) /\
   (num_heads <> 0 -> d_model mod num_heads <> 0 ->
    TransformerEncoder.init g img_size patch_size d_model num_heads num_layers
      d_ff num_classes c = Err AssertionError)).
Proof.
  split; [|split].
  - intros ->. reflexivity.
  - intros Hp ->. rewrite encoder_init_prefix by exact Hp.
    now rewrite posenc_init_zero.
  - intros Hp Hd Hnl.
    assert (Hpos : exists pos,
               PositionalEncoding.init d_model ((img_size / patch_size) ^ 2)
               = Ok pos).
    { apply (proj2 (posenc_init_success_iff d_model ((img_size / patch_size) ^ 2)))
        in Hd.
      destruct (PositionalEncoding.init _ _); [eauto|discriminate]. }
    destruct Hpos as (pos & Hpos).
    split.
    + intros ->. rewrite encoder_init_prefix, Hpos by exact Hp.
      rewrite (@replicateM_err _ _ ZeroDivisionError); auto.
    + intros Hh Hm. rewrite encoder_init_prefix, Hpos by exact Hp.
      rewrite (@replicateM_err _ _ AssertionError); auto.
      intros c0. apply EncoderLayer_init_err.
      now apply attention_init_not_divisor.
Qed.

(** ** The entries of the numeric operations *)

Lemma sum_over_ext (n : nat) (f g : nat -> R) :
  (forall c, c < n -> f c = g c) -> sum_over n f = sum_over n g.
Proof.
  intros H. unfold sum_over. f_equal. apply map_ext_in.
  intros c Hc. apply in_seq in Hc. apply H. lia.
Qed.

Lemma Rsum_map_le (f g : nat -> R) (l : list nat) :
  (forall k, In k l -> (f k <= g k)%R) ->
  (Rsum (map f l) <= Rsum (map g l))%R.
Proof.
  induction l as [|a l IH]; intros H; simpl; [lra|].
  pose proof (H a (or_introl eq_refl)).
  assert (Rsum (map f l) <= Rsum (map g l))%R
    by (apply IH; intros k Hk; apply H; now right).
  lra.
Qed.

Lemma sum_over_le (n : nat) (f g : nat -> R) :
  (forall k, k < n -> (f k <= g k)%R) -> (sum_over n f <= sum_over n g)%R.
Proof.
  intros H. apply Rsum_map_le. intros k Hk. apply in_seq in Hk. apply H. lia.
Qed.

Lemma sum_over_scale (n : nat) (f : nat -> R) (c : R) :
  sum_over n (fun k => f k * c)%R = (sum_over n f * c)%R.
Proof. apply Rsum_map_scale. Qed.

(** A sum with weights that are not negative and add up to 1 lies between
    any two bounds of its terms. *)
Lemma weighted_mean_bounds (n : nat) (w v : nat -> R) (lo hi : R) :
  (forall k, k < n -> (0 <= w k)%R) -> sum_over n w = 1%R ->
  (forall k, k < n -> (lo <= v k <= hi)%R) ->
  (lo <= sum_over n (fun k => w k * v k) <= hi)%R.
Proof.
  intros Hw Hsum Hv. split.
  - replace lo with (sum_over n w * lo)%R by (rewrite Hsum; ring).
    rewrite <- sum_over_scale. apply sum_over_le. intros k Hk.
    apply Rmult_le_compat_l; [now apply Hw | now apply Hv].
  - replace hi with (sum_over n w * hi)%R by (rewrite Hsum; ring).
    rewrite <- sum_over_scale. apply sum_over_le. intros k Hk.
    apply Rmult_le_compat_l; [now apply Hw | now apply Hv].
Qed.

Lemma rget_linear_out3 (x W bias : rtensor) (B L i o b l j : nat) :
  shape x = [B; L; i] -> shape W = [o; i] -> b < B -> l < L -> j < o ->
  rget (linear_out x W bias) [b; l; j]
  = (sum_over i (fun c => rget x [b; l; c] * rget W [j; c]) + rget bias [j])%R.
Proof.
  intros Hx HW Hb Hl Hj. unfold linear_out.
  rewrite rget_tbuild by (rewrite Hx, HW; cbn [removelast app nth]; bounds).
  rewrite HW. reflexivity.
Qed.

Lemma wf_linear_out (x W bias : rtensor) : wf (linear_out x W bias).
Proof. apply wf_tbuild. Qed.

Lemma rget_relu (t : rtensor) (idx : list nat) :
  wf t -> in_bounds (shape t) idx = true ->
  rget (relu t) idx = Rmax 0 (rget t idx).
Proof. apply rget_tmap. Qed.

Lemma rget_matmul4 (a b : rtensor) (B H L M N b0 h i j : nat) :
  shape a = [B; H; L; M] -> shape b = [B; H; M; N] ->
  b0 < B -> h < H -> i < L -> j < N ->
  rget (matmul_out [B; H] a b) [b0; h; i; j]
  = sum_over M (fun c => rget a [b0; h; i; c] * rget b [b0; h; c; j])%R.
Proof.
  intros Ha Hb Hb0 Hh Hi Hj. unfold matmul_out.
  rewrite rget_tbuild
    by (unfold rank; rewrite Ha, Hb; cbn [length Nat.sub nth last app]; bounds).
  rewrite Ha, Hb. cbn [length firstn nth last batch_dims Nat.sub].
  rewrite !bcast_index_id by bounds. reflexivity.
Qed.

Lemma rget_transpose23 (t : rtensor) (B H L M b h i j : nat) :
  shape t = [B; H; L; M] -> b < B -> h < H -> i < M -> j < L ->
  rget (transpose_out 0%R 2 3 t) [b; h; i; j] = rget t [b; h; j; i].
Proof.
  intros Ht Hb Hh Hi Hj. unfold transpose_out.
  rewrite rget_tbuild
    by (rewrite Ht; cbn [swap_at length seq map nth Nat.eqb]; bounds).
  reflexivity.
Qed.

(** ** Scaled dot-product attention, entry by entry *)

Lemma attention_weights_entries
  (self : MultiHeadAttention.t) (Q K : rtensor) (B H L L' : nat) :
  shape Q = [B; H; L; MultiHeadAttention.d_k self] ->
  shape K = [B; H; L'; MultiHeadAttention.d_k self] ->
  exists w,
    MultiHeadAttention.attention_weights self Q K = Ok w /\
    shape w = [B; H; L; L'] /\
    forall b h q k, b < B -> h < H -> q < L -> k < L' ->
      rget w [b; h; q; k]
      = (exp (score (MultiHeadAttention.d_k self) Q K b h q k)
         / sum_over L'
             (fun c => exp (score (MultiHeadAttention.d_k self) Q K b h q c)))%R.
Proof.
  intros HQ HK.
  unfold MultiHeadAttention.attention_weights.
  rewrite (@transpose_ok _ 0%R K (-2) (-1) 2 3) by (shapes; reflexivity).
  cbn [bind].
  rewrite (@matmul_ok Q _ [B; H]).
  2,3: shapes; lia.
  2: shapes; reflexivity.
  2: shapes; apply broadcast_shapes_same.
  cbn [bind].
  rewrite (@softmax_ok _ (-1) 3) by (shapes; reflexivity).
  eexists. split; [reflexivity|].
  set (Kt := transpose_out 0%R 2 3 K).
  assert (HKt : shape Kt = [B; H; MultiHeadAttention.d_k self; L'])
    by (subst Kt; shapes; reflexivity).
  set (prod := matmul_out [B; H] Q Kt).
  assert (Hprod : shape prod = [B; H; L; L'])
    by (subst prod; shapes; reflexivity).
  set (scores := tmap _ prod).
  assert (Hsc : shape scores = [B; H; L; L'])
    by (subst scores; shapes; reflexivity).
  split; [shapes; reflexivity|].
  assert (Hscore : forall b h q k, b < B -> h < H -> q < L -> k < L' ->
            rget scores [b; h; q; k]
            = score (MultiHeadAttention.d_k self) Q K b h q k).
  { intros b h q k Hb Hh Hq Hk. subst scores.
    rewrite rget_tmap by (try apply wf_tbuild; rewrite Hprod; bounds).
    unfold score. f_equal. subst prod.
    rewrite (@rget_matmul4 Q Kt B H L (MultiHeadAttention.d_k self) L')
      by assumption.
    apply sum_over_ext. intros c Hc. f_equal. subst Kt.
    now rewrite (@rget_transpose23 K B H L' (MultiHeadAttention.d_k self)). }
  intros b h q k Hb Hh Hq Hk.
  unfold softmax_out. rewrite rget_tbuild by (rewrite Hsc; bounds).
  rewrite Hsc. cbn [nth set_at].
  rewrite Hscore by assumption. f_equal.
  apply sum_over_ext. intros c Hc. now rewrite Hscore.
Qed.

Lemma attention_weights_rows
  (self : MultiHeadAttention.t) (Q K : rtensor) (B H L L' : nat) :
  shape Q = [B; H; L; MultiHeadAttention.d_k self] ->
  shape K = [B; H; L'; MultiHeadAttention.d_k self] ->
  exists w,
    MultiHeadAttention.attention_weights self Q K = Ok w /\
    shape w = [B; H; L; L'] /\
    forall b h q, b < B -> h < H -> q < L ->
      (0 < L' -> sum_over L' (fun k => rget w [b; h; q; k]) = 1%R) /\
      forall k, k < L' -> (0 <= rget w [b; h; q; k] <= 1)%R.
Proof.
  intros HQ HK.
  destruct (@attention_weights_entries self Q K B H L L' HQ HK)
    as (w & Hw & Hs & Hent).
  exists w. split; [exact Hw|]. split; [exact Hs|].
  intros b h q Hb Hh Hq. split.
  - intros HL.
    rewrite (@sum_over_ext L' _
               (fun k => exp (score (MultiHeadAttention.d_k self) Q K b h q k)
                         / sum_over L'
                             (fun c => exp (score (MultiHeadAttention.d_k self)
                                              Q K b h q c)))%R)
      by (intros k Hk; now apply Hent).
    now apply (softmax_row_sum
                 (fun k => score (MultiHeadAttention.d_k self) Q K b h q k)).
  - intros k Hk. rewrite Hent by assumption.
    now apply (softmax_entry_bounds
                 (fun k => score (MultiHeadAttention.d_k self) Q K b h q k)).
Qed.

Lemma attention_output_entries
  (self : MultiHeadAttention.t) (Q K V : rtensor) (B H L L' E : nat) :
  shape Q = [B; H; L; MultiHeadAttention.d_k self] ->
  shape K = [B; H; L'; MultiHeadAttention.d_k self] ->
  shape V = [B; H; L'; E] ->
  exists w out,
    MultiHeadAttention.attention_weights self Q K = Ok w /\
    MultiHeadAttention.scaled_dot_product_attention self Q K V = Ok out /\
    shape out = [B; H; L; E] /\
    forall b h q j, b < B -> h < H -> q < L -> j < E ->
      rget out [b; h; q; j]
      = sum_over L' (fun k => rget w [b; h; q; k] * rget V [b; h; k; j])%R.
Proof.
  intros HQ HK HV.
  destruct (@attention_weights_entries self Q K B H L L' HQ HK)
    as (w & Hw & Hs & _).
  exists w. eexists. split; [exact Hw|].
  unfold MultiHeadAttention.scaled_dot_product_attention. rewrite Hw.
  cbn [bind].
  rewrite (@matmul_ok w V [B; H]).
  2,3: shapes; lia.
  2: shapes; reflexivity.
  2: shapes; apply broadcast_shapes_same.
  split; [reflexivity|]. split; [shapes; reflexivity|].
  intros b h q j Hb Hh Hq Hj.
  now apply (@rget_matmul4 w V B H L L' E).
Qed.

(** ** PositionWiseFeedForward *)

Lemma ffn_init_inv (g : rng) (d d_ff c c' : nat) (f : PositionWiseFeedForward.t) :
  PositionWiseFeedForward.init g d d_ff c = Ok (f, c') -> ffn_for d d_ff f.
Proof.
  unfold PositionWiseFeedForward.init. intros Hf.
  apply bindM_inv in Hf as (f1 & c3 & Hf1 & Hf).
  apply bindM_inv in Hf as (f2 & c4 & Hf2 & Hf).
  unfold retM in Hf. injection Hf as <- _.
  apply Linear_init_for in Hf1, Hf2. split; assumption.
Qed.

Lemma ffn_forward_entries
  (f : PositionWiseFeedForward.t) (d d_ff B L : nat) (x : rtensor) :
  ffn_for d d_ff f -> shape x = [B; L; d] ->
  exists y,
    PositionWiseFeedForward.forward f x = Ok y /\ shape y = [B; L; d] /\
    forall b l k, b < B -> l < L -> k < d ->
      rget y [b; l; k]
      = (sum_over d_ff
           (fun j =>
              Rmax 0 (sum_over d
                        (fun c => rget x [b; l; c]
                                  * rget (Linear.weight (PositionWiseFeedForward.fc1 f)) [j; c])
                      + rget (Linear.bias (PositionWiseFeedForward.fc1 f)) [j])
              * rget (Linear.weight (PositionWiseFeedForward.fc2 f)) [k; j])
         + rget (Linear.bias (PositionWiseFeedForward.fc2 f)) [k])%R.
Proof.
  intros [H1 H2] Hx. unfold PositionWiseFeedForward.forward.
  destruct (@Linear_forward_ok _ d d_ff x H1) as [-> Hs];
    [shapes; lia | shapes; reflexivity |].
  rewrite Hx in Hs. cbn [removelast app] in Hs.
  cbn [bind].
  destruct (@Linear_forward_ok _ d_ff d
              (relu (linear_out x (Linear.weight (PositionWiseFeedForward.fc1 f))
                       (Linear.bias (PositionWiseFeedForward.fc1 f)))) H2)
    as [-> Hs'];
    [ unfold rank; rewrite shape_relu, Hs; simpl; lia
    | rewrite shape_relu, Hs; reflexivity |].
  eexists. split; [reflexivity|].
  split; [rewrite Hs', shape_relu, Hs; reflexivity|].
  intros b l k Hb Hl Hk.
  destruct H1 as [HW1 Hb1]. destruct H2 as [HW2 Hb2].
  rewrite (@rget_linear_out3 _ _ _ B L d_ff d) by (auto; shapes; reflexivity).
  f_equal. apply sum_over_ext. intros j Hj. f_equal.
  rewrite rget_relu by (try apply wf_linear_out; rewrite Hs; bounds).
  f_equal. now apply (@rget_linear_out3 _ _ _ B L d d_ff).
Qed.

(** X9: the feed-forward block works on every position by itself.  For a
    constructed block and inputs [x] of shape [B, L, d_model] and [x'] of
    shape [B', L', d_model], both outputs are returned with the shapes of
    their inputs, and wherever a position of [x] carries the same vector
    as a position of [x'], the outputs at those two positions are the same
    vector: no other position, and not the place of the position, enters
    the result. *)
Theorem X9_feed_forward_is_position_wise
  (g : rng) (d_model d_ff c c' : nat) (f : PositionWiseFeedForward.t)
  (x x' : rtensor) (B L B' L' : nat) :
  PositionWiseFeedForward.init g d_model d_ff c = Ok (f, c') ->
  shape x = [B; L; d_model] -> shape x' = [B'; L'; d_model] ->
  exists y y',
    PositionWiseFeedForward.forward f x = Ok y /\
    PositionWiseFeedForward.forward f x' = Ok y' /\
    shape y = shape x /\ shape y' = shape x' /\
    forall b l b' l',
      b < B -> l < L -> b' < B' -> l' < L' ->
      (forall k, k < d_model -> rget x [b; l; k] = rget x' [b'; l'; k]) ->
      forall k, k < d_model -> rget y [b; l; k] = rget y' [b'; l'; k].
Proof.
  intros Hinit Hx Hx'. apply ffn_init_inv in Hinit.
  destruct (@ffn_forward_entries f d_model d_ff B L x Hinit Hx)
    as (y & Hy & Hsy & Hent).
  destruct (@ffn_forward_entries f d_model d_ff B' L' x' Hinit Hx')
    as (y' & Hy' & Hsy' & Hent').
  exists y, y'. repeat split; try assumption; try congruence.
  intros b l b' l' Hb Hl Hb' Hl' Hrow k Hk.
  rewrite Hent, Hent' by assumption.
  f_equal. apply sum_over_ext. intros j Hj. f_equal. f_equal. f_equal.
  apply sum_over_ext. intros c0 Hc0. f_equal. now apply Hrow.
Qed.

Lemma X9_witness :
  exists f c' y y',
    PositionWiseFeedForward.init g0 4 8 0 = Ok (f, c') /\
    PositionWiseFeedForward.forward f (zeros [1; 2; 4]) = Ok y /\
    PositionWiseFeedForward.forward f (ones [2; 3; 4]) = Ok y' /\
    shape y = [1; 2; 4] /\ shape y' = [2; 3; 4] /\
    forall k, k < 4 -> rget y' [0; 1; k] = rget y' [1; 2; k].
Proof.
  destruct (PositionWiseFeedForward.init g0 4 8 0) as [[f c']|e] eqn:Hinit;
    [|cbn in Hinit; discriminate].
  destruct (@X9_feed_forward_is_position_wise g0 4 8 0 c' f
              (ones [2; 3; 4]) (ones [2; 3; 4]) 2 3 2 3 Hinit eq_refl eq_refl)
    as (y' & y'' & Hy' & Hy'' & Hs' & _ & Hrows).
  destruct (@X9_feed_forward_is_position_wise g0 4 8 0 c' f
              (zeros [1; 2; 4]) (ones [2; 3; 4]) 1 2 2 3 Hinit eq_refl eq_refl)
    as (y & y3 & Hy & _ & Hs & _ & _).
  rewrite Hy' in Hy''. injection Hy'' as <-.
  exists f, c', y, y'. repeat split; try assumption.
  intros k Hk. apply (Hrows 0 1 1 2); try lia.
  intros j Hj. unfold ones. now rewrite !rget_tbuild by bounds.
Defined.

(** ** Scaled dot-product attention *)

(** X10: every entry of the output of [scaled_dot_product_attention] is a
    weighted mean of the entries of [V] in the same column: for a positive
    [d_k], queries of shape [B, H, L, d_k], keys of shape [B, H, L', d_k]
    and values of shape [B, H, L', E] with [L'] positive, the output has
    shape [B, H, L, E], and an entry of column [j] lies between any two
    bounds of the entries of column [j] of the values of its head. *)
Theorem X10_attention_output_within_values
  (self : MultiHeadAttention.t) (Q K V : rtensor) (B H L L' E : nat) :
  0 < MultiHeadAttention.d_k self ->
  shape Q = [B; H; L; MultiHeadAttention.d_k self] ->
  shape K = [B; H; L'; MultiHeadAttention.d_k self] ->
  shape V = [B; H; L'; E] -> 0 < L' ->
  exists out,
    MultiHeadAttention.scaled_dot_product_attention self Q K V = Ok out /\
    shape out = [B; H; L; E] /\
    forall (b h q j : nat) (lo hi : R),
      b < B -> h < H -> q < L -> j < E ->
      (forall k, k < L' -> (lo <= rget V [b; h; k; j] <= hi)%R) ->
      (lo <= rget out [b; h; q; j] <= hi)%R.
Proof.
  intros _ HQ HK HV HL.
  destruct (@attention_output_entries self Q K V B H L L' E HQ HK HV)
    as (w & out & Hw & Hout & Hs & Hent).
  destruct (@attention_weights_rows self Q K B H L L' HQ HK)
    as (w' & Hw' & _ & Hrows).
  rewrite Hw in Hw'. injection Hw' as <-.
  exists out. split; [exact Hout|]. split; [exact Hs|].
  intros b h q j lo hi Hb Hh Hq Hj Hv.
  rewrite Hent by assumption.
  destruct (Hrows b h q Hb Hh Hq) as [Hsum Hbounds].
  apply weighted_mean_bounds; auto.
  intros k Hk. now apply Hbounds.
Qed.

Lemma X10_witness :
  exists out,
    MultiHeadAttention.scaled_dot_product_attention attention_zero
      (zeros [1; 2; 3; 2]) (zeros [1; 2; 5; 2]) (ones [1; 2; 5; 2]) = Ok out /\
    shape out = [1; 2; 3; 2] /\
    (1 <= rget out [0%nat; 1%nat; 2%nat; 1%nat] <= 1)%R.
Proof.
  destruct (@X10_attention_output_within_values attention_zero
              (zeros [1; 2; 3; 2]) (zeros [1; 2; 5; 2]) (ones [1; 2; 5; 2])
              1 2 3 5 2 ltac:(cbn; lia) eq_refl eq_refl eq_refl)
    as (out & Hout & Hs & Hb); [lia|].
  exists out. split; [exact Hout|]. split; [exact Hs|].
  apply Hb; try lia.
  intros k Hk. unfold ones. rewrite rget_tbuild by bounds. lra.
Defined.

(** X11: for a positive [d_k], when all the keys of a head are the same
    vector, every query attends to all of them alike, whatever the queries
    are: the output of [scaled_dot_product_attention] at every query
    position is the mean of the values over the key positions. *)
Theorem X11_equal_keys_average_the_values
  (self : MultiHeadAttention.t) (Q K V : rtensor) (B H L L' E : nat) :
  0 < MultiHeadAttention.d_k self ->
  shape Q = [B; H; L; MultiHeadAttention.d_k self] ->
  shape K = [B; H; L'; MultiHeadAttention.d_k self] ->
  shape V = [B; H; L'; E] -> 0 < L' ->
  (forall b h k c, b < B -> h < H -> k < L' -> c < MultiHeadAttention.d_k self ->
     rget K [b; h; k; c] = rget K [b; h; 0; c]) ->
  exists out,
    MultiHeadAttention.scaled_dot_product_attention self Q K V = Ok out /\
    forall b h q j, b < B -> h < H -> q < L -> j < E ->
      rget out [b; h; q; j]
      = (sum_over L' (fun k => rget V [b; h; k; j]) / INR L')%R.
Proof.
  intros _ HQ HK HV HL Hkeys.
  destruct (@attention_output_entries self Q K V B H L L' E HQ HK HV)
    as (w & out & Hw & Hout & Hs & Hent).
  destruct (@attention_weights_entries self Q K B H L L' HQ HK)
    as (w' & Hw' & _ & Hwent).
  rewrite Hw in Hw'. injection Hw' as <-.
  exists out. split; [exact Hout|].
  intros b h q j Hb Hh Hq Hj. rewrite Hent by assumption.
  set (dk := MultiHeadAttention.d_k self) in *.
  assert (Hscore : forall k, k < L' -> score dk Q K b h q k = score dk Q K b h q 0).
  { intros k Hk. unfold score. f_equal. apply sum_over_ext.
    intros c Hc. f_equal. now apply Hkeys. }
  assert (Hden : sum_over L' (fun c => exp (score dk Q K b h q c))
                 = (INR L' * exp (score dk Q K b h q 0))%R).
  { rewrite (@sum_over_ext L' _ (fun _ => (1 * exp (score dk Q K b h q 0))%R))
      by (intros c Hc; rewrite Hscore by exact Hc; ring).
    rewrite sum_over_scale. f_equal.
    clear. unfold sum_over. generalize 0 at 1.
    induction L' as [|n IH]; intros a; simpl; [reflexivity|].
    rewrite IH. destruct n; simpl; ring. }
  assert (HLr : INR L' <> 0%R) by (apply not_0_INR; lia).
  pose proof (exp_pos (score dk Q K b h q 0)) as Hexp.
  rewrite (@sum_over_ext L' _ (fun k => rget V [b; h; k; j] * / INR L')%R).
  - rewrite sum_over_scale. reflexivity.
  - intros k Hk. rewrite Hwent, Hden, Hscore by assumption.
    field. split; lra.
Qed.

Lemma X11_witness :
  exists out,
    MultiHeadAttention.scaled_dot_product_attention attention_zero
      (ones [1; 2; 3; 2]) (zeros [1; 2; 5; 2]) (ones [1; 2; 5; 2]) = Ok out /\
    rget out [0; 1; 2; 1]
    = (sum_over 5 (fun k => rget (ones [1; 2; 5; 2]%nat) [0; 1; k; 1]%nat)
       / INR 5)%R.
Proof.
  destruct (@X11_equal_keys_average_the_values attention_zero
              (ones [1; 2; 3; 2]) (zeros [1; 2; 5; 2]) (ones [1; 2; 5; 2])
              1 2 3 5 2 ltac:(cbn; lia) eq_refl eq_refl eq_refl)
    as (out & Hout & Hent).
  - lia.
  - intros b h k c Hb Hh Hk Hc. unfold zeros.
    now rewrite !rget_tbuild by (cbn in Hc; bounds).
  - exists out. split; [exact Hout|]. apply Hent; lia.
Defined.

(** ** MultiHeadAttention.forward with keys and values of their own length *)

Lemma matmul_mismatch (a b : rtensor) :
  2 <= rank a -> 2 <= rank b ->
  last (shape a) 0 <> nth (rank b - 2) (shape b) 0 ->
  matmul a b
  = Err (MatMismatch (last (shape a) 0) (nth (rank b - 2) (shape b) 0)).
Proof.
  intros Ha Hb Hm. unfold matmul.
  replace (rank a <? 2) with false by (symmetry; apply Nat.ltb_ge; lia).
  replace (rank b <? 2) with false by (symmetry; apply Nat.ltb_ge; lia).
  simpl. destruct (Nat.eqb_spec (last (shape a) 0) (nth (rank b - 2) (shape b) 0));
    [contradiction|reflexivity].
Qed.

Section CrossAttention.
Variables (self : MultiHeadAttention.t) (d_model : nat).
Hypothesis Hself : attention_for d_model self.

Variables (Q K V : rtensor) (B L L1 L2 : nat).
Hypothesis HQ : shape Q = [B; L; d_model].
Hypothesis HK : shape K = [B; L1; d_model].
Hypothesis HV : shape V = [B; L2; d_model].
Hypothesis HB : 0 < B.
Hypothesis Hd : 0 < d_model.

(** [forward] up to the call of [scaled_dot_product_attention]. *)
Lemma attention_forward_heads :
  exists q k v,
    shape q = [B; MultiHeadAttention.num_heads self; L; MultiHeadAttention.d_k self] /\
    shape k = [B; MultiHeadAttention.num_heads self; L1; MultiHeadAttention.d_k self] /\
    shape v = [B; MultiHeadAttention.num_heads self; L2; MultiHeadAttention.d_k self] /\
    MultiHeadAttention.forward self Q K V
    = (out <- MultiHeadAttention.scaled_dot_product_attention self q k v ;;
       out <- MultiHeadAttention.concat_heads self B out ;;
       Linear.forward (MultiHeadAttention.out_proj self) out).
Proof.
  destruct Hself as (Hh & Hhd & Hq & Hk & Hv & Ho).
  unfold MultiHeadAttention.forward.
  rewrite size_at0 by (shapes; lia). rewrite HQ. cbn [nth bind].
  destruct (@Linear_forward_ok _ d_model d_model Q Hq) as [-> HsQ];
    [shapes; lia | shapes; reflexivity |].
  destruct (@Linear_forward_ok _ d_model d_model K Hk) as [-> HsK];
    [shapes; lia | shapes; reflexivity |].
  destruct (@Linear_forward_ok _ d_model d_model V Hv) as [-> HsV];
    [shapes; lia | shapes; reflexivity |].
  rewrite HQ in HsQ. rewrite HK in HsK. rewrite HV in HsV.
  cbn [removelast app] in HsQ, HsK, HsV.
  set (q := linear_out Q _ _) in *. clearbody q.
  set (k := linear_out K _ _) in *. clearbody k.
  set (v := linear_out V _ _) in *. clearbody v.
  cbn [bind].
  rewrite (@split_heads_ok self d_model Hself B L q) by assumption.
  rewrite (@split_heads_ok self d_model Hself B L1 k) by assumption.
  rewrite (@split_heads_ok self d_model Hself B L2 v) by assumption.
  cbn [bind].
  eexists _, _, _. split; [|split; [|split; [|reflexivity]]]; reflexivity.
Qed.

Lemma attention_forward_cross :
  L1 = L2 ->
  exists y, MultiHeadAttention.forward self Q K V = Ok y /\
            shape y = [B; L; d_model].
Proof.
  intros HL. destruct attention_forward_heads as (q & k & v & Hq & Hk & Hv & ->).
  rewrite <- HL in Hv.
  destruct (@attention_output_entries self q k v B
              (MultiHeadAttention.num_heads self) L L1
              (MultiHeadAttention.d_k self) Hq Hk Hv)
    as (w & out & _ & -> & Hso & _).
  cbn [bind].
  rewrite (@concat_heads_ok self d_model Hself B L out Hso HB Hd).
  cbn [bind].
  destruct Hself as (_ & _ & _ & _ & _ & Ho).
  set (cc := Tensor _ _).
  assert (Hc : shape cc = [B; L; d_model]) by reflexivity. clearbody cc.
  destruct (@Linear_forward_ok _ d_model d_model cc Ho) as [-> Hs];
    [shapes; lia | shapes; reflexivity |].
  eexists. split; [reflexivity|]. rewrite Hs, Hc. reflexivity.
Qed.

Lemma attention_forward_lengths_differ :
  L1 <> L2 ->
  MultiHeadAttention.forward self Q K V = Err (MatMismatch L1 L2).
Proof.
  intros HL. destruct attention_forward_heads as (q & k & v & Hq & Hk & Hv & ->).
  unfold MultiHeadAttention.scaled_dot_product_attention.
  destruct (@attention_weights_entries self q k B
              (MultiHeadAttention.num_heads self) L L1 Hq Hk)
    as (w & -> & Hw & _).
  cbn [bind].
  rewrite matmul_mismatch.
  - shapes. reflexivity.
  - shapes. lia.
  - shapes. lia.
  - shapes. exact HL.
Qed.

End CrossAttention.

(** X12: [MultiHeadAttention.forward] does not ask the keys and values to
    be as long as the queries.  For a constructed module, queries of
    shape [B, L, d_model] and keys and values of shape [B, L', d_model],
    with [B] and [d_model] positive, the result has the shape of the
    queries; keys and values of two different lengths raise in the second
    [matmul]. *)
Theorem X12_attention_keys_of_another_length
  (g : rng) (d_model num_heads c c' : nat) (self : MultiHeadAttention.t)
  (Q K V : rtensor) (B L L1 L2 : nat) :
  MultiHeadAttention.init g d_model num_heads c = Ok (self, c') ->
  shape Q = [B; L; d_model] -> shape K = [B; L1; d_model] ->
  shape V = [B; L2; d_model] -> 0 < B -> 0 < d_model ->
  (L1 = L2 -> exists y, MultiHeadAttention.forward self Q K V = Ok y /\
                        shape y = shape Q) /\
  (L1 <> L2 -> MultiHeadAttention.forward self Q K V = Err (MatMismatch L1 L2)).
Proof.
  intros Hinit HQ HK HV HB Hd.
  apply attention_init_inv in Hinit as (_ & _ & Hfor & _ & _).
  split.
  - intros HL. rewrite HQ. eapply attention_forward_cross; eauto.
  - intros HL. eapply attention_forward_lengths_differ; eauto.
Qed.

Lemma X12_witness :
  exists self c',
    MultiHeadAttention.init g0 4 2 0 = Ok (self, c') /\
    (exists y, MultiHeadAttention.forward self (zeros [2; 3; 4])
                 (zeros [2; 5; 4]) (zeros [2; 5; 4]) = Ok y /\
               shape y = [2; 3; 4]) /\
    MultiHeadAttention.forward self (zeros [2; 3; 4])
      (zeros [2; 5; 4]) (zeros [2; 3; 4]) = Err (MatMismatch 5 3).
Proof.
  eexists _, _. split; [cbn; reflexivity|]. split.
  - destruct (@X12_attention_keys_of_another_length g0 4 2 0 _ _
                (zeros [2; 3; 4]) (zeros [2; 5; 4]) (zeros [2; 5; 4])
                2 3 5 5 eq_refl eq_refl eq_refl eq_refl) as [Hsame _];
      [lia | lia |].
    now apply Hsame.
  - destruct (@X12_attention_keys_of_another_length g0 4 2 0 _ _
                (zeros [2; 3; 4]) (zeros [2; 5; 4]) (zeros [2; 3; 4])
                2 3 5 3 eq_refl eq_refl eq_refl eq_refl) as [_ Hdiff];
      [lia | lia |].
    apply Hdiff. lia.
Defined.

(** ** The size of the positional signal *)

Lemma pe_table_column (d n pos j : nat) :
  pos < n -> j < d ->
  rget (pe_table d n) [0; pos; j]
  = if Nat.even j then sin (rget (angles d n) [pos; j / 2])
    else cos (rget (angles d n) [pos; j / 2]).
Proof.
  intros Hp Hj.
  pose proof (Nat.div_mod_eq j 2) as E.
  pose proof (Nat.mod_upper_bound j 2 ltac:(lia)) as Hm.
  destruct (Nat.even j) eqn:He.
  - apply Nat.even_spec in He. destruct He as [i ->].
    replace (2 * i / 2) with i
      by (symmetry; rewrite Nat.mul_comm; apply Nat.div_mul; lia).
    apply pe_table_even_column; lia.
  - assert (Ho : Nat.odd j = true) by (now rewrite <- Nat.negb_even, He).
    apply Nat.odd_spec in Ho. destruct Ho as [i ->].
    assert (Ei : (2 * i + 1) / 2 = i)
      by (symmetry; apply (Nat.div_unique (2 * i + 1) 2 i 1); lia).
    rewrite Ei. apply pe_table_odd_column; [exact Hp|].
    apply Nat.div_le_lower_bound; lia.
Qed.

Lemma pe_table_entry_bound (d n pos j : nat) :
  pos < n -> j < d -> (-1 <= rget (pe_table d n) [0%nat; pos; j] <= 1)%R.
Proof.
  intros Hp Hj. rewrite pe_table_column by assumption.
  destruct (Nat.even j); [apply SIN_bound | apply COS_bound].
Qed.

Lemma pe_table_first_row (d n j : nat) :
  0 < n -> j < d ->
  rget (pe_table d n) [0; 0; j] = if Nat.even j then 0%R else 1%R.
Proof.
  intros Hn Hj. rewrite pe_table_column by assumption.
  assert (Hhalf : j / 2 < (d + 1) / 2).
  { apply lt_half. pose proof (Nat.Div0.mul_div_le j 2). lia. }
  rewrite rget_angles by assumption.
  cbn [INR]. rewrite Rmult_0_l.
  destruct (Nat.even j); [apply sin_0 | apply cos_0].
Qed.

(** X13: the positional signal is small.  For a constructed
    [PositionalEncoding] and an input of shape [B, L, d_model] no longer
    than the table, [forward] returns a tensor of the shape of the input
    in which no entry differs from the input by more than 1; at position
    0 it adds 0 to the columns of even index and 1 to those of odd
    index. *)
Theorem X13_positional_signal_is_bounded
  (d_model max_len : nat) (p : PositionalEncoding.t) (x : rtensor) (B L : nat) :
  PositionalEncoding.init d_model max_len = Ok p ->
  shape x = [B; L; d_model] -> L <= max_len ->
  exists y,
    PositionalEncoding.forward p x = Ok y /\ shape y = shape x /\
    (forall b l k, b < B -> l < L -> k < d_model ->
       (Rabs (rget y [b; l; k] - rget x [b; l; k]) <= 1)%R) /\
    (forall b k, b < B -> 0 < L -> k < d_model ->
       rget y [b; 0; k]
       = (rget x [b; 0%nat; k] + if Nat.even k then 0 else 1)%R).
Proof.
  intros Hinit Hx HL. apply posenc_init_inv in Hinit as [-> Hd].
  rewrite (@posenc_forward_ok _ x B L d_model max_len)
    by (auto; apply shape_pe_table).
  eexists. split; [reflexivity|]. split; [reflexivity|].
  assert (Hent : forall b l k, b < B -> l < L -> k < d_model ->
            rget (Spec.add_positions (pe_table d_model max_len) x) [b; l; k]
            = (rget x [b; l; k] + rget (pe_table d_model max_len) [0%nat; l; k])%R).
  { intros b l k Hb Hl Hk. unfold Spec.add_positions.
    rewrite rget_tbuild by (rewrite Hx; bounds). reflexivity. }
  split.
  - intros b l k Hb Hl Hk. rewrite Hent by assumption.
    destruct (@pe_table_entry_bound d_model max_len l k) as [Hlo Hhi];
      [lia | exact Hk |].
    apply Rabs_le. lra.
  - intros b k Hb HL0 Hk. rewrite Hent by assumption.
    rewrite pe_table_first_row by (auto; lia). reflexivity.
Qed.

Lemma X13_witness :
  exists p y,
    PositionalEncoding.init 4 3 = Ok p /\
    PositionalEncoding.forward p (ones [2; 3; 4]) = Ok y /\
    shape y = [2; 3; 4] /\
    (Rabs (rget y [1; 2; 3]%nat - rget (ones [2; 3; 4]%nat) [1; 2; 3]%nat)
     <= 1)%R /\
    rget y [1; 0; 3]
    = (rget (ones [2; 3; 4]%nat) [1; 0; 3]%nat + 1)%R.
Proof.
  destruct (PositionalEncoding.init 4 3) as [p|e] eqn:Hinit.
  2: { rewrite posenc_init_ok in Hinit by (auto; right; reflexivity || left; reflexivity).
       discriminate. }
  destruct (@X13_positional_signal_is_bounded 4 3 p (ones [2; 3; 4]) 2 3
              Hinit eq_refl) as (y & Hy & Hs & Hbound & Hfirst); [lia|].
  exists p, y. split; [reflexivity|]. split; [exact Hy|]. split; [exact Hs|].
  split.
  - apply Hbound; lia.
  - apply (Hfirst 1 3); lia.
Defined.

(** ** Layer normalization with the parameters of construction *)

Lemma Rsum_map_minus_const (f : nat -> R) (c : R) (l : list nat) :
  Rsum (map (fun k => f k - c)%R l)
  = (Rsum (map f l) - INR (length l) * c)%R.
Proof.
  induction l as [|a l IH]; [simpl; ring|].
  cbn [map Rsum fold_right length]. fold (Rsum (map (fun k => f k - c)%R l)).
  fold (Rsum (map f l)). rewrite IH, S_INR. ring.
Qed.

Lemma sum_over_minus_const (n : nat) (f : nat -> R) (c : R) :
  sum_over n (fun k => f k - c)%R = (sum_over n f - INR n * c)%R.
Proof.
  unfold sum_over. now rewrite Rsum_map_minus_const, length_seq.
Qed.

Lemma sum_over_squares_nonneg (n : nat) (f : nat -> R) :
  (0 <= sum_over n (fun k => f k ^ 2))%R.
Proof.
  apply Rsum_map_nonneg. intros k _. apply pow2_ge_0.
Qed.

(** A row that is centred and divided by [sqrt (var + eps)] has sum 0 and
    a sum of squares of at most its length. *)
Lemma normalized_row (n : nat) (f : nat -> R) (eps mu var : R) :
  (0 < eps)%R ->
  mu = (sum_over n f / INR n)%R ->
  var = (sum_over n (fun c => (f c - mu) ^ 2) / INR n)%R ->
  sum_over n (fun k => (f k - mu) / sqrt (var + eps))%R = 0%R /\
  (sum_over n (fun k => ((f k - mu) / sqrt (var + eps)) ^ 2) <= INR n)%R.
Proof.
  intros Heps Hmu Hvar0.
  destruct (Nat.eq_dec n 0) as [->|Hn].
  { split; [reflexivity|]. cbn. lra. }
  assert (Hnr : (0 < INR n)%R) by (apply lt_0_INR; lia).
  assert (Hsq : (0 <= sum_over n (fun c => (f c - mu) ^ 2))%R)
    by (apply (sum_over_squares_nonneg n (fun c => f c - mu)%R)).
  assert (Hvar : (0 <= var)%R).
  { rewrite Hvar0. apply Rmult_le_pos; [exact Hsq|].
    left. now apply Rinv_0_lt_compat. }
  assert (Hs2 : (sqrt (var + eps) ^ 2 = var + eps)%R)
    by (apply pow2_sqrt; lra).
  assert (Hsn : sqrt (var + eps) <> 0%R)
    by (apply Rgt_not_eq, sqrt_lt_R0; lra).
  assert (Hsum : sum_over n (fun c => (f c - mu) ^ 2)%R = (var * INR n)%R)
    by (rewrite Hvar0; field; lra).
  split.
  - unfold Rdiv at 1. rewrite sum_over_scale, sum_over_minus_const.
    replace (sum_over n f - INR n * mu)%R with 0%R
      by (rewrite Hmu; field; lra).
    ring.
  - rewrite (@sum_over_ext n _
               (fun k => (f k - mu) ^ 2 * / (var + eps))%R).
    2: { intros k _.
         replace (/ (var + eps))%R with (/ (sqrt (var + eps) ^ 2))%R
           by (now rewrite Hs2).
         field. exact Hsn. }
    rewrite sum_over_scale, Hsum.
    apply (Rmult_le_reg_r (var + eps)); [lra|].
    replace (var * INR n * / (var + eps) * (var + eps))%R with (var * INR n)%R
      by (field; lra).
    nra.
Qed.

Lemma rget_ones (n k : nat) : k < n -> rget (ones [n]) [k] = 1%R.
Proof. intros H. unfold ones. now rewrite rget_tbuild by bounds. Qed.

Lemma rget_zeros (n k : nat) : k < n -> rget (zeros [n]) [k] = 0%R.
Proof. intros H. unfold zeros. now rewrite rget_tbuild by bounds. Qed.

Lemma normalize_fresh_entry (s : rtensor) (B L d b l k : nat) :
  shape s = [B; L; d] -> b < B -> l < L -> k < d ->
  rget (Spec.normalize (LayerNorm.init d) s) [b; l; k]
  = ((rget s [b; l; k] - row_mean s [b; l] d)
     / sqrt (row_var s [b; l] d + 1 / 100000))%R.
Proof.
  intros Hs Hb Hl Hk. unfold Spec.normalize.
  rewrite rget_tbuild by (rewrite Hs; bounds).
  cbn [LayerNorm.init LayerNorm.normalized_shape LayerNorm.weight
       LayerNorm.bias LayerNorm.eps removelast last].
  rewrite rget_ones, rget_zeros by exact Hk.
  unfold row_var, row_mean. cbn [app]. ring.
Qed.

Lemma normalize_fresh_rows (s : rtensor) (B L d b l : nat) :
  shape s = [B; L; d] -> b < B -> l < L ->
  sum_over d (fun k => rget (Spec.normalize (LayerNorm.init d) s) [b; l; k])
  = 0%R /\
  (sum_over d
     (fun k => rget (Spec.normalize (LayerNorm.init d) s) [b; l; k] ^ 2)
   <= INR d)%R.
Proof.
  intros Hs Hb Hl.
  assert (Heps : (0 < 1 / 100000)%R) by lra.
  destruct (@normalized_row d (fun c => rget s [b; l; c]) (1 / 100000)
              (row_mean s [b; l] d) (row_var s [b; l] d) Heps
              eq_refl eq_refl)
    as [Hsum Hsq].
  split.
  - rewrite <- Hsum. apply sum_over_ext. intros k Hk.
    now rewrite (@normalize_fresh_entry s B L d).
  - eapply Rle_trans; [|exact Hsq]. right.
    apply sum_over_ext. intros k Hk.
    now rewrite (@normalize_fresh_entry s B L d).
Qed.

Lemma EncoderLayer_init_norms
  (g : rng) (d h d_ff c c' : nat) (layer : EncoderLayer.t) :
  EncoderLayer.init g d h d_ff c = Ok (layer, c') ->
  EncoderLayer.norm1 layer = LayerNorm.init d /\
  EncoderLayer.norm2 layer = LayerNorm.init d.
Proof.
  unfold EncoderLayer.init. intros H.
  apply bindM_inv in H as (a & c1 & Ha & H).
  apply bindM_inv in H as (f & c2 & Hf & H).
  unfold retM in H. injection H as <- _. split; reflexivity.
Qed.

(** X14: the output of a newly constructed encoder layer is normalized.
    Whenever [forward] returns on an input of shape [B, L, d_model], at
    every position the [d_model] entries of the result add up to 0 and
    their squares add up to at most [d_model] (the small constant added
    to the variance keeps the division defined when all the entries of a
    row are equal). *)
Theorem X14_new_layer_output_is_normalized
  (g : rng) (d_model num_heads d_ff c c' : nat) (layer : EncoderLayer.t)
  (x y : rtensor) (B L : nat) :
  EncoderLayer.init g d_model num_heads d_ff c = Ok (layer, c') ->
  shape x = [B; L; d_model] ->
  EncoderLayer.forward layer x = Ok y ->
  forall b l, b < B -> l < L ->
    sum_over d_model (fun k => rget y [b; l; k]) = 0%R /\
    (sum_over d_model (fun k => rget y [b; l; k] ^ 2) <= INR d_model)%R.
Proof.
  intros Hinit Hx Hy b l Hb Hl.
  destruct (EncoderLayer_init_norms _ _ _ _ _ Hinit) as [_ Hn2].
  apply EncoderLayer_init_inv in Hinit as (_ & _ & Hlayer).
  rewrite (@layer_forward_refines layer d_model d_ff Hlayer B L x Hx) in Hy.
  unfold Spec.encoder_layer in Hy.
  destruct (MultiHeadAttention.forward _ x x x) as [a|e]; [|discriminate].
  cbn [bind] in Hy.
  destruct (PositionWiseFeedForward.forward _ _) as [f|e]; [|discriminate].
  cbn [bind] in Hy. injection Hy as <-. rewrite Hn2.
  apply (@normalize_fresh_rows _ B L d_model); auto.
Qed.

Lemma X14_witness :
  exists layer c' y,
    EncoderLayer.init g0 4 2 8 0 = Ok (layer, c') /\
    EncoderLayer.forward layer (ones [2; 3; 4]) = Ok y /\
    sum_over 4 (fun k => rget y [1; 2; k]) = 0%R /\
    (sum_over 4 (fun k => rget y [1%nat; 2%nat; k] ^ 2) <= INR 4)%R.
Proof.
  destruct (EncoderLayer.init g0 4 2 8 0) as [[layer c']|e] eqn:Hinit;
    [|cbn in Hinit; discriminate].
  pose proof Hinit as Hinv.
  apply EncoderLayer_init_inv in Hinv as (_ & _ & Hlayer).
  destruct (@layer_forward_ok layer 4 8 Hlayer 2 3 (ones [2; 3; 4]) eq_refl)
    as (y & Hy & _); [lia | lia |].
  exists layer, c', y. split; [reflexivity|]. split; [exact Hy|].
  apply (@X14_new_layer_output_is_normalized g0 4 2 8 0 c' layer
           (ones [2; 3; 4]) y 2 3 Hinit eq_refl Hy); lia.
Defined.

(** ** Attention and a common offset of the keys *)

Lemma Rsum_map_plus (f g : nat -> R) (l : list nat) :
  Rsum (map (fun k => f k + g k)%R l) = (Rsum (map f l) + Rsum (map g l))%R.
Proof.
  induction l as [|a l IH]; [simpl; ring|].
  cbn [map Rsum fold_right].
  fold (Rsum (map (fun k => f k + g k)%R l)).
  fold (Rsum (map f l)). fold (Rsum (map g l)). rewrite IH. ring.
Qed.

Lemma sum_over_plus (n : nat) (f g : nat -> R) :
  sum_over n (fun k => f k + g k)%R = (sum_over n f + sum_over n g)%R.
Proof. apply Rsum_map_plus. Qed.

(** Two well-formed tensors of one shape with the same entries are the
    same tensor. *)
Lemma tensor_ext (t t' : rtensor) :
  wf t -> wf t' -> shape t = shape t' ->
  (forall idx, in_bounds (shape t) idx = true -> rget t idx = rget t' idx) ->
  t = t'.
Proof.
  intros Hwf Hwf' Hs Hent.
  rewrite <- (tbuild_tget 0%R Hwf), <- (tbuild_tget 0%R Hwf'), <- Hs.
  now apply tbuild_ext.
Qed.

Lemma attention_weights_wf (self : MultiHeadAttention.t) (Q K w : rtensor) :
  MultiHeadAttention.attention_weights self Q K = Ok w -> wf w.
Proof.
  unfold MultiHeadAttention.attention_weights. intros H.
  destruct (transpose 0%R K (-2) (-1)) as [Kt|e]; [|discriminate].
  cbn [bind] in H.
  destruct (matmul Q Kt) as [prod|e]; [|discriminate].
  cbn [bind] in H. unfold softmax in H.
  destruct (wrap_dim _ _) as [k|e]; [|discriminate].
  cbn [bind] in H. injection H as <-. apply wf_tbuild.
Qed.

(** X15: the attention weights depend on the keys only up to a common
    offset.  If every key vector of each head of [K'] is the key vector
    of [K] plus one vector [u] of that head, then
    [scaled_dot_product_attention] returns the same result for [K'] as
    for [K]: the offset moves all the scores of a query by the same
    amount, which the softmax cancels. *)
Theorem X15_attention_ignores_common_key_offset
  (self : MultiHeadAttention.t) (Q K K' V : rtensor) (B H L L' E : nat)
  (u : nat -> nat -> nat -> R) :
  shape Q = [B; H; L; MultiHeadAttention.d_k self] ->
  shape K = [B; H; L'; MultiHeadAttention.d_k self] ->
  shape K' = [B; H; L'; MultiHeadAttention.d_k self] ->
  shape V = [B; H; L'; E] ->
  (forall b h k c,
     b < B -> h < H -> k < L' -> c < MultiHeadAttention.d_k self ->
     rget K' [b; h; k; c] = (rget K [b; h; k; c] + u b h c)%R) ->
  MultiHeadAttention.scaled_dot_product_attention self Q K' V
  = MultiHeadAttention.scaled_dot_product_attention self Q K V.
Proof.
  intros HQ HK HK' HV Hoff.
  set (dk := MultiHeadAttention.d_k self) in *.
  destruct (@attention_weights_entries self Q K B H L L' HQ HK)
    as (w & Hw & Hs & Hent).
  destruct (@attention_weights_entries self Q K' B H L L' HQ HK')
    as (w' & Hw' & Hs' & Hent').
  unfold MultiHeadAttention.scaled_dot_product_attention.
  rewrite Hw, Hw'. cbn [bind]. f_equal.
  apply tensor_ext.
  - exact (attention_weights_wf _ _ _ Hw').
  - exact (attention_weights_wf _ _ _ Hw).
  - congruence.
  - rewrite Hs'. intros idx Hb.
    apply in_bounds4 in Hb as (b & h & q & k & -> & Hb & Hh & Hq & Hk).
    rewrite Hent, Hent' by assumption. fold dk.
    set (delta := (sum_over dk (fun c => rget Q [b; h; q; c] * u b h c)
                   / sqrt (INR dk))%R).
    assert (Hscore : forall j, j < L' ->
              score dk Q K' b h q j = (score dk Q K b h q j + delta)%R).
    { intros j Hj. unfold score, delta.
      rewrite (@sum_over_ext dk _
                 (fun c => rget Q [b; h; q; c] * rget K [b; h; j; c]
                           + rget Q [b; h; q; c] * u b h c)%R)
        by (intros c Hc; rewrite Hoff by assumption; ring).
      rewrite sum_over_plus. unfold Rdiv. ring. }
    rewrite Hscore by exact Hk.
    rewrite (@sum_over_ext L' _
               (fun c => exp (score dk Q K b h q c) * exp delta)%R)
      by (intros c Hc; rewrite Hscore by exact Hc; apply exp_plus).
    rewrite sum_over_scale, exp_plus.
    pose proof (exp_pos delta) as Hd.
    assert (Hden : (0 < sum_over L' (fun c => exp (score dk Q K b h q c)))%R)
      by (apply (sum_over_exp_pos (fun c => score dk Q K b h q c)); lia).
    field. split; lra.
Qed.

Lemma X15_witness :
  MultiHeadAttention.scaled_dot_product_attention attention_zero
    (ones [1; 2; 3; 2]) (ones [1; 2; 5; 2]) (ones [1; 2; 5; 2])
  = MultiHeadAttention.scaled_dot_product_attention attention_zero
      (ones [1; 2; 3; 2]) (zeros [1; 2; 5; 2]) (ones [1; 2; 5; 2]).
Proof.
  apply (@X15_attention_ignores_common_key_offset attention_zero
           (ones [1; 2; 3; 2]) (zeros [1; 2; 5; 2]) (ones [1; 2; 5; 2])
           (ones [1; 2; 5; 2]) 1 2 3 5 2 (fun _ _ _ => 1%R)
           eq_refl eq_refl eq_refl eq_refl).
  intros b h k c Hb Hh Hk Hc. cbn in Hc. unfold ones, zeros.
  rewrite !rget_tbuild by bounds. ring.
Defined.

(** ** The operations of [forward] work on every item of a batch by
    itself *)

Lemma unravel (s : list nat) (o : nat) :
  o < numel s -> exists idx, in_bounds s idx = true /\ offset s idx = o.
Proof.
  intros Ho. exists (nth o (indices s) []). split.
  - apply in_indices, nth_In. now rewrite indices_length.
  - rewrite <- (map_nth (offset s) (indices s) []).
    rewrite map_offset_indices.
    rewrite (nth_indep _ _ 0) by (now rewrite length_seq).
    now rewrite seq_nth.
Qed.

Lemma in_bounds1 (a : nat) (idx : list nat) :
  in_bounds [a] idx = true -> exists i, idx = [i] /\ i < a.
Proof.
  destruct idx as [|i [|j idx]]; simpl; intros H; try discriminate.
  - apply andb_true_iff in H as [H%Nat.ltb_lt _]. now exists i.
  - apply andb_true_iff in H as [_ H]. discriminate.
Qed.

Lemma in_bounds5 (a b c e f : nat) (idx : list nat) :
  in_bounds [a; b; c; e; f] idx = true ->
  exists i j k l u,
    idx = [i; j; k; l; u] /\ i < a /\ j < b /\ k < c /\ l < e /\ u < f.
Proof.
  destruct idx as [|i [|j [|k [|l [|u [|w idx]]]]]]; simpl;
    intros H; try discriminate;
    try (repeat (apply andb_true_iff in H as [? H]); discriminate).
  repeat (apply andb_true_iff in H as [?%Nat.ltb_lt H]).
  exists i, j, k, l, u. repeat split; auto.
Qed.

Section SameItem.
Variables (B B' b b' : nat).
Hypothesis Hb : b < B.
Hypothesis Hb' : b' < B'.

Lemma same_item_tbuild (s : list nat) (f f' : list nat -> R) :
  (forall idx, in_bounds s idx = true -> f (b :: idx) = f' (b' :: idx)) ->
  same_item s B B' b b' (tbuild (B :: s) f) (tbuild (B' :: s) f').
Proof.
  intros H. repeat split; auto.
  intros idx Hidx.
  rewrite !rget_tbuild by (apply in_bounds_cons; auto).
  now apply H.
Qed.

Lemma same_item_read (s : list nat) (t t' : rtensor) (idx : list nat) :
  same_item s B B' b b' t t' -> in_bounds s idx = true ->
  rget t (b :: idx) = rget t' (b' :: idx).
Proof. intros (_ & _ & _ & _ & H). apply H. Qed.

(** [view] keeps the items when it keeps the batch dimension. *)
Lemma same_item_reshape (s s2 : list nat) (t t' : rtensor) :
  same_item s B B' b b' t t' -> numel s2 = numel s ->
  same_item s2 B B' b b'
    (Tensor (B :: s2) (data t)) (Tensor (B' :: s2) (data t')).
Proof.
  intros (Hs & Hs' & _ & _ & H) Hn. repeat split; auto.
  intros idx2 Hidx2.
  pose proof (offset_lt _ _ Hidx2) as Ho. rewrite Hn in Ho.
  destruct (unravel _ Ho) as (idx & Hidx & Hoff).
  specialize (H idx Hidx).
  unfold rget, tget in *. rewrite Hs, Hs' in H.
  cbn [shape data offset] in *. rewrite Hoff in H. now rewrite Hn.
Qed.

Lemma same_item_tmap (f : R -> R) (s : list nat) (t t' : rtensor) :
  same_item s B B' b b' t t' -> wf t -> wf t' ->
  same_item s B B' b b' (tmap f t) (tmap f t').
Proof.
  intros (Hs & Hs' & _ & _ & H) Hwf Hwf'. repeat split; auto.
  intros idx Hidx.
  rewrite !rget_tmap
    by (auto; rewrite ?Hs, ?Hs'; apply in_bounds_cons; auto).
  f_equal. now apply H.
Qed.

(** The windows of an image are cut from that image. *)
Lemma same_item_unfolded (p C H W : nat) (x x' : rtensor) :
  p <> 0 -> p <= H -> p <= W ->
  same_item [C; H; W] B B' b b' x x' ->
  same_item [C; H / p; W / p; p; p] B B' b b'
    (unfolded 0%R p x) (unfolded 0%R p x').
Proof.
  intros Hp HH HW (Hs & Hs' & _ & _ & Hent).
  rewrite (@unfolded_any_is _ 0%R p B C H W x Hp HH HW Hs).
  rewrite (@unfolded_any_is _ 0%R p B' C H W x' Hp HH HW Hs').
  apply same_item_tbuild. intros idx Hidx.
  apply in_bounds5 in Hidx
    as (c & i & j & u & v & -> & Hc & Hi & Hj & Hu & Hv).
  cbn [nth]. apply Hent.
  pose proof (@windows_fit H p i u Hi Hu).
  pose proof (@windows_fit W p j v Hj Hv).
  bounds.
Qed.

(** A linear map works on every vector by itself. *)
Lemma same_item_linear3 (x x' W bias : rtensor) (L i o : nat) :
  shape W = [o; i] ->
  same_item [L; i] B B' b b' x x' ->
  same_item [L; o] B B' b b' (linear_out x W bias) (linear_out x' W bias).
Proof.
  intros HW (Hs & Hs' & _ & _ & Hent).
  unfold linear_out. rewrite Hs, Hs', HW. cbn [removelast app nth].
  apply same_item_tbuild. intros idx Hidx.
  apply in_bounds2 in Hidx as (l & j & -> & Hl & Hj).
  cbn [removelast last app]. f_equal.
  apply sum_over_ext. intros c Hc. f_equal. apply Hent. bounds.
Qed.

Lemma same_item_linear2 (x x' W bias : rtensor) (i o : nat) :
  shape W = [o; i] ->
  same_item [i] B B' b b' x x' ->
  same_item [o] B B' b b' (linear_out x W bias) (linear_out x' W bias).
Proof.
  intros HW (Hs & Hs' & _ & _ & Hent).
  unfold linear_out. rewrite Hs, Hs', HW. cbn [removelast app nth].
  apply same_item_tbuild. intros idx Hidx.
  apply in_bounds1 in Hidx as (j & -> & Hj).
  cbn [removelast last app]. f_equal.
  apply sum_over_ext. intros c Hc. f_equal. apply Hent. bounds.
Qed.

(** Every item gets the same positional rows. *)
Lemma same_item_add_positions (pe x x' : rtensor) (s : list nat) :
  same_item s B B' b b' x x' ->
  same_item s B B' b b' (Spec.add_positions pe x) (Spec.add_positions pe x').
Proof.
  intros (Hs & Hs' & _ & _ & Hent).
  unfold Spec.add_positions. rewrite Hs, Hs'.
  apply same_item_tbuild. intros idx Hidx.
  cbn [tl]. f_equal. now apply Hent.
Qed.

Lemma same_item_residual (x x' y y' : rtensor) (s : list nat) :
  same_item s B B' b b' x x' -> same_item s B B' b b' y y' ->
  same_item s B B' b b' (Spec.residual x y) (Spec.residual x' y').
Proof.
  intros (Hs & Hs' & _ & _ & Hent) (_ & _ & _ & _ & Hent').
  unfold Spec.residual. rewrite Hs, Hs'.
  apply same_item_tbuild. intros idx Hidx.
  f_equal; [now apply Hent | now apply Hent'].
Qed.

(** Layer normalization works on every vector by itself. *)
Lemma same_item_normalize (ln : LayerNorm.t) (x x' : rtensor) (L d : nat) :
  norm_for d ln ->
  same_item [L; d] B B' b b' x x' ->
  same_item [L; d] B B' b b' (Spec.normalize ln x) (Spec.normalize ln x').
Proof.
  intros Hln (Hs & Hs' & _ & _ & Hent).
  unfold Spec.normalize. rewrite Hs, Hs', Hln.
  apply same_item_tbuild. intros idx Hidx.
  apply in_bounds2 in Hidx as (l & k & -> & Hl & Hk).
  cbn [removelast last app].
  assert (Hrow : forall c, c < d -> rget x [b; l; c] = rget x' [b'; l; c])
    by (intros c Hc; apply Hent; bounds).
  assert (Hmean : sum_over d (fun c => rget x [b; l; c])
                  = sum_over d (fun c => rget x' [b'; l; c]))
    by (now apply sum_over_ext).
  rewrite Hmean, (Hrow k Hk).
  assert (Hvar :
            sum_over d
              (fun c => (rget x [b; l; c]
                         - sum_over d (fun c0 => rget x' [b'; l; c0])
                           / INR d) ^ 2)%R
            = sum_over d
                (fun c => (rget x' [b'; l; c]
                           - sum_over d (fun c0 => rget x' [b'; l; c0])
                             / INR d) ^ 2)%R)
    by (apply sum_over_ext; intros c Hc; now rewrite Hrow).
  now rewrite Hvar.
Qed.

(** Exchanging the dimensions after the batch dimension. *)
Lemma same_item_transpose12 (t t' : rtensor) (a c e : nat) :
  same_item [a; c; e] B B' b b' t t' ->
  same_item [c; a; e] B B' b b'
    (transpose_out 0%R 1 2 t) (transpose_out 0%R 1 2 t').
Proof.
  intros (Hs & Hs' & _ & _ & Hent).
  unfold transpose_out. rewrite Hs, Hs'.
  cbn [swap_at length seq map nth Nat.eqb].
  apply same_item_tbuild. intros idx Hidx.
  apply in_bounds3 in Hidx as (i & j & k & -> & Hi & Hj & Hk).
  cbn [swap_at length seq map nth Nat.eqb].
  apply Hent. bounds.
Qed.

(** The mean over the positions of an item. *)
Lemma same_item_mean_pool (x x' : rtensor) (N d : nat) :
  same_item [N; d] B B' b b' x x' ->
  same_item [d] B B' b b' (Spec.mean_pool x) (Spec.mean_pool x').
Proof.
  intros (Hs & Hs' & _ & _ & Hent).
  unfold Spec.mean_pool. rewrite Hs, Hs'. cbn [nth].
  apply same_item_tbuild. intros idx Hidx.
  apply in_bounds1 in Hidx as (k & -> & Hk).
  cbn [nth]. f_equal.
  apply sum_over_ext. intros n Hn. apply Hent. bounds.
Qed.

End SameItem.

(** ** MultiHeadAttention.forward, step by step *)

Section AttentionValue.
Variables (self : MultiHeadAttention.t) (d_model : nat).
Hypothesis Hself : attention_for d_model self.

Variables (Q K V : rtensor) (B L : nat).
Hypothesis HQ : shape Q = [B; L; d_model].
Hypothesis HK : shape K = [B; L; d_model].
Hypothesis HV : shape V = [B; L; d_model].
Hypothesis HB : 0 < B.
Hypothesis Hd : 0 < d_model.

Lemma attention_forward_value :
  exists out,
    MultiHeadAttention.scaled_dot_product_attention self
      (heads_of self B L (apply_linear (MultiHeadAttention.q_linear self) Q))
      (heads_of self B L (apply_linear (MultiHeadAttention.k_linear self) K))
      (heads_of self B L (apply_linear (MultiHeadAttention.v_linear self) V))
    = Ok out /\
    shape out = [B; MultiHeadAttention.num_heads self; L;
                 MultiHeadAttention.d_k self] /\
    MultiHeadAttention.forward self Q K V
    = Ok (apply_linear (MultiHeadAttention.out_proj self)
            (Tensor [B; L; d_model] (data (transpose_out 0%R 1 2 out)))).
Proof.
  pose proof Hself as (Hh & Hhd & Hq & Hk & Hv & Ho).
  unfold MultiHeadAttention.forward.
  rewrite size_at0 by (shapes; lia). rewrite HQ. cbn [nth bind].
  destruct (@Linear_forward_ok _ d_model d_model Q Hq) as [-> HsQ];
    [shapes; lia | shapes; reflexivity |].
  destruct (@Linear_forward_ok _ d_model d_model K Hk) as [-> HsK];
    [shapes; lia | shapes; reflexivity |].
  destruct (@Linear_forward_ok _ d_model d_model V Hv) as [-> HsV];
    [shapes; lia | shapes; reflexivity |].
  rewrite HQ in HsQ. rewrite HK in HsK. rewrite HV in HsV.
  cbn [removelast app] in HsQ, HsK, HsV.
  fold (apply_linear (MultiHeadAttention.q_linear self) Q) in *.
  fold (apply_linear (MultiHeadAttention.k_linear self) K) in *.
  fold (apply_linear (MultiHeadAttention.v_linear self) V) in *.
  cbn [bind].
  rewrite !(@split_heads_ok self d_model Hself B L) by assumption.
  cbn [bind].
  fold (heads_of self B L (apply_linear (MultiHeadAttention.q_linear self) Q)).
  fold (heads_of self B L (apply_linear (MultiHeadAttention.k_linear self) K)).
  fold (heads_of self B L (apply_linear (MultiHeadAttention.v_linear self) V)).
  destruct (@attention_output_entries self
              (heads_of self B L (apply_linear (MultiHeadAttention.q_linear self) Q))
              (heads_of self B L (apply_linear (MultiHeadAttention.k_linear self) K))
              (heads_of self B L (apply_linear (MultiHeadAttention.v_linear self) V))
              B (MultiHeadAttention.num_heads self) L L
              (MultiHeadAttention.d_k self) eq_refl eq_refl eq_refl)
    as (w & out & _ & Hout & Hso & _).
  exists out. split; [exact Hout|]. split; [exact Hso|].
  rewrite Hout. cbn [bind].
  rewrite (@concat_heads_ok self d_model Hself B L out Hso HB Hd).
  cbn [bind].
  destruct (@Linear_forward_ok _ d_model d_model
              (Tensor [B; L; d_model] (data (transpose_out 0%R 1 2 out))) Ho)
    as [-> _]; [shapes; lia | shapes; reflexivity |].
  reflexivity.
Qed.

End AttentionValue.

(** ** The blocks work on every item of a batch by itself *)

Section SameItemBlocks.
Variables (B B' b b' : nat).
Hypothesis Hb : b < B.
Hypothesis Hb' : b' < B'.

Lemma same_item_heads_of
  (self : MultiHeadAttention.t) (d_model L : nat) (l : Linear.t)
  (x x' : rtensor) :
  MultiHeadAttention.num_heads self * MultiHeadAttention.d_k self = d_model ->
  linear_for d_model d_model l ->
  same_item [L; d_model] B B' b b' x x' ->
  same_item [MultiHeadAttention.num_heads self; L; MultiHeadAttention.d_k self]
    B B' b b'
    (heads_of self B L (apply_linear l x))
    (heads_of self B' L (apply_linear l x')).
Proof.
  intros Hhd [HW _] Hx. unfold heads_of, apply_linear.
  apply same_item_transpose12; auto.
  eapply same_item_reshape with (s := [L; d_model]); auto.
  - eapply same_item_linear3; eauto.
  - cbn [numel]. rewrite <- Hhd. ring.
Qed.

Lemma same_item_attention_output
  (self : MultiHeadAttention.t) (q q' k k' v v' out out' : rtensor)
  (H L L' E : nat) :
  same_item [H; L; MultiHeadAttention.d_k self] B B' b b' q q' ->
  same_item [H; L'; MultiHeadAttention.d_k self] B B' b b' k k' ->
  same_item [H; L'; E] B B' b b' v v' ->
  MultiHeadAttention.scaled_dot_product_attention self q k v = Ok out ->
  MultiHeadAttention.scaled_dot_product_attention self q' k' v' = Ok out' ->
  same_item [H; L; E] B B' b b' out out'.
Proof.
  intros (Hq & Hq' & _ & _ & Hqe) (Hk & Hk' & _ & _ & Hke)
    (Hv & Hv' & _ & _ & Hve) Hout Hout'.
  set (dk := MultiHeadAttention.d_k self) in *.
  destruct (@attention_output_entries self q k v B H L L' E Hq Hk Hv)
    as (w & o & Hw & Ho & Hso & Hoe).
  destruct (@attention_output_entries self q' k' v' B' H L L' E Hq' Hk' Hv')
    as (w' & o' & Hw' & Ho' & Hso' & Hoe').
  rewrite Hout in Ho. injection Ho as <-.
  rewrite Hout' in Ho'. injection Ho' as <-.
  destruct (@attention_weights_entries self q k B H L L' Hq Hk)
    as (w0 & Hw0 & _ & Hwe).
  rewrite Hw in Hw0. injection Hw0 as <-.
  destruct (@attention_weights_entries self q' k' B' H L L' Hq' Hk')
    as (w0 & Hw0 & _ & Hwe').
  rewrite Hw' in Hw0. injection Hw0 as <-.
  repeat split; auto.
  intros idx Hidx.
  apply in_bounds3 in Hidx as (h & i & j & -> & Hh & Hi & Hj).
  rewrite Hoe, Hoe' by assumption.
  assert (Hscore : forall c, c < L' ->
            score dk q k b h i c = score dk q' k' b' h i c).
  { intros c Hc. unfold score. f_equal. apply sum_over_ext.
    intros e He. f_equal; [apply Hqe | apply Hke]; bounds. }
  apply sum_over_ext. intros c Hc. f_equal.
  - rewrite Hwe, Hwe' by assumption. fold dk.
    rewrite (Hscore c Hc). f_equal.
    apply sum_over_ext. intros e He. now rewrite Hscore.
  - apply Hve. bounds.
Qed.

Lemma same_item_attention
  (self : MultiHeadAttention.t) (d_model L : nat) (x x' a a' : rtensor) :
  attention_for d_model self -> 0 < d_model ->
  same_item [L; d_model] B B' b b' x x' ->
  MultiHeadAttention.forward self x x x = Ok a ->
  MultiHeadAttention.forward self x' x' x' = Ok a' ->
  same_item [L; d_model] B B' b b' a a'.
Proof.
  intros Hself Hd Hx Ha Ha'.
  pose proof Hx as (Hs & Hs' & _ & _ & _).
  pose proof Hself as (Hh & Hhd & Hq & Hk & Hv & Ho).
  destruct (@attention_forward_value self d_model Hself x x x B L
              Hs Hs Hs ltac:(lia) Hd) as (out & Hout & Hso & Hf).
  destruct (@attention_forward_value self d_model Hself x' x' x' B' L
              Hs' Hs' Hs' ltac:(lia) Hd) as (out' & Hout' & Hso' & Hf').
  assert (Ea : a = apply_linear (MultiHeadAttention.out_proj self)
                     (Tensor [B; L; d_model]
                        (data (transpose_out 0%R 1 2 out))))
    by congruence.
  assert (Ea' : a' = apply_linear (MultiHeadAttention.out_proj self)
                       (Tensor [B'; L; d_model]
                          (data (transpose_out 0%R 1 2 out'))))
    by congruence.
  rewrite Ea, Ea'. clear Ea Ea' Hf Hf' Ha Ha'.
  assert (Hoo : same_item [MultiHeadAttention.num_heads self; L;
                           MultiHeadAttention.d_k self] B B' b b' out out').
  { eapply same_item_attention_output; [| | |exact Hout|exact Hout'];
      eapply same_item_heads_of; eauto. }
  unfold apply_linear. destruct Ho as [HWo _].
  eapply same_item_linear3; eauto.
  eapply same_item_reshape
    with (s := [L; MultiHeadAttention.num_heads self;
                MultiHeadAttention.d_k self]); auto.
  - now apply same_item_transpose12.
  - cbn [numel]. rewrite <- Hhd. ring.
Qed.

Lemma same_item_ffn
  (f : PositionWiseFeedForward.t) (d d_ff L : nat) (x x' y y' : rtensor) :
  ffn_for d d_ff f ->
  same_item [L; d] B B' b b' x x' ->
  PositionWiseFeedForward.forward f x = Ok y ->
  PositionWiseFeedForward.forward f x' = Ok y' ->
  same_item [L; d] B B' b b' y y'.
Proof.
  intros Hf (Hs & Hs' & _ & _ & Hent) Hy Hy'.
  destruct (@ffn_forward_entries f d d_ff B L x Hf Hs) as (y0 & Hy0 & Hsy & He).
  rewrite Hy in Hy0. injection Hy0 as <-.
  destruct (@ffn_forward_entries f d d_ff B' L x' Hf Hs')
    as (y0 & Hy0 & Hsy' & He').
  rewrite Hy' in Hy0. injection Hy0 as <-.
  repeat split; auto.
  intros idx Hidx. apply in_bounds2 in Hidx as (l & k & -> & Hl & Hk).
  rewrite He, He' by assumption.
  f_equal. apply sum_over_ext. intros j Hj. f_equal. f_equal. f_equal.
  apply sum_over_ext. intros c Hc. f_equal. apply Hent. bounds.
Qed.

Lemma same_item_layer
  (layer : EncoderLayer.t) (d_model d_ff L : nat) (x x' y y' : rtensor) :
  layer_for d_model d_ff layer -> 0 < d_model ->
  same_item [L; d_model] B B' b b' x x' ->
  EncoderLayer.forward layer x = Ok y ->
  EncoderLayer.forward layer x' = Ok y' ->
  same_item [L; d_model] B B' b b' y y'.
Proof.
  intros Hlayer Hd Hx Hy Hy'.
  pose proof Hx as (Hs & Hs' & _ & _ & _).
  pose proof Hlayer as (Ha & Hn1 & Hf & Hn2).
  rewrite (@layer_forward_refines layer d_model d_ff Hlayer B L x Hs) in Hy.
  rewrite (@layer_forward_refines layer d_model d_ff Hlayer B' L x' Hs') in Hy'.
  unfold Spec.encoder_layer in Hy, Hy'.
  destruct (MultiHeadAttention.forward _ x x x) as [a|e] eqn:Ea;
    [|discriminate].
  destruct (MultiHeadAttention.forward _ x' x' x') as [a'|e] eqn:Ea';
    [|discriminate].
  cbn [bind] in Hy, Hy'.
  assert (Haa : same_item [L; d_model] B B' b b' a a')
    by (eapply same_item_attention; eauto).
  assert (Hx1 : same_item [L; d_model] B B' b b'
                  (Spec.normalize (EncoderLayer.norm1 layer)
                     (Spec.residual x a))
                  (Spec.normalize (EncoderLayer.norm1 layer)
                     (Spec.residual x' a'))).
  { apply same_item_normalize; auto. now apply same_item_residual. }
  destruct (PositionWiseFeedForward.forward _ _) as [f|e] eqn:Ef;
    [|discriminate].
  destruct (PositionWiseFeedForward.forward _
              (Spec.normalize _ (Spec.residual x' a'))) as [f'|e] eqn:Ef';
    [|discriminate].
  cbn [bind] in Hy, Hy'. injection Hy as <-. injection Hy' as <-.
  apply same_item_normalize; auto.
  apply same_item_residual; auto.
  eapply same_item_ffn; eauto.
Qed.

Lemma same_item_run_layers (d_model d_ff L : nat)
  (layers : list EncoderLayer.t) :
  Forall (layer_for d_model d_ff) layers -> 0 < d_model ->
  forall x x' y y',
    same_item [L; d_model] B B' b b' x x' ->
    TransformerEncoder.run_layers layers x = Ok y ->
    TransformerEncoder.run_layers layers x' = Ok y' ->
    same_item [L; d_model] B B' b b' y y'.
Proof.
  intros Hall Hd. induction Hall as [|layer layers Hl _ IH];
    intros x x' y y' Hx Hy Hy'; simpl in Hy, Hy'.
  - injection Hy as <-. injection Hy' as <-. exact Hx.
  - destruct (EncoderLayer.forward layer x) as [z|e] eqn:E; [|discriminate].
    destruct (EncoderLayer.forward layer x') as [z'|e] eqn:E'; [|discriminate].
    cbn [bind] in Hy, Hy'.
    apply (IH z z'); auto.
    eapply same_item_layer; eauto.
Qed.

End SameItemBlocks.

(** ** TransformerEncoder.forward works on every image by itself *)

Section ForwardItems.
Variables (m : TransformerEncoder.t) (img p d_model d_ff num_classes : nat).
Hypothesis Hm : encoder_for img p d_model d_ff num_classes m.
Hypothesis Hp : p <> 0.
Hypothesis Hd : d_model <> 0.
Hypothesis Himg : 0 < img.
Hypothesis Hdiv : img mod p = 0.

Variables (B B' b b' : nat).
Hypothesis Hb : b < B.
Hypothesis Hb' : b' < B'.

Lemma same_item_forward (x x' y y' : rtensor) :
  same_item [3; img; img] B B' b b' x x' ->
  TransformerEncoder.forward m x = Ok y ->
  TransformerEncoder.forward m x' = Ok y' ->
  same_item [num_classes] B B' b b' y y'.
Proof.
  intros Hx Hy Hy'.
  pose proof Hx as (Hs & Hs' & _ & _ & _).
  pose proof Hm as (_ & _ & _ & Hemb & Hpos & Hlayers & Hnorm & Hfc).
  pose proof (@divides_le img p Himg Hdiv) as Hle.
  assert (Hr : TransformerEncoder.forward m x = forward_steps m x)
    by (eapply forward_refines; eauto).
  assert (Hr' : TransformerEncoder.forward m x' = forward_steps m x')
    by (eapply forward_refines; eauto).
  rewrite Hr in Hy. rewrite Hr' in Hy'. clear Hr Hr'.
  unfold forward_steps, after_positions in Hy, Hy'.
  assert (Hpt : TransformerEncoder.patchify m x
                = Ok (Tensor [B; (img / p) ^ 2; 3 * p * p]
                        (data (unfolded 0%R p x))))
    by (eapply encoder_patchify_regroups; eauto; lia).
  assert (Hpt' : TransformerEncoder.patchify m x'
                 = Ok (Tensor [B'; (img / p) ^ 2; 3 * p * p]
                         (data (unfolded 0%R p x'))))
    by (eapply encoder_patchify_regroups; eauto; lia).
  rewrite Hpt in Hy. rewrite Hpt' in Hy'. clear Hpt Hpt'.
  cbn [bind] in Hy, Hy'.
  assert (Hpatches :
            same_item [(img / p) ^ 2; 3 * p * p] B B' b b'
              (Tensor [B; (img / p) ^ 2; 3 * p * p] (data (unfolded 0%R p x)))
              (Tensor [B'; (img / p) ^ 2; 3 * p * p]
                 (data (unfolded 0%R p x')))).
  { eapply same_item_reshape
      with (s := [3; img / p; img / p; p; p]); auto.
    - eapply same_item_unfolded; eauto.
    - cbn [numel]. rewrite Nat.pow_2_r. ring. }
  set (patches := Tensor [B; _; _] _) in *.
  set (patches' := Tensor [B'; _; _] _) in *.
  clearbody patches patches'.
  assert (Hz : same_item [(img / p) ^ 2; d_model] B B' b b'
                 (Spec.add_positions
                    (PositionalEncoding.pe
                       (TransformerEncoder.positional_encoding m))
                    (Spec.project (TransformerEncoder.patch_embedding m)
                       patches))
                 (Spec.add_positions
                    (PositionalEncoding.pe
                       (TransformerEncoder.positional_encoding m))
                    (Spec.project (TransformerEncoder.patch_embedding m)
                       patches'))).
  { apply same_item_add_positions; auto.
    destruct Hemb as [HW _].
    change (Spec.project (TransformerEncoder.patch_embedding m) patches)
      with (linear_out patches
              (Linear.weight (TransformerEncoder.patch_embedding m))
              (Linear.bias (TransformerEncoder.patch_embedding m))).
    change (Spec.project (TransformerEncoder.patch_embedding m) patches')
      with (linear_out patches'
              (Linear.weight (TransformerEncoder.patch_embedding m))
              (Linear.bias (TransformerEncoder.patch_embedding m))).
    eapply same_item_linear3; eauto. }
  destruct (TransformerEncoder.run_layers _ _) as [z|e] eqn:Ez;
    [|discriminate].
  destruct (TransformerEncoder.run_layers _
              (Spec.add_positions _ (Spec.project _ patches')))
    as [z'|e] eqn:Ez'; [|discriminate].
  cbn [bind] in Hy, Hy'. injection Hy as <-. injection Hy' as <-.
  assert (Hzz : same_item [(img / p) ^ 2; d_model] B B' b b' z z')
    by (eapply same_item_run_layers; eauto; lia).
  destruct Hfc as [HWfc _].
  change (same_item [num_classes] B B' b b'
            (linear_out (Spec.mean_pool
                           (Spec.normalize (TransformerEncoder.norm m) z))
               (Linear.weight (TransformerEncoder.fc m))
               (Linear.bias (TransformerEncoder.fc m)))
            (linear_out (Spec.mean_pool
                           (Spec.normalize (TransformerEncoder.norm m) z'))
               (Linear.weight (TransformerEncoder.fc m))
               (Linear.bias (TransformerEncoder.fc m)))).
  eapply same_item_linear2; eauto.
  eapply same_item_mean_pool; eauto.
  eapply same_item_normalize; eauto.
Qed.

End ForwardItems.

(** X16: [forward] works on every image of a batch by itself.  For a
    constructed model whose [patch_size] divides [img_size], if image [b]
    of a batch [x] has the pixels of image [b'] of a batch [x'], then
    [forward] returns on both batches and row [b] of the logits of [x] is
    row [b'] of the logits of [x']: neither the other images, nor the
    size of the batch, nor the place of the image in it changes the
    logits of an image. *)
Theorem X16_forward_treats_images_independently
  (g : rng) (img_size patch_size d_model num_heads num_layers d_ff num_classes : nat)
  (c c' : nat) (m : TransformerEncoder.t) (x x' : rtensor) (B B' b b' : nat) :
  TransformerEncoder.init g img_size patch_size d_model num_heads num_layers
    d_ff num_classes c = Ok (m, c') ->
  0 < img_size -> img_size mod patch_size = 0 ->
  shape x = [B; 3; img_size; img_size] ->
  shape x' = [B'; 3; img_size; img_size] ->
  b < B -> b' < B' ->
  (forall ch r w, ch < 3 -> r < img_size -> w < img_size ->
     rget x [b; ch; r; w] = rget x' [b'; ch; r; w]) ->
  exists y y',
    TransformerEncoder.forward m x = Ok y /\
    TransformerEncoder.forward m x' = Ok y' /\
    forall j, j < num_classes -> rget y [b; j] = rget y' [b'; j].
Proof.
  intros Hinit Himg Hdiv Hx Hx' Hb Hb' Hsame.
  apply encoder_init_inv in Hinit as (Hp & Hd & _ & _ & Hm).
  assert (Hok : exists y, TransformerEncoder.forward m x = Ok y)
    by (eapply forward_ok; eauto; lia).
  assert (Hok' : exists y', TransformerEncoder.forward m x' = Ok y')
    by (eapply forward_ok; eauto; lia).
  destruct Hok as (y & Hy). destruct Hok' as (y' & Hy').
  exists y, y'. split; [exact Hy|]. split; [exact Hy'|].
  assert (Hitem : same_item [3; img_size; img_size] B B' b b' x x').
  { repeat split; auto. intros idx Hidx.
    apply in_bounds3 in Hidx as (ch & r & w & -> & Hc & Hr & Hw).
    now apply Hsame. }
  assert (Hyy : same_item [num_classes] B B' b b' y y')
    by (eapply same_item_forward; eauto).
  intros j Hj. eapply same_item_read; eauto. bounds.
Qed.

Lemma X16_witness :
  exists m c' y y',
    TransformerEncoder.init g0 4 2 4 2 1 8 2 0 = Ok (m, c') /\
    TransformerEncoder.forward m (zeros [1; 3; 4; 4]) = Ok y /\
    TransformerEncoder.forward m one_then_zero = Ok y' /\
    forall j, j < 2 -> rget y [0; j] = rget y' [1; j].
Proof.
  destruct (TransformerEncoder.init g0 4 2 4 2 1 8 2 0) as [[m c']|e] eqn:Hinit;
    [|cbn in Hinit; discriminate].
  destruct (@X16_forward_treats_images_independently g0 4 2 4 2 1 8 2 0 c' m
              (zeros [1; 3; 4; 4]) one_then_zero 1 2 0 1 Hinit)
    as (y & y' & Hy & Hy' & Hrows);
    try reflexivity; try lia.
  exists m, c', y, y'. repeat split; assumption.
Defined.

(** ** validate *)

Section ValidateFacts.
Variable model : rtensor -> result rtensor.
Variable criterion : rtensor -> tensor Z -> result R.

Lemma validate_loop_app (l1 l2 : list batch) (acc : totals) :
  validate_loop model criterion (l1 ++ l2) acc
  = (t <<- validate_loop model criterion l1 acc ;;
     validate_loop model criterion l2 t).
Proof.
  revert acc. induction l1 as [|b l1 IH]; intros acc; simpl; [reflexivity|].
  destruct (validate_batch model criterion acc b) as [acc'|e]; simpl;
    [apply IH|reflexivity].
Qed.

Lemma validate_batch_model_error (acc : totals) (b : batch) (e : error) :
  model (pixel_values b) = Err e ->
  validate_batch model criterion acc b = Fail (Raised e).
Proof. intros H. unfold validate_batch. now rewrite H. Qed.

End ValidateFacts.

(** X17: how [validate] fails.  On a data loader without batches it
    raises ZeroDivisionError when it divides the total loss by
    [len(dataloader)], whatever the model and the criterion are; and when
    the model raises on a batch that follows batches on which the loop
    body ran through, [validate] raises that error: nothing is printed
    for the batches done so far. *)
Theorem X17_validate_failures
  (model : rtensor -> result rtensor) (criterion : rtensor -> tensor Z -> result R) :
  validate model criterion [] = Fail (Raised ZeroDivisionError) /\
  forall (before after : list batch) (b : batch) (t : totals) (e : error),
    validate_loop model criterion before (Totals 0 0 0) = Done t ->
    model (pixel_values b) = Err e ->
    validate model criterion (before ++ b :: after) = Fail (Raised e).
Proof.
  split; [reflexivity|].
  intros before after b t e Hbefore Hmodel. unfold validate.
  rewrite validate_loop_app, Hbefore. cbn [obind validate_loop].
  now rewrite (@validate_batch_model_error model criterion t b e Hmodel).
Qed.

Lemma X17_witness :
  exists m c',
    TransformerEncoder.init g0 4 2 4 2 1 8 2 0 = Ok (m, c') /\
    validate (TransformerEncoder.forward m) (fun _ _ => Ok 0%R)
      ([] ++ Batch (zeros [0; 3; 4; 4]) (Tensor [0] []) :: [])
    = Fail (Raised AmbiguousShape).
Proof.
  destruct (TransformerEncoder.init g0 4 2 4 2 1 8 2 0) as [[m c']|e] eqn:Hinit;
    [|cbn in Hinit; discriminate].
  exists m, c'. split; [reflexivity|].
  apply encoder_init_inv in Hinit as (Hp & Hd & _ & _ & Hm).
  apply (proj2 (X17_validate_failures (TransformerEncoder.forward m)
                  (fun _ _ => Ok 0%R)) [] [] _ (Totals 0 0 0) AmbiguousShape
           eq_refl).
  cbn [pixel_values].
  eapply forward_any_empty_batch with (H := 4) (W := 4) (C := 3);
    eauto; (reflexivity || lia).
Defined.

(** ** The accuracy that validate prints *)

Lemma shape_argmax_out (k : nat) (x : rtensor) :
  shape (argmax_out k x) = firstn k (shape x) ++ skipn (S k) (shape x).
Proof. reflexivity. Qed.

Lemma argmax_rows (x : rtensor) (n K : nat) :
  shape x = [n; K] -> 0 < K ->
  argmax x 1 = Done (argmax_out 1 x) /\ shape (argmax_out 1 x) = [n].
Proof.
  intros Hx HK. split.
  - unfold argmax. change 1%Z with (Z.of_nat 1).
    rewrite wrap_dim_nonneg by (unfold rank; rewrite Hx; simpl; lia).
    cbn [lift obind]. rewrite Hx. cbn [nth].
    destruct (Nat.eqb_spec K 0); [lia|reflexivity].
  - rewrite shape_argmax_out, Hx. reflexivity.
Qed.

Lemma count_equal_rows (a l : tensor Z) (n : nat) :
  shape a = [n] -> shape l = [n] ->
  exists hits, count_equal a l = Ok hits /\ hits <= n.
Proof.
  intros Ha Hl. unfold count_equal. rewrite Ha, Hl, broadcast_shapes_same.
  cbn [bind]. eexists. split; [reflexivity|].
  eapply Nat.le_trans; [apply filter_length_le|].
  rewrite indices_length. cbn [numel]. lia.
Qed.

Section ValidateRuns.
Variable model : rtensor -> result rtensor.
Variable criterion : rtensor -> tensor Z -> result R.

(** A batch on which the loop body runs through: the model returns one
    row of at least one score for each of the labels, of which there is
    at least one, and the criterion returns. *)
Let regular (b : batch) : Prop :=
  exists out n K loss,
    model (pixel_values b) = Ok out /\ shape out = [n; K] /\
    0 < K /\ 0 < n /\ shape (label b) = [n] /\
    criterion out (label b) = Ok loss.

Lemma validate_batch_regular (acc : totals) (b : batch) :
  regular b -> total_correct acc <= total_samples acc ->
  exists acc',
    validate_batch model criterion acc b = Done acc' /\
    total_correct acc' <= total_samples acc' /\
    total_samples acc < total_samples acc'.
Proof.
  intros (out & n & K & loss & Hout & Hs & HK & Hn & Hl & Hloss) Hacc.
  unfold validate_batch. rewrite Hout. cbn [lift obind].
  rewrite Hloss. cbn [lift obind].
  destruct (@argmax_rows out n K Hs HK) as [-> Hsa]. cbn [obind].
  destruct (@count_equal_rows (argmax_out 1 out) (label b) n Hsa Hl)
    as (hits & -> & Hhits).
  cbn [lift obind].
  rewrite size_at0 by (unfold rank; rewrite Hl; simpl; lia).
  rewrite Hl. cbn [nth lift obind].
  eexists. split; [reflexivity|]. cbn [total_correct total_samples]. lia.
Qed.

Lemma validate_loop_regular (dataloader : list batch) :
  Forall regular dataloader ->
  forall acc, total_correct acc <= total_samples acc ->
    exists t,
      validate_loop model criterion dataloader acc = Done t /\
      total_correct t <= total_samples t /\
      total_samples acc + length dataloader <= total_samples t.
Proof.
  induction 1 as [|b rest Hb _ IH]; intros acc Hacc; simpl.
  - exists acc. repeat split; auto. lia.
  - destruct (@validate_batch_regular acc b Hb Hacc)
      as (acc' & -> & Hacc' & Hlt).
    cbn [obind].
    destruct (IH acc' Hacc') as (t & Ht & Hct & Hst).
    exists t. repeat split; auto. lia.
Qed.

Lemma validate_regular (dataloader : list batch) :
  dataloader <> [] -> Forall regular dataloader ->
  exists avg acc,
    validate model criterion dataloader = Done (avg, acc) /\
    (0 <= acc <= 100)%R.
Proof.
  intros Hne Hall.
  destruct (@validate_loop_regular dataloader Hall (Totals 0 0 0))
    as (t & Ht & Hct & Hst); [cbn; lia|].
  cbn [total_samples] in Hst.
  assert (Hlen : 0 < length dataloader)
    by (destruct dataloader; [contradiction|simpl; lia]).
  unfold validate. rewrite Ht. cbn [obind].
  destruct (Nat.eqb_spec (length dataloader) 0); [lia|].
  destruct (Nat.eqb_spec (total_samples t) 0); [lia|].
  eexists _, _. split; [reflexivity|].
  assert (Hs : (0 < INR (total_samples t))%R) by (apply lt_0_INR; lia).
  assert (Hc : (0 <= INR (total_correct t))%R) by apply pos_INR.
  assert (Hcs : (INR (total_correct t) <= INR (total_samples t))%R)
    by (now apply le_INR).
  split.
  - apply Rmult_le_pos; [lra|]. left. now apply Rinv_0_lt_compat.
  - apply (Rmult_le_reg_r (INR (total_samples t))); [exact Hs|].
    replace (100 * INR (total_correct t) / INR (total_samples t)
             * INR (total_samples t))%R
      with (100 * INR (total_correct t))%R by (field; lra).
    lra.
Qed.

End ValidateRuns.

(** X18: the accuracy [validate] prints is a percentage.  On a data
    loader with at least one batch, if on every batch the model returns
    one row of at least one score for each label, the batch has at least
    one label, and the criterion returns, then [validate] returns, and
    the accuracy lies between 0 and 100. *)
Theorem X18_validate_accuracy_is_a_percentage
  (model : rtensor -> result rtensor) (criterion : rtensor -> tensor Z -> result R)
  (dataloader : list batch) :
  dataloader <> [] ->
  (forall b, In b dataloader ->
     exists out n K loss,
       model (pixel_values b) = Ok out /\ shape out = [n; K] /\
       0 < K /\ 0 < n /\ shape (label b) = [n] /\
       criterion out (label b) = Ok loss) ->
  exists avg_loss accuracy,
    validate model criterion dataloader = Done (avg_loss, accuracy) /\
    (0 <= accuracy <= 100)%R.
Proof.
  intros Hne Hall. apply validate_regular; [exact Hne|].
  apply Forall_forall. exact Hall.
Qed.

Lemma X18_witness :
  exists m c' avg_loss accuracy,
    TransformerEncoder.init g0 4 2 4 2 1 8 2 0 = Ok (m, c') /\
    validate (TransformerEncoder.forward m) (fun _ _ => Ok 0%R)
      [Batch (zeros [2; 3; 4; 4]) (Tensor [2] [0%Z; 1%Z])]
    = Done (avg_loss, accuracy) /\
    (0 <= accuracy <= 100)%R.
Proof.
  destruct (TransformerEncoder.init g0 4 2 4 2 1 8 2 0) as [[m c']|e] eqn:Hinit;
    [|cbn in Hinit; discriminate].
  exists m, c'.
  apply encoder_init_inv in Hinit as (Hp & Hd & _ & _ & Hm).
  destruct (@X18_validate_accuracy_is_a_percentage
              (TransformerEncoder.forward m) (fun _ _ => Ok 0%R)
              [Batch (zeros [2; 3; 4; 4]) (Tensor [2] [0%Z; 1%Z])])
    as (avg & acc & Hv & Hacc).
  - discriminate.
  - intros b [<-|[]]. cbn [pixel_values label].
    assert (Hout : exists y, TransformerEncoder.forward m (zeros [2; 3; 4; 4])
                             = Ok y /\ shape y = [2; 2]).
    { eapply forward_regrouped with (C := 3) (rows := (4 / 2) ^ 2);
        eauto; try reflexivity; try lia. }
    destruct Hout as (y & Hy & Hs).
    exists y, 2, 2, 0%R. repeat split; auto.
  - exists avg, acc. split; [reflexivity|]. split; assumption.
Defined.

(** ** The configuration of [main] *)

(** X19: the hyperparameters that [main] passes to [TransformerEncoder]
    (image size 224, patch size 16, width 256, 8 heads, 6 layers, hidden
    width 1024, 2 classes) pass every check of construction, whatever the
    random initial parameters are: the model has 196 patches of length 768
    and 6 layers, and [forward] maps every non-empty batch of shape
    [B, 3, 224, 224] to logits of shape [B, 2]. *)
Theorem X19_main_configuration_constructs (g : rng) (c : nat) :
  exists m c',
    TransformerEncoder.init g 224 16 256 8 6 1024 2 c = Ok (m, c') /\
    TransformerEncoder.num_patches m = 196 /\
    TransformerEncoder.patch_dim m = 768 /\
    length (TransformerEncoder.encoder_layers m) = 6 /\
    forall (x : rtensor) (B : nat),
      shape x = [B; 3; 224; 224] -> 0 < B ->
      exists y, TransformerEncoder.forward m x = Ok y /\ shape y = [B; 2].
Proof.
  destruct (@encoder_init_ok g 224 16 256 8 6 1024 2 c) as (m & c' & Hinit).
  - discriminate.
  - right. split; [discriminate | reflexivity].
  - right. split; [discriminate | reflexivity].
  - exists m, c'. split; [exact Hinit|].
    apply encoder_init_inv in Hinit as (Hp & Hd & _ & Hlen & Hm).
    pose proof Hm as (_ & HN & HP & _).
    split; [rewrite HN; reflexivity|].
    split; [rewrite HP; reflexivity|].
    split; [exact Hlen|].
    intros x B Hx HB.
    eapply forward_regrouped with (C := 3) (rows := 196); eauto;
      try lia; try reflexivity;
      try (left; apply Nat.eq_le_incl; reflexivity).
Qed.

(** ** Sums over rearranged positions *)

Lemma Rsum_map_permutation (f : nat -> R) (l l' : list nat) :
  Permutation l l' -> Rsum (map f l) = Rsum (map f l').
Proof.
  induction 1 as [|a l l' _ IH|a a' l|l l' l'' _ IH1 _ IH2]; simpl.
  - reflexivity.
  - fold (Rsum (map f l)). fold (Rsum (map f l')). now rewrite IH.
  - fold (Rsum (map f l)). ring.
  - now rewrite IH1.
Qed.

Lemma sum_over_permutation (L : nat) (sigma : nat -> nat) (f : nat -> R) :
  permutation_of L sigma ->
  sum_over L (fun k => f (sigma k)) = sum_over L f.
Proof.
  intros H. unfold sum_over.
  rewrite <- (map_map sigma f). now apply Rsum_map_permutation.
Qed.

Lemma permutation_lt (L : nat) (sigma : nat -> nat) (k : nat) :
  permutation_of L sigma -> k < L -> sigma k < L.
Proof.
  intros H Hk.
  assert (Hin : In (sigma k) (map sigma (seq 0 L)))
    by (apply in_map, in_seq; lia).
  apply (Permutation_in _ H), in_seq in Hin. lia.
Qed.

Lemma permutation_of_id (L : nat) : permutation_of L (fun k => k).
Proof. unfold permutation_of. now rewrite map_id. Qed.

(** ** The heads, entry by entry *)

Lemma rget_heads_of (self : MultiHeadAttention.t) (B L d : nat) (y : rtensor)
  (b l h k : nat) :
  shape y = [B; L; d] ->
  MultiHeadAttention.num_heads self * MultiHeadAttention.d_k self = d ->
  b < B -> l < L -> h < MultiHeadAttention.num_heads self ->
  k < MultiHeadAttention.d_k self ->
  rget (heads_of self B L y) [b; h; l; k]
  = rget y [b; l; h * MultiHeadAttention.d_k self + k].
Proof.
  intros Hy Hd Hb Hl Hh Hk. unfold heads_of, transpose_out.
  cbn [shape swap_at length seq map nth Nat.eqb].
  rewrite rget_tbuild by bounds.
  cbn [swap_at length seq map nth Nat.eqb].
  unfold rget, tget. cbn [shape data]. rewrite Hy. cbn [offset numel].
  f_equal. rewrite <- Hd. ring.
Qed.

Lemma shape_heads_of (self : MultiHeadAttention.t) (B L : nat) (y : rtensor) :
  shape (heads_of self B L y)
  = [B; MultiHeadAttention.num_heads self; L; MultiHeadAttention.d_k self].
Proof. reflexivity. Qed.

Lemma rget_concat (out : rtensor) (B H L dk d b l e : nat) :
  shape out = [B; H; L; dk] -> H * dk = d ->
  b < B -> l < L -> e < d ->
  rget (Tensor [B; L; d] (data (transpose_out 0%R 1 2 out))) [b; l; e]
  = rget out [b; e / dk; l; e mod dk].
Proof.
  intros Ho Hd Hb Hl He.
  assert (Hdk : dk <> 0) by (intros ->; lia).
  assert (Hq : e / dk < H)
    by (apply Nat.Div0.div_lt_upper_bound; lia).
  assert (Hr : e mod dk < dk) by (now apply Nat.mod_upper_bound).
  transitivity (rget (transpose_out 0%R 1 2 out) [b; l; e / dk; e mod dk]).
  - unfold rget, tget. cbn [shape data].
    rewrite shape_transpose_out, Ho.
    cbn [swap_at length seq map nth Nat.eqb offset numel].
    f_equal. pose proof (Nat.div_mod_eq e dk). rewrite <- Hd. nia.
  - unfold transpose_out. rewrite Ho.
    cbn [swap_at length seq map nth Nat.eqb].
    rewrite rget_tbuild by bounds. reflexivity.
Qed.

(** ** MultiHeadAttention.forward in closed form *)

Section AttentionClosedForm.
Variables (self : MultiHeadAttention.t) (d_model : nat).
Hypothesis Hself : attention_for d_model self.

Variables (Q K V : rtensor) (B L L1 : nat).
Hypothesis HQ : shape Q = [B; L; d_model].
Hypothesis HK : shape K = [B; L1; d_model].
Hypothesis HV : shape V = [B; L1; d_model].
Hypothesis HB : 0 < B.
Hypothesis Hd : 0 < d_model.

Lemma attention_forward_value_cross :
  exists out,
    MultiHeadAttention.scaled_dot_product_attention self
      (heads_of self B L (apply_linear (MultiHeadAttention.q_linear self) Q))
      (heads_of self B L1 (apply_linear (MultiHeadAttention.k_linear self) K))
      (heads_of self B L1 (apply_linear (MultiHeadAttention.v_linear self) V))
    = Ok out /\
    shape out = [B; MultiHeadAttention.num_heads self; L;
                 MultiHeadAttention.d_k self] /\
    MultiHeadAttention.forward self Q K V
    = Ok (apply_linear (MultiHeadAttention.out_proj self)
            (Tensor [B; L; d_model] (data (transpose_out 0%R 1 2 out)))).
Proof.
  pose proof Hself as (Hh & Hhd & Hq & Hk & Hv & Ho).
  unfold MultiHeadAttention.forward.
  rewrite size_at0 by (shapes; lia). rewrite HQ. cbn [nth bind].
  destruct (@Linear_forward_ok _ d_model d_model Q Hq) as [-> HsQ];
    [shapes; lia | shapes; reflexivity |].
  destruct (@Linear_forward_ok _ d_model d_model K Hk) as [-> HsK];
    [shapes; lia | shapes; reflexivity |].
  destruct (@Linear_forward_ok _ d_model d_model V Hv) as [-> HsV];
    [shapes; lia | shapes; reflexivity |].
  rewrite HQ in HsQ. rewrite HK in HsK. rewrite HV in HsV.
  cbn [removelast app] in HsQ, HsK, HsV.
  fold (apply_linear (MultiHeadAttention.q_linear self) Q) in *.
  fold (apply_linear (MultiHeadAttention.k_linear self) K) in *.
  fold (apply_linear (MultiHeadAttention.v_linear self) V) in *.
  cbn [bind].
  rewrite (@split_heads_ok self d_model Hself B L) by assumption.
  rewrite !(@split_heads_ok self d_model Hself B L1) by assumption.
  cbn [bind].
  fold (heads_of self B L (apply_linear (MultiHeadAttention.q_linear self) Q)).
  fold (heads_of self B L1 (apply_linear (MultiHeadAttention.k_linear self) K)).
  fold (heads_of self B L1 (apply_linear (MultiHeadAttention.v_linear self) V)).
  destruct (@attention_output_entries self
              (heads_of self B L (apply_linear (MultiHeadAttention.q_linear self) Q))
              (heads_of self B L1 (apply_linear (MultiHeadAttention.k_linear self) K))
              (heads_of self B L1 (apply_linear (MultiHeadAttention.v_linear self) V))
              B (MultiHeadAttention.num_heads self) L L1
              (MultiHeadAttention.d_k self) eq_refl eq_refl eq_refl)
    as (w & out & _ & Hout & Hso & _).
  exists out. split; [exact Hout|]. split; [exact Hso|].
  rewrite Hout. cbn [bind].
  rewrite (@concat_heads_ok self d_model Hself B L out Hso HB Hd).
  cbn [bind].
  destruct (@Linear_forward_ok _ d_model d_model
              (Tensor [B; L; d_model] (data (transpose_out 0%R 1 2 out))) Ho)
    as [-> _]; [shapes; lia | shapes; reflexivity |].
  reflexivity.
Qed.

Lemma projection_entries (lin : Linear.t) (x : rtensor) (n : nat) :
  linear_for d_model d_model lin -> shape x = [B; n; d_model] ->
  shape (apply_linear lin x) = [B; n; d_model] /\
  forall b l e, b < B -> l < n -> e < d_model ->
    rget (apply_linear lin x) [b; l; e]
    = projected self lin (fun l c => rget x [b; l; c]) l e.
Proof.
  intros [HW Hbias] Hx. pose proof Hself as (_ & Hhd & _). split.
  - unfold apply_linear. rewrite shape_linear_out, Hx, HW. reflexivity.
  - intros b l e Hb Hl He. unfold apply_linear, projected.
    rewrite Hhd.
    now apply (@rget_linear_out3 _ _ _ B n d_model d_model).
Qed.

Lemma head_entries (lin : Linear.t) (x : rtensor) (n : nat) :
  linear_for d_model d_model lin -> shape x = [B; n; d_model] ->
  forall b h l e,
    b < B -> h < MultiHeadAttention.num_heads self -> l < n ->
    e < MultiHeadAttention.d_k self ->
    rget (heads_of self B n (apply_linear lin x)) [b; h; l; e]
    = projected self lin (fun l c => rget x [b; l; c]) l
        (h * MultiHeadAttention.d_k self + e).
Proof.
  intros Hlin Hx b h l e Hb Hh Hl He.
  pose proof Hself as (_ & Hhd & _).
  destruct (@projection_entries lin x n Hlin Hx) as [Hs Hent].
  rewrite (@rget_heads_of self B n d_model) by assumption.
  apply Hent; auto. nia.
Qed.

Lemma attention_forward_closed_form :
  exists a,
    MultiHeadAttention.forward self Q K V = Ok a /\
    shape a = [B; L; d_model] /\ wf a /\
    forall b l j, b < B -> l < L -> j < d_model ->
      rget a [b; l; j]
      = attention_entry self L1
          (fun l c => rget Q [b; l; c]) (fun l c => rget K [b; l; c])
          (fun l c => rget V [b; l; c]) l j.
Proof.
  pose proof Hself as (Hh & Hhd & Hq & Hk & Hv & Ho).
  destruct attention_forward_value_cross as (out & Hout & Hso & Hf).
  set (dk := MultiHeadAttention.d_k self) in *.
  set (H := MultiHeadAttention.num_heads self) in *.
  set (q := heads_of self B L _) in *.
  set (k := heads_of self B L1 (apply_linear (MultiHeadAttention.k_linear self) K)) in *.
  set (v := heads_of self B L1 (apply_linear (MultiHeadAttention.v_linear self) V)) in *.
  destruct (@attention_output_entries self q k v B H L L1 dk
              eq_refl eq_refl eq_refl)
    as (w & out0 & Hw & Hout0 & _ & Hoe).
  rewrite Hout in Hout0. injection Hout0 as <-.
  destruct (@attention_weights_entries self q k B H L L1 eq_refl eq_refl)
    as (w0 & Hw0 & _ & Hwe).
  rewrite Hw in Hw0. injection Hw0 as <-.
  eexists. split; [exact Hf|].
  split; [unfold apply_linear; rewrite shape_linear_out; destruct Ho as [-> _];
          reflexivity|].
  split; [apply wf_linear_out|].
  intros b l j Hb Hl Hj.
  set (rq := fun l c => rget Q [b; l; c]).
  set (rk := fun l c => rget K [b; l; c]).
  set (rv := fun l c => rget V [b; l; c]).
  assert (Hscore : forall h i c, h < H -> i < L -> c < L1 ->
            score dk q k b h i c = head_score self rq rk h i c).
  { intros h i c Hh0 Hi Hc. unfold score, head_score. fold dk. f_equal.
    apply sum_over_ext. intros e He. f_equal.
    - apply (@head_entries _ Q L Hq HQ); auto.
    - apply (@head_entries _ K L1 Hk HK); auto. }
  assert (Hweight : forall h i c, h < H -> i < L -> c < L1 ->
            rget w [b; h; i; c] = head_weight self L1 rq rk h i c).
  { intros h i c Hh0 Hi Hc. rewrite Hwe by assumption. fold dk.
    unfold head_weight. rewrite Hscore by assumption. f_equal.
    apply sum_over_ext. intros c0 Hc0. now rewrite Hscore. }
  assert (Houtput : forall h i e, h < H -> i < L -> e < dk ->
            rget out [b; h; i; e] = head_output self L1 rq rk rv h i e).
  { intros h i e Hh0 Hi He. rewrite Hoe by assumption.
    unfold head_output. apply sum_over_ext. intros c Hc. f_equal.
    - now apply Hweight.
    - apply (@head_entries _ V L1 Hv HV); auto. }
  unfold apply_linear, attention_entry. fold dk H. rewrite Hhd.
  destruct Ho as [HWo _].
  rewrite (@rget_linear_out3 _ _ _ B L d_model d_model)
    by (auto; reflexivity).
  f_equal. apply sum_over_ext. intros e He. f_equal.
  rewrite (@rget_concat out B H L dk d_model) by assumption.
  assert (Hdk : dk <> 0) by (intros E; rewrite E in Hhd; lia).
  apply Houtput; auto.
  - apply Nat.Div0.div_lt_upper_bound. lia.
  - now apply Nat.mod_upper_bound.
Qed.

End AttentionClosedForm.

(** X20: [MultiHeadAttention.forward] in closed form.  For a constructed
    module, queries of shape [B, L, d_model] and keys and values of shape
    [B, L', d_model], with [B] and [d_model] positive, [forward] returns a
    tensor of the shape of the queries whose entry [j] at position [l] of
    batch element [b] is [attention_entry]: head [h] takes the entries
    [h d_k, ..., h d_k + d_k - 1] of the three projections, weighs the
    values by the softmax of the scaled products of the query at [l] with
    the keys, the heads are put side by side in the order of their
    numbers, and the output projection is applied. *)
Theorem X20_attention_forward_closed_form
  (g : rng) (d_model num_heads c c' : nat) (self : MultiHeadAttention.t)
  (Q K V : rtensor) (B L L' : nat) :
  MultiHeadAttention.init g d_model num_heads c = Ok (self, c') ->
  shape Q = [B; L; d_model] -> shape K = [B; L'; d_model] ->
  shape V = [B; L'; d_model] -> 0 < B -> 0 < d_model ->
  exists a,
    MultiHeadAttention.forward self Q K V = Ok a /\
    shape a = [B; L; d_model] /\
    forall b l j, b < B -> l < L -> j < d_model ->
      rget a [b; l; j]
      = attention_entry self L'
          (fun l c => rget Q [b; l; c]) (fun l c => rget K [b; l; c])
          (fun l c => rget V [b; l; c]) l j.
Proof.
  intros Hinit HQ HK HV HB Hd.
  apply attention_init_inv in Hinit as (_ & _ & Hfor & _ & _).
  destruct (@attention_forward_closed_form self d_model Hfor Q K V B L L'
              HQ HK HV HB Hd) as (a & Ha & Hs & _ & Hent).
  exists a. auto.
Qed.

Lemma X20_witness :
  exists self c' a,
    MultiHeadAttention.init g0 4 2 0 = Ok (self, c') /\
    MultiHeadAttention.forward self (ones [2; 3; 4]) (zeros [2; 5; 4])
      (ones [2; 5; 4]) = Ok a /\
    shape a = [2; 3; 4] /\
    rget a [1; 2; 3]
    = attention_entry self 5
        (fun l c => rget (ones [2; 3; 4]) [1; l; c])
        (fun l c => rget (zeros [2; 5; 4]) [1; l; c])
        (fun l c => rget (ones [2; 5; 4]) [1; l; c]) 2 3.
Proof.
  destruct (MultiHeadAttention.init g0 4 2 0) as [[self c']|e] eqn:Hinit;
    [|cbn in Hinit; discriminate].
  destruct (@X20_attention_forward_closed_form g0 4 2 0 c' self
              (ones [2; 3; 4]) (zeros [2; 5; 4]) (ones [2; 5; 4]) 2 3 5
              Hinit eq_refl eq_refl eq_refl) as (a & Ha & Hs & Hent);
    [lia | lia |].
  exists self, c', a. split; [reflexivity|]. split; [exact Ha|].
  split; [exact Hs|]. apply Hent; lia.
Defined.

(** ** Attention and the order of the positions *)

Lemma projected_ext (self : MultiHeadAttention.t) (lin : Linear.t)
  (r r' : nat -> nat -> R) (l e : nat) :
  (forall c, c < MultiHeadAttention.num_heads self * MultiHeadAttention.d_k self ->
     r l c = r' l c) ->
  projected self lin r l e = projected self lin r' l e.
Proof.
  intros H. unfold projected. f_equal. apply sum_over_ext.
  intros c Hc. now rewrite H.
Qed.

(** The closed form reads the queries at position [l] only and the keys
    and values at the positions below [L']. *)
Lemma attention_entry_ext (self : MultiHeadAttention.t) (L' : nat)
  (rq rq' rk rk' rv rv' : nat -> nat -> R) (l j : nat) :
  (forall c, c < MultiHeadAttention.num_heads self * MultiHeadAttention.d_k self ->
     rq l c = rq' l c) ->
  (forall k c, k < L' ->
     c < MultiHeadAttention.num_heads self * MultiHeadAttention.d_k self ->
     rk k c = rk' k c /\ rv k c = rv' k c) ->
  attention_entry self L' rq rk rv l j = attention_entry self L' rq' rk' rv' l j.
Proof.
  intros Hq Hkv.
  assert (Hscore : forall h k, k < L' ->
            head_score self rq rk h l k = head_score self rq' rk' h l k).
  { intros h k Hk. unfold head_score. f_equal. apply sum_over_ext.
    intros e He. f_equal.
    - now apply projected_ext.
    - apply projected_ext. intros c Hc. now apply Hkv. }
  unfold attention_entry. f_equal. apply sum_over_ext. intros e He. f_equal.
  unfold head_output. apply sum_over_ext. intros k Hk. f_equal.
  - unfold head_weight. rewrite Hscore by exact Hk. f_equal.
    apply sum_over_ext. intros c Hc. now rewrite Hscore.
  - apply projected_ext. intros c Hc. now apply Hkv.
Qed.

(** Rearranging the keys together with their values changes nothing. *)
Lemma attention_entry_keys_permuted (self : MultiHeadAttention.t) (L' : nat)
  (sigma : nat -> nat) (rq rk rv : nat -> nat -> R) (l j : nat) :
  permutation_of L' sigma ->
  attention_entry self L' rq (fun k c => rk (sigma k) c)
    (fun k c => rv (sigma k) c) l j
  = attention_entry self L' rq rk rv l j.
Proof.
  intros Hs. unfold attention_entry. f_equal. apply sum_over_ext.
  intros e He. f_equal. unfold head_output.
  set (h := e / MultiHeadAttention.d_k self).
  set (i := e mod MultiHeadAttention.d_k self).
  assert (Hw : forall k,
            head_weight self L' rq (fun k c => rk (sigma k) c) h l k
            = head_weight self L' rq rk h l (sigma k)).
  { intros k. unfold head_weight.
    change (head_score self rq (fun k0 c => rk (sigma k0) c) h l k)
      with (head_score self rq rk h l (sigma k)).
    f_equal.
    apply (@sum_over_permutation L' sigma
             (fun c => exp (head_score self rq rk h l c)) Hs). }
  rewrite (@sum_over_ext L' _
             (fun k => head_weight self L' rq rk h l (sigma k)
                       * projected self (MultiHeadAttention.v_linear self) rv
                           (sigma k) (h * MultiHeadAttention.d_k self + i))%R)
    by (intros k Hk; now rewrite Hw).
  apply (@sum_over_permutation L' sigma
           (fun k => head_weight self L' rq rk h l k
                     * projected self (MultiHeadAttention.v_linear self) rv k
                         (h * MultiHeadAttention.d_k self + i))%R Hs).
Qed.

(** ** Tensors with rearranged positions *)

Lemma shape_permute_positions (sigma : nat -> nat) (x : rtensor) :
  shape (permute_positions sigma x) = shape x.
Proof. reflexivity. Qed.

Lemma wf_permute_positions (sigma : nat -> nat) (x : rtensor) :
  wf (permute_positions sigma x).
Proof. apply wf_tbuild. Qed.

Lemma rget_permute_positions (sigma : nat -> nat) (x : rtensor)
  (B L d b l c : nat) :
  shape x = [B; L; d] -> b < B -> l < L -> c < d ->
  rget (permute_positions sigma x) [b; l; c] = rget x [b; sigma l; c].
Proof.
  intros Hx Hb Hl Hc. unfold permute_positions.
  rewrite rget_tbuild by (rewrite Hx; bounds). reflexivity.
Qed.

(** A tensor of shape [B, L, d] whose entries are those of [y] at the
    rearranged positions is [y] with its positions rearranged. *)
Lemma is_permuted (sigma : nat -> nat) (t y : rtensor) (B L d : nat) :
  wf t -> shape t = [B; L; d] -> shape y = [B; L; d] ->
  (forall b l c, b < B -> l < L -> c < d ->
     rget t [b; l; c] = rget y [b; sigma l; c]) ->
  t = permute_positions sigma y.
Proof.
  intros Hwf Ht Hy Hent. apply tensor_ext.
  - exact Hwf.
  - apply wf_permute_positions.
  - now rewrite shape_permute_positions, Ht, Hy.
  - rewrite Ht. intros idx Hidx.
    apply in_bounds3 in Hidx as (b & l & c & -> & Hb & Hl & Hc).
    rewrite (@rget_permute_positions sigma y B L d) by assumption.
    now apply Hent.
Qed.

Section AttentionPermuted.
Variables (self : MultiHeadAttention.t) (d_model : nat).
Hypothesis Hself : attention_for d_model self.
Variables (B L L1 : nat).
Hypothesis HB : 0 < B.
Hypothesis Hd : 0 < d_model.

Lemma attention_keys_permuted (sigma : nat -> nat) (Q K V : rtensor) :
  shape Q = [B; L; d_model] -> shape K = [B; L1; d_model] ->
  shape V = [B; L1; d_model] -> permutation_of L1 sigma ->
  MultiHeadAttention.forward self Q (permute_positions sigma K)
    (permute_positions sigma V)
  = MultiHeadAttention.forward self Q K V.
Proof.
  intros HQ HK HV Hs. pose proof Hself as (_ & Hhd & _).
  destruct (@attention_forward_closed_form self d_model Hself Q K V B L L1
              HQ HK HV HB Hd) as (a & -> & Hsa & Hwf & Hent).
  destruct (@attention_forward_closed_form self d_model Hself Q
              (permute_positions sigma K) (permute_positions sigma V)
              B L L1 HQ HK HV HB Hd) as (a' & -> & Hsa' & Hwf' & Hent').
  f_equal. apply tensor_ext; auto; [congruence|].
  rewrite Hsa'. intros idx Hidx.
  apply in_bounds3 in Hidx as (b & l & j & -> & Hb & Hl & Hj).
  rewrite Hent, Hent' by assumption.
  rewrite <- (@attention_entry_keys_permuted self L1 sigma
                (fun l0 c => rget Q [b; l0; c])
                (fun l0 c => rget K [b; l0; c])
                (fun l0 c => rget V [b; l0; c]) l j Hs).
  apply attention_entry_ext; [reflexivity|].
  intros k c Hk Hc. rewrite Hhd in Hc.
  split; now apply (@rget_permute_positions sigma _ B L1 d_model).
Qed.

Lemma attention_queries_permuted (tau : nat -> nat) (Q K V : rtensor) :
  shape Q = [B; L; d_model] -> shape K = [B; L1; d_model] ->
  shape V = [B; L1; d_model] -> permutation_of L tau ->
  MultiHeadAttention.forward self (permute_positions tau Q) K V
  = rmap (permute_positions tau) (MultiHeadAttention.forward self Q K V).
Proof.
  intros HQ HK HV Ht. pose proof Hself as (_ & Hhd & _).
  destruct (@attention_forward_closed_form self d_model Hself Q K V B L L1
              HQ HK HV HB Hd) as (a & -> & Hsa & Hwf & Hent).
  destruct (@attention_forward_closed_form self d_model Hself
              (permute_positions tau Q) K V
              B L L1 HQ HK HV HB Hd) as (a' & -> & Hsa' & Hwf' & Hent').
  cbn [rmap]. f_equal.
  apply (@is_permuted tau a' a B L d_model); auto.
  intros b l j Hb Hl Hj.
  pose proof (permutation_lt Ht Hl) as Htl.
  rewrite Hent, Hent' by assumption.
  change (attention_entry self L1 (fun l0 c => rget Q [b; l0; c])
            (fun l0 c => rget K [b; l0; c])
            (fun l0 c => rget V [b; l0; c]) (tau l) j)
    with (attention_entry self L1 (fun l0 c => rget Q [b; tau l0; c])
            (fun l0 c => rget K [b; l0; c])
            (fun l0 c => rget V [b; l0; c]) l j).
  apply attention_entry_ext; [|auto].
  intros c Hc. rewrite Hhd in Hc.
  now apply (@rget_permute_positions tau _ B L d_model).
Qed.

End AttentionPermuted.

(** X21: attention and the order of the positions.  For a constructed
    module, queries of shape [B, L, d_model] and keys and values of shape
    [B, L', d_model], with [B] and [d_model] positive:
    [MultiHeadAttention.forward] returns the same result when the keys
    and the values are rearranged in the same way, and rearranging the
    queries rearranges the result in that way. *)
Theorem X21_attention_and_the_order_of_positions
  (g : rng) (d_model num_heads c c' : nat) (self : MultiHeadAttention.t)
  (Q K V : rtensor) (B L L' : nat) (sigma tau : nat -> nat) :
  MultiHeadAttention.init g d_model num_heads c = Ok (self, c') ->
  shape Q = [B; L; d_model] -> shape K = [B; L'; d_model] ->
  shape V = [B; L'; d_model] -> 0 < B -> 0 < d_model ->
  permutation_of L' sigma -> permutation_of L tau ->
  MultiHeadAttention.forward self Q (permute_positions sigma K)
    (permute_positions sigma V)
  = MultiHeadAttention.forward self Q K V /\
  MultiHeadAttention.forward self (permute_positions tau Q) K V
  = rmap (permute_positions tau) (MultiHeadAttention.forward self Q K V).
Proof.
  intros Hinit HQ HK HV HB Hd Hs Ht.
  apply attention_init_inv in Hinit as (_ & _ & Hfor & _ & _).
  split.
  - eapply attention_keys_permuted with (B := B) (L := L) (L1 := L'); eauto.
  - eapply attention_queries_permuted with (B := B) (L := L) (L1 := L'); eauto.
Qed.

Lemma permutation_of_swap01 :
  permutation_of 2 (fun k => match k with 0 => 1 | 1 => 0 | _ => k end).
Proof. apply perm_swap. Qed.

Lemma X21_witness :
  exists self c',
    MultiHeadAttention.init g0 4 2 0 = Ok (self, c') /\
    MultiHeadAttention.forward self (ones [1; 2; 4])
      (permute_positions (fun k => match k with 0 => 1 | 1 => 0 | _ => k end)
         (zeros [1; 2; 4]))
      (permute_positions (fun k => match k with 0 => 1 | 1 => 0 | _ => k end)
         (ones [1; 2; 4]))
    = MultiHeadAttention.forward self (ones [1; 2; 4]) (zeros [1; 2; 4])
        (ones [1; 2; 4]).
Proof.
  destruct (MultiHeadAttention.init g0 4 2 0) as [[self c']|e] eqn:Hinit;
    [|cbn in Hinit; discriminate].
  exists self, c'. split; [reflexivity|].
  apply (@X21_attention_and_the_order_of_positions g0 4 2 0 c' self
           (ones [1; 2; 4]) (zeros [1; 2; 4]) (ones [1; 2; 4]) 1 2 2
           (fun k => match k with 0 => 1 | 1 => 0 | _ => k end)
           (fun k => k) Hinit eq_refl eq_refl eq_refl);
    try lia.
  - apply permutation_of_swap01.
  - apply permutation_of_id.
Defined.

(** ** The encoder layers and the order of the positions *)

Lemma rget_residual (x y : rtensor) (idx : list nat) :
  in_bounds (shape x) idx = true ->
  rget (Spec.residual x y) idx = (rget x idx + rget y idx)%R.
Proof. intros H. unfold Spec.residual. now rewrite rget_tbuild. Qed.

Lemma rget_normalize3 (ln : LayerNorm.t) (x : rtensor) (B L d b l k : nat) :
  norm_for d ln -> shape x = [B; L; d] -> b < B -> l < L -> k < d ->
  rget (Spec.normalize ln x) [b; l; k]
  = ((rget x [b; l; k] - row_mean x [b; l] d)
     / sqrt (row_var x [b; l] d + LayerNorm.eps ln)
     * rget (LayerNorm.weight ln) [k] + rget (LayerNorm.bias ln) [k])%R.
Proof.
  intros Hln Hx Hb Hl Hk. unfold norm_for in Hln. subst d.
  unfold Spec.normalize.
  rewrite rget_tbuild by (rewrite Hx; bounds).
  reflexivity.
Qed.

Section Permuted.
Variables (B L d : nat) (sigma : nat -> nat).
Hypothesis Hs : permutation_of L sigma.

Lemma row_mean_permuted (x : rtensor) (b l : nat) :
  shape x = [B; L; d] -> b < B -> l < L ->
  row_mean (permute_positions sigma x) [b; l] d = row_mean x [b; sigma l] d.
Proof.
  intros Hx Hb Hl. unfold row_mean. f_equal. apply sum_over_ext.
  intros c Hc. cbn [app].
  now apply (@rget_permute_positions sigma x B L d).
Qed.

Lemma row_var_permuted (x : rtensor) (b l : nat) :
  shape x = [B; L; d] -> b < B -> l < L ->
  row_var (permute_positions sigma x) [b; l] d = row_var x [b; sigma l] d.
Proof.
  intros Hx Hb Hl. unfold row_var. f_equal. apply sum_over_ext.
  intros c Hc. cbn [app].
  rewrite (@rget_permute_positions sigma x B L d) by assumption.
  now rewrite row_mean_permuted.
Qed.

Lemma residual_permuted (x y : rtensor) :
  shape x = [B; L; d] -> shape y = [B; L; d] ->
  Spec.residual (permute_positions sigma x) (permute_positions sigma y)
  = permute_positions sigma (Spec.residual x y).
Proof.
  intros Hx Hy.
  apply (@is_permuted sigma _ _ B L d); auto.
  - apply wf_tbuild.
  - intros b l c Hb Hl Hc.
    pose proof (permutation_lt Hs Hl) as Hsl.
    rewrite !rget_residual
      by (rewrite ?shape_permute_positions, Hx; bounds).
    now rewrite !(@rget_permute_positions sigma _ B L d).
Qed.

Lemma normalize_permuted (ln : LayerNorm.t) (x : rtensor) :
  norm_for d ln -> shape x = [B; L; d] ->
  Spec.normalize ln (permute_positions sigma x)
  = permute_positions sigma (Spec.normalize ln x).
Proof.
  intros Hln Hx.
  apply (@is_permuted sigma _ _ B L d); auto.
  - apply wf_tbuild.
  - intros b l c Hb Hl Hc.
    pose proof (permutation_lt Hs Hl) as Hsl.
    rewrite !(@rget_normalize3 ln _ B L d) by auto.
    rewrite row_mean_permuted, row_var_permuted by assumption.
    now rewrite (@rget_permute_positions sigma x B L d).
Qed.

Lemma ffn_permuted (f : PositionWiseFeedForward.t) (d_ff : nat) (x : rtensor) :
  ffn_for d d_ff f -> shape x = [B; L; d] ->
  PositionWiseFeedForward.forward f (permute_positions sigma x)
  = rmap (permute_positions sigma) (PositionWiseFeedForward.forward f x).
Proof.
  intros Hf Hx.
  destruct (@ffn_forward_entries f d d_ff B L x Hf Hx)
    as (y & -> & Hsy & Hent).
  destruct (@ffn_forward_entries f d d_ff B L (permute_positions sigma x)
              Hf Hx) as (y' & Hy' & Hsy' & Hent').
  rewrite Hy'. cbn [rmap]. f_equal.
  apply (@is_permuted sigma _ _ B L d); auto.
  - unfold PositionWiseFeedForward.forward in Hy'.
    destruct (Linear.forward _ _) as [h|e]; [|discriminate].
    cbn [bind] in Hy'. unfold Linear.forward, linear in Hy'.
    destruct (rank (relu h) =? 0); [discriminate|].
    destruct (_ =? _); [|discriminate].
    injection Hy' as <-. apply wf_linear_out.
  - intros b l c Hb Hl Hc.
    pose proof (permutation_lt Hs Hl) as Hsl.
    rewrite Hent, Hent' by assumption.
    f_equal. apply sum_over_ext. intros j Hj. f_equal. f_equal. f_equal.
    apply sum_over_ext. intros e He. f_equal.
    now apply (@rget_permute_positions sigma x B L d).
Qed.

Lemma layer_permuted (layer : EncoderLayer.t) (d_ff : nat) (x : rtensor) :
  layer_for d d_ff layer -> shape x = [B; L; d] ->
  EncoderLayer.forward layer (permute_positions sigma x)
  = rmap (permute_positions sigma) (EncoderLayer.forward layer x).
Proof.
  intros Hlayer Hx. pose proof Hlayer as (Ha & Hn1 & Hf & Hn2).
  destruct (Nat.eq_dec B 0) as [HB|HB];
    [|destruct (Nat.eq_dec d 0) as [Hd|Hd]].
  1,2: rewrite !(@layer_forward_degenerate layer d d_ff Hlayer B L)
         by auto; reflexivity.
  rewrite !(@layer_forward_refines layer d d_ff Hlayer B L) by auto.
  unfold Spec.encoder_layer.
  rewrite (@attention_keys_permuted _ d Ha B L L) by (auto; lia).
  rewrite (@attention_queries_permuted _ d Ha B L L) by (auto; lia).
  destruct (@attention_forward_ok _ d Ha B L x x x)
    as (a & -> & Hsa); auto; try lia.
  cbn [rmap bind].
  rewrite residual_permuted by assumption.
  rewrite normalize_permuted by (auto; shapes; reflexivity).
  set (x1 := Spec.normalize _ (Spec.residual x a)).
  assert (Hx1 : shape x1 = [B; L; d]) by (subst x1; shapes; reflexivity).
  clearbody x1.
  rewrite (@ffn_permuted _ d_ff) by assumption.
  destruct (@ffn_forward_ok _ d d_ff B L x1 Hf Hx1) as (f & -> & Hsf).
  cbn [rmap bind]. f_equal.
  rewrite residual_permuted by assumption.
  apply normalize_permuted; auto.
Qed.

Lemma run_layers_permuted (d_ff : nat) (layers : list EncoderLayer.t) :
  Forall (layer_for d d_ff) layers ->
  forall x, shape x = [B; L; d] ->
    TransformerEncoder.run_layers layers (permute_positions sigma x)
    = rmap (permute_positions sigma) (TransformerEncoder.run_layers layers x).
Proof.
  induction 1 as [|layer layers Hl Hall IH]; intros x Hx; simpl;
    [reflexivity|].
  rewrite (@layer_permuted layer d_ff x Hl Hx).
  destruct (EncoderLayer.forward layer x) as [x'|e] eqn:E; [|reflexivity].
  cbn [rmap bind]. apply IH.
  exact (@layer_forward_shape layer d d_ff Hl B L x x' Hx E).
Qed.

Lemma mean_pool_permuted (y : rtensor) :
  shape y = [B; L; d] ->
  Spec.mean_pool (permute_positions sigma y) = Spec.mean_pool y.
Proof.
  intros Hy. unfold Spec.mean_pool.
  rewrite shape_permute_positions, Hy. cbn [nth].
  apply tbuild_ext. intros idx Hidx.
  apply in_bounds2 in Hidx as (b & k & -> & Hb & Hk). cbn [nth].
  f_equal.
  rewrite (@sum_over_ext L _ (fun n => rget y [b; sigma n; k]))
    by (intros n Hn; now apply (@rget_permute_positions sigma y B L d)).
  apply (@sum_over_permutation L sigma (fun n => rget y [b; n; k]) Hs).
Qed.

End Permuted.

(** X22: an encoder layer does not know the order of the positions.  For
    a constructed layer, an input [x] of shape [B, L, d_model] and a
    rearrangement of the [L] positions, [forward] on the rearranged input
    is the rearranged result of [forward] on [x] (and the same error when
    [forward] raises). *)
Theorem X22_layer_commutes_with_rearranging_positions
  (g : rng) (d_model num_heads d_ff c c' : nat) (layer : EncoderLayer.t)
  (x : rtensor) (B L : nat) (sigma : nat -> nat) :
  EncoderLayer.init g d_model num_heads d_ff c = Ok (layer, c') ->
  shape x = [B; L; d_model] -> permutation_of L sigma ->
  EncoderLayer.forward layer (permute_positions sigma x)
  = rmap (permute_positions sigma) (EncoderLayer.forward layer x).
Proof.
  intros Hinit Hx Hs.
  apply EncoderLayer_init_inv in Hinit as (_ & _ & Hlayer).
  now apply (@layer_permuted B L d_model sigma Hs layer d_ff).
Qed.

(** X23: after the positional encoding is added, [forward] does not
    depend on the order of the patches.  For a constructed model, a
    tensor [z] of shape [B, L, d_model] and a rearrangement of the [L]
    positions, the rest of [forward] (the encoder layers, the final
    normalization, the mean over the positions and the classification
    layer) gives the same result for [z] with its positions rearranged
    as for [z]. *)
Theorem X23_pooled_logits_ignore_the_order_of_positions
  (g : rng) (img_size patch_size d_model num_heads num_layers d_ff num_classes : nat)
  (c c' : nat) (m : TransformerEncoder.t) (z : rtensor) (B L : nat)
  (sigma : nat -> nat) :
  TransformerEncoder.init g img_size patch_size d_model num_heads num_layers
    d_ff num_classes c = Ok (m, c') ->
  shape z = [B; L; d_model] -> permutation_of L sigma ->
  (x <- TransformerEncoder.run_layers (TransformerEncoder.encoder_layers m)
          (permute_positions sigma z) ;;
   x <- LayerNorm.forward (TransformerEncoder.norm m) x ;;
   x <- mean x 1 ;;
   Linear.forward (TransformerEncoder.fc m) x)
  = (x <- TransformerEncoder.run_layers (TransformerEncoder.encoder_layers m) z ;;
     x <- LayerNorm.forward (TransformerEncoder.norm m) x ;;
     x <- mean x 1 ;;
     Linear.forward (TransformerEncoder.fc m) x).
Proof.
  intros Hinit Hz Hs.
  apply encoder_init_inv in Hinit as (_ & _ & _ & _ & Hm).
  rewrite !(@after_layers m img_size patch_size d_model d_ff num_classes Hm B L)
    by auto.
  pose proof Hm as (_ & _ & _ & _ & _ & Hlayers & Hnorm & _).
  unfold after_positions.
  rewrite (@run_layers_permuted B L d_model sigma Hs d_ff _ Hlayers z Hz).
  destruct (TransformerEncoder.run_layers _ z) as [z'|e] eqn:E; [|reflexivity].
  cbn [rmap bind]. do 2 f_equal.
  pose proof (@run_layers_shape d_model d_ff _ Hlayers B L z z' Hz E) as Hz'.
  rewrite (@normalize_permuted B L d_model sigma Hs _ z' Hnorm Hz').
  apply (@mean_pool_permuted B L d_model sigma Hs). shapes. reflexivity.
Qed.

Lemma X22_witness :
  exists layer c',
    EncoderLayer.init g0 4 2 8 0 = Ok (layer, c') /\
    EncoderLayer.forward layer
      (permute_positions (fun k => match k with 0 => 1 | 1 => 0 | _ => k end)
         (ones [1; 2; 4]))
    = rmap (permute_positions
              (fun k => match k with 0 => 1 | 1 => 0 | _ => k end))
        (EncoderLayer.forward layer (ones [1; 2; 4])).
Proof.
  destruct (EncoderLayer.init g0 4 2 8 0) as [[layer c']|e] eqn:Hinit;
    [|cbn in Hinit; discriminate].
  exists layer, c'. split; [reflexivity|].
  apply (@X22_layer_commutes_with_rearranging_positions g0 4 2 8 0 c' layer
           (ones [1; 2; 4]) 1 2 _ Hinit eq_refl permutation_of_swap01).
Defined.

Lemma X23_witness :
  exists m c',
    TransformerEncoder.init g0 4 2 4 2 1 8 2 0 = Ok (m, c') /\
    (x <- TransformerEncoder.run_layers (TransformerEncoder.encoder_layers m)
            (permute_positions
               (fun k => match k with 0 => 1 | 1 => 0 | _ => k end)
               (ones [1; 2; 4])) ;;
     x <- LayerNorm.forward (TransformerEncoder.norm m) x ;;
     x <- mean x 1 ;;
     Linear.forward (TransformerEncoder.fc m) x)
    = (x <- TransformerEncoder.run_layers (TransformerEncoder.encoder_layers m)
              (ones [1; 2; 4]) ;;
       x <- LayerNorm.forward (TransformerEncoder.norm m) x ;;
       x <- mean x 1 ;;
       Linear.forward (TransformerEncoder.fc m) x).
Proof.
  destruct (TransformerEncoder.init g0 4 2 4 2 1 8 2 0) as [[m c']|e] eqn:Hinit;
    [|cbn in Hinit; discriminate].
  exists m, c'. split; [reflexivity|].
  apply (@X23_pooled_logits_ignore_the_order_of_positions g0 4 2 4 2 1 8 2 0 c'
           m (ones [1; 2; 4]) 1 2 _ Hinit eq_refl permutation_of_swap01).
Defined.

(** ** Inputs of another width *)

Lemma broadcast_shapes_width (B L a b : nat) :
  broadcast_shapes [B; L; a] [1; L; b]
  = if a =? b then Ok [B; L; a]
    else if a =? 1 then Ok [B; L; b]
    else if b =? 1 then Ok [B; L; a]
    else Err (SizeMismatch a b).
Proof.
  unfold broadcast_shapes. cbn [rev app broadcast_rev].
  rewrite Nat.eqb_refl.
  assert (Hrest : rmap (cons L)
                    (if B =? 1 then rmap (cons B) (Ok [])
                     else if B =? 1 then rmap (cons 1) (Ok [])
                     else if 1 =? 1 then rmap (cons B) (Ok [])
                     else Err (SizeMismatch B 1))
                  = Ok [L; B])
    by (destruct (B =? 1); reflexivity).
  destruct (a =? b); [|destruct (a =? 1); [|destruct (b =? 1)]];
    try rewrite Hrest; reflexivity.
Qed.

(** X24: [PositionalEncoding.forward] on an input of another width.  For
    a constructed module and an input of shape [B, L, w] with [L] at most
    [max_len] and [w] other than [d_model]: when neither [w] nor
    [d_model] is 1 the addition raises a size mismatch; when one of them
    is 1 no error is raised, and the result has the other width. *)
Theorem X24_positional_encoding_other_width
  (d_model max_len : nat) (p : PositionalEncoding.t) (x : rtensor) (B L w : nat) :
  PositionalEncoding.init d_model max_len = Ok p ->
  shape x = [B; L; w] -> L <= max_len -> w <> d_model ->
  (w <> 1 -> d_model <> 1 ->
   PositionalEncoding.forward p x = Err (SizeMismatch w d_model)) /\
  (w = 1 \/ d_model = 1 ->
   exists y, PositionalEncoding.forward p x = Ok y /\
             shape y = [B; L; if w =? 1 then d_model else w]).
Proof.
  intros Hinit Hx HL Hw. apply posenc_init_inv in Hinit as [-> Hd].
  assert (Hf : PositionalEncoding.forward
                 (PositionalEncoding.Build (pe_table d_model max_len)) x
               = (s <- broadcast_shapes [B; L; w] [1; L; d_model] ;;
                  Ok (broadcast2_out Rplus s x
                        (slice_upto (pe_table d_model max_len) 1 L)))).
  { unfold PositionalEncoding.forward. cbn [PositionalEncoding.pe].
    rewrite size_at1 by (shapes; lia).
    rewrite Hx. cbn [nth bind].
    unfold add, broadcast2.
    rewrite shape_slice_upto, shape_pe_table, Hx.
    cbn [nth set_at]. now rewrite Nat.min_l by exact HL. }
  rewrite Hf, broadcast_shapes_width.
  destruct (Nat.eqb_spec w d_model) as [|_]; [contradiction|].
  split.
  - intros Hw1 Hd1.
    destruct (Nat.eqb_spec w 1); [contradiction|].
    destruct (Nat.eqb_spec d_model 1); [contradiction|]. reflexivity.
  - intros H1.
    destruct (Nat.eqb_spec w 1) as [->|Hw1].
    + cbn [bind]. eexists. split; reflexivity.
    + destruct H1 as [Hw0 | ->]; [contradiction|].
      cbn [Nat.eqb bind]. eexists. split; reflexivity.
Qed.

Lemma X24_witness :
  exists p,
    PositionalEncoding.init 4 3 = Ok p /\
    PositionalEncoding.forward p (ones [2; 3; 6]) = Err (SizeMismatch 6 4) /\
    exists y, PositionalEncoding.forward p (ones [2; 3; 1]) = Ok y /\
              shape y = [2; 3; 4].
Proof.
  destruct (PositionalEncoding.init 4 3) as [p|e] eqn:Hinit.
  2: { rewrite posenc_init_ok in Hinit by (auto; right; reflexivity || left; reflexivity).
       discriminate. }
  exists p. split; [reflexivity|]. split.
  - destruct (@X24_positional_encoding_other_width 4 3 p (ones [2; 3; 6]) 2 3 6
                Hinit eq_refl) as [Hraise _]; [lia | lia |].
    apply Hraise; lia.
  - destruct (@X24_positional_encoding_other_width 4 3 p (ones [2; 3; 1]) 2 3 1
                Hinit eq_refl) as [_ Hbroad]; [lia | lia |].
    apply Hbroad. now left.
Defined.

Lemma Linear_forward_mismatch (l : Linear.t) (i o : nat) (x : rtensor) :
  linear_for i o l -> rank x <> 0 -> last (shape x) 0 <> i ->
  Linear.forward l x = Err (MatMismatch (last (shape x) 0) i).
Proof.
  intros [HW _] Hr Hl. unfold Linear.forward, linear.
  destruct (Nat.eqb_spec (rank x) 0); [contradiction|].
  rewrite HW. cbn [nth].
  destruct (Nat.eqb_spec (last (shape x) 0) i); [contradiction|reflexivity].
Qed.

(** X25: an input of the wrong width is refused by the first projection.
    For a constructed encoder layer and an input of shape [B, L, w] with
    [w] other than [d_model], [forward] raises the inner-dimension
    mismatch of the query projection; no part of the layer is computed
    on such an input. *)
Theorem X25_layer_refuses_another_width
  (g : rng) (d_model num_heads d_ff c c' : nat) (layer : EncoderLayer.t)
  (x : rtensor) (B L w : nat) :
  EncoderLayer.init g d_model num_heads d_ff c = Ok (layer, c') ->
  shape x = [B; L; w] -> w <> d_model ->
  MultiHeadAttention.forward (EncoderLayer.attention layer) x x x
  = Err (MatMismatch w d_model) /\
  EncoderLayer.forward layer x = Err (MatMismatch w d_model).
Proof.
  intros Hinit Hx Hw.
  apply EncoderLayer_init_inv in Hinit as (_ & _ & Hlayer).
  destruct Hlayer as ((_ & _ & Hq & _) & _).
  assert (Ha : MultiHeadAttention.forward (EncoderLayer.attention layer) x x x
               = Err (MatMismatch w d_model)).
  { unfold MultiHeadAttention.forward.
    rewrite size_at0 by (shapes; lia). cbn [bind].
    rewrite (@Linear_forward_mismatch _ d_model d_model x Hq)
      by (shapes; (lia || exact Hw)).
    rewrite Hx. reflexivity. }
  split; [exact Ha|].
  unfold EncoderLayer.forward. now rewrite Ha.
Qed.

Lemma X25_witness :
  exists layer c',
    EncoderLayer.init g0 4 2 8 0 = Ok (layer, c') /\
    EncoderLayer.forward layer (ones [2; 3; 6]) = Err (MatMismatch 6 4).
Proof.
  destruct (EncoderLayer.init g0 4 2 8 0) as [[layer c']|e] eqn:Hinit;
    [|cbn in Hinit; discriminate].
  exists layer, c'. split; [reflexivity|].
  apply (@X25_layer_refuses_another_width g0 4 2 8 0 c' layer
           (ones [2; 3; 6]) 2 3 6 Hinit eq_refl). lia.
Defined.
